(** * The Wayland core of qtile: stacking, hit testing, focus and pointer routing

    A shallow embedding of [libqtile/backend/wayland/core.py] (class [Core]).

    - Python objects that the code compares with [is] or [==] carry a
      natural number that stands for their identity.
    - Cursor coordinates and event deltas are Python floats; they are
      modelled as rationals [Q] (every finite double is one).  Comparisons
      between them and the integer window geometry are exact in Python, and
      so they are here.  The sum of two floats that [_on_cursor_motion]
      tests against a constraint is rounded as binary64 rounds it
      ([float_add]); the differences of a coordinate and a window's
      position, which go to [surface_at] and to the callbacks of internal
      windows only, are kept exact.
    - The core mutates itself and calls into wlroots, the seat and the
      window manager.  A handler is a function in the monad [M]: it threads
      the [Core] record, may raise a Python exception, and appends every
      call on an outside object to [trace] in the order it is made.
    - What such a call does to the objects of wlroots that the core reads
      back (the focus of the seat, the pending and committed state of an
      output, the layout) is kept in the [Core] record as well.  A signal
      that wlroots emits from inside a call runs its listener as a handler
      call of its own; it is not inlined.  The window manager is read as it
      is when the handler starts; a request that a handler sends to it is
      recorded in the trace, and what the window manager does to answer it
      is not followed.
    - [logger] calls are not represented. *)

From Stdlib Require Import QArith Qround Floats.
From stdpp Require Import base option list gmap strings.

Open Scope Z_scope.

(** ** Objects of wlroots and pywayland *)

(** [pywayland.server.Client] *)
Record Client := { client_id : nat }.

(** [wlroots.wlr_types.Surface]; [surf_data] is the [data] attribute of the
    shell surface made from it (the identity of the window that owns it). *)
Record Surface := {
  surf_id : nat;
  is_xdg_surface : bool;
  is_xwayland_surface : bool;
  surf_data : option nat
}.

Inductive ICCCMInputModel := ICCCM_NONE | ICCCM_PASSIVE | ICCCM_LOCAL | ICCCM_GLOBAL.

(** What a window's [surface] attribute can be. *)
Inductive ShellSurface :=
| XdgSurface (surface : Surface)
| XwaylandSurface (surface : Surface)
    (override_redirect or_surface_wants_focus : bool)
    (icccm_input_model : ICCCMInputModel)
| LayerSurfaceV1 (surface : Surface) (keyboard_interactive : bool).

Definition shell_wlr_surface (s : ShellSurface) : Surface :=
  match s with
  | XdgSurface w => w
  | XwaylandSurface w _ _ _ => w
  | LayerSurfaceV1 w _ => w
  end.

Inductive AxisOrientation := VERTICAL | HORIZONTAL.
Inductive AxisSource := WHEEL | FINGER | CONTINUOUS | WHEEL_TILT.

(** [wlroots.util.box.Box] *)
Record Box := { box_x : Z; box_y : Z; box_width : Z; box_height : Z }.

(** [Box.contains_point], as wlroots' [wlr_box_contains_point] has it: an
    empty box contains nothing, the right and bottom edges are excluded. *)
Definition contains_point (b : Box) (px py : Q) : bool :=
  if (box_width b <=? 0) || (box_height b <=? 0) then false
  else Qle_bool (inject_Z (box_x b)) px
       && negb (Qle_bool (inject_Z (box_x b + box_width b)) px)
       && Qle_bool (inject_Z (box_y b)) py
       && negb (Qle_bool (inject_Z (box_y b + box_height b)) py).

(** ** Windows *)

(** The classes of [window.WindowType]: [Internal], the two [Window]
    classes and the three [Static] classes. *)
Inductive WinClass :=
| CInternal | CXdgWindow | CXWindow | CXdgStatic | CXStatic | CLayerStatic.

Definition isinstance_Internal (k : WinClass) : bool :=
  match k with CInternal => true | _ => false end.
Definition isinstance_Static (k : WinClass) : bool :=
  match k with CXdgStatic | CXStatic | CLayerStatic => true | _ => false end.
Definition isinstance_LayerStatic (k : WinClass) : bool :=
  match k with CLayerStatic => true | _ => false end.
Definition isinstance_XStatic (k : WinClass) : bool :=
  match k with CXStatic => true | _ => false end.

(** [libqtile.group._Group], as far as the core reads it. *)
Record Group := {
  group_id : nat;
  group_current_window : option nat;
  group_screen : option nat
}.

(** A window.  [wid] is the object's identity; [belongs_to_client] and
    [surface_at] are its methods ([surface_at] is that of its surface). *)
Record Win := {
  wid : nat;
  win_class : WinClass;
  win_x : Z;
  win_y : Z;
  win_width : Z;
  win_height : Z;
  borderwidth : Z;
  win_surface : option ShellSurface;
  belongs_to_client : Client -> bool;
  surface_at : Q -> Q -> option Surface * Q * Q;
  ftm_handle : bool;
  win_group : option Group;
  win_screen : nat
}.

(** [a is b] on windows. *)
Definition win_is (a b : Win) : bool := Nat.eqb (wid a) (wid b).

Definition opt_win_is (o : option Win) (w : Win) : bool :=
  match o with Some v => win_is v w | None => false end.

(** ** Outputs *)

(** [libqtile.backend.wayland.output.Output]: its identity (shared with its
    [wlr_output]) and its four layer-shell lists. *)
Record Output := {
  out_id : nat;
  layer_BACKGROUND : list Win;
  layer_BOTTOM : list Win;
  layer_TOP : list Win;
  layer_OVERLAY : list Win
}.

Definition output_is (a b : Output) : bool := Nat.eqb (out_id a) (out_id b).

Record Mode := { mode_width : Z; mode_height : Z; mode_refresh : Z }.

Inductive ModeSel := FixedMode (m : Mode) | CustomMode (width height refresh : Z).

(** The double-buffered state of a [wlr_output]. *)
Record OutputState := {
  os_enabled : bool;
  os_mode : option ModeSel;
  os_transform : Z;
  os_scale : Q
}.

(** A [wlr_output]: setters write [pending], [commit] copies it to
    [current], [rollback] drops it. *)
Record WlrOutput := { current : OutputState; pending : OutputState }.

(** [OutputConfigurationHeadV1.state] *)
Record HeadState := {
  hs_output : nat;
  hs_enabled : bool;
  hs_mode : option Mode;
  hs_custom_mode : Mode;
  hs_x : Z;
  hs_y : Z;
  hs_transform : Z;
  hs_scale : Q
}.

(** ** Pointer constraints *)

(** [window.PointerConstraint]: identity, the surface of its
    [wlr_constraint], and its rectangle in layout coordinates. *)
Record PointerConstraint := {
  pc_id : nat;
  pc_surface : Surface;
  rect : Box
}.

(** ** Input events *)


Record PointerEventMotion := {
  motion_time_msec : Z;
  motion_device : nat;
  delta_x : Q;
  delta_y : Q;
  unaccel_delta_x : Q;
  unaccel_delta_y : Q
}.

(** ** Calls on outside objects *)

Inductive Event :=
| IdleNotifyActivity
| SendRelativeMotion (time_usec : Z) (dx dy udx udy : Q)
| CursorMove (dx dy : Q) (device : nat)
| SetCursorImage (name : string)
| PointerNotifyClearFocus
| PointerNotifyEnter (s : Surface) (sx sy : Q)
| PointerNotifyMotion (time_msec : Z) (sx sy : Q)
| PointerNotifyAxis (time_msec : Z) (o : AxisOrientation) (delta : Q)
    (delta_discrete : Z) (source : AxisSource)
| KeyboardClearFocus
| KeyboardNotifyEnter (s : Surface)
| XdgSetActivated (surface : nat) (b : bool)
| XwaylandActivate (surface : nat) (b : bool)
| WindowSetActivated (w : nat) (b : bool)
| FtmSetActivated (w : nat) (b : bool)
| InternalPointerMotion (w : nat) (x y : Z)
| InternalPointerLeave (w : nat) (x y : Z)
| InternalPointerEnter (w : nat) (x y : Z)
| InternalButtonClick (w : nat) (x y button : Z)
| InternalButtonRelease (w : nat) (x y button : Z)
| QtileProcessButtonMotion (x y : Z)
| QtileProcessButtonClick (button modmask x y : Z)
| QtileProcessButtonRelease (button modmask : Z)
| QtileFocusScreen (index : nat) (warp : bool)
| GroupFocus (g : nat) (w : nat) (warp : bool)
| HookFire (name : string) (arg : option nat)
| DndPosition (cx cy : Q)
| OutputEnable (o : nat) (enable : bool)
| OutputSetMode (o : nat) (m : Mode)
| OutputSetCustomMode (o : nat) (width height refresh : Z)
| OutputSetTransform (o : nat) (t : Z)
| OutputSetScale (o : nat) (s : Q)
| OutputTest (o : nat)
| OutputCommit (o : nat)
| OutputRollback (o : nat)
| LayoutAdd (o : nat) (x y : Z)
| LayoutRemove (o : nat)
| ConfigSendSucceeded
| ConfigSendFailed
| ConfigDestroy
| ConstraintSendActivated (pc : nat)
| ConstraintSendDeactivated (pc : nat).

(** ** The window manager, as the core uses it *)

(** [libqtile.core.manager.Qtile].  The two [binding_*] fields answer
    whether the binding table claims a button press or release. *)
Record Qtile := {
  windows_map : gmap Z Win;
  current_window : option Win;
  current_screen : nat;
  follow_mouse_focus : bool;
  binding_click : Z -> Z -> Z -> Z -> bool;
  binding_release : Z -> Z -> bool
}.

(** ** The seat *)

Record Seat := {
  destroyed : bool;
  keyboard_focused_surface : option Surface;
  pointer_focused_surface : option Surface;
  keyboard_modifier : Z;
  keyboard_ptr_null : bool
}.

(** ** What wlroots decides for the core *)

Record Wlroots := {
  (** [wlr_output.test()] on a pending state *)
  output_test : nat -> OutputState -> bool;
  (** where [cursor.move] ends up, after clamping to the layout *)
  cursor_moved : list (nat * (Z * Z)) -> Q * Q -> Q * Q -> Q * Q;
  (** [output_layout.output_at(x, y).data] *)
  output_at : list (nat * (Z * Z)) -> Q -> Q -> option Output
}.

(** ** The core *)

Record Core := {
  qtile : option Qtile;
  _hovered_window : option Win;
  focused_internal : option Win;
  mapped_windows : list Win;
  stacked_windows : list Win;
  _current_output : option Output;
  exclusive_client : option Client;
  outputs : list Output;
  output_layout : list (nat * (Z * Z));
  wlr_outputs : nat -> WlrOutput;
  cursor : Q * Q;
  seat : Seat;
  live_dnd : bool;
  pointer_constraints : list PointerConstraint;
  active_pointer_constraint : option PointerConstraint;
  wlroots : Wlroots;
  trace : list Event
}.

(** Assignment to one attribute of [self]. *)
Definition set_hovered_window (v : option Win) (c : Core) : Core :=
  {| qtile := qtile c; _hovered_window := v;
     focused_internal := focused_internal c;
     mapped_windows := mapped_windows c;
     stacked_windows := stacked_windows c;
     _current_output := _current_output c;
     exclusive_client := exclusive_client c; outputs := outputs c;
     output_layout := output_layout c; wlr_outputs := wlr_outputs c;
     cursor := cursor c; seat := seat c; live_dnd := live_dnd c;
     pointer_constraints := pointer_constraints c;
     active_pointer_constraint := active_pointer_constraint c;
     wlroots := wlroots c; trace := trace c |}.
Definition set_focused_internal (v : option Win) (c : Core) : Core :=
  {| qtile := qtile c; _hovered_window := _hovered_window c;
     focused_internal := v; mapped_windows := mapped_windows c;
     stacked_windows := stacked_windows c;
     _current_output := _current_output c;
     exclusive_client := exclusive_client c; outputs := outputs c;
     output_layout := output_layout c; wlr_outputs := wlr_outputs c;
     cursor := cursor c; seat := seat c; live_dnd := live_dnd c;
     pointer_constraints := pointer_constraints c;
     active_pointer_constraint := active_pointer_constraint c;
     wlroots := wlroots c; trace := trace c |}.
Definition set_mapped_windows (v : list Win) (c : Core) : Core :=
  {| qtile := qtile c; _hovered_window := _hovered_window c;
     focused_internal := focused_internal c; mapped_windows := v;
     stacked_windows := stacked_windows c;
     _current_output := _current_output c;
     exclusive_client := exclusive_client c; outputs := outputs c;
     output_layout := output_layout c; wlr_outputs := wlr_outputs c;
     cursor := cursor c; seat := seat c; live_dnd := live_dnd c;
     pointer_constraints := pointer_constraints c;
     active_pointer_constraint := active_pointer_constraint c;
     wlroots := wlroots c; trace := trace c |}.
Definition set_stacked_windows (v : list Win) (c : Core) : Core :=
  {| qtile := qtile c; _hovered_window := _hovered_window c;
     focused_internal := focused_internal c;
     mapped_windows := mapped_windows c; stacked_windows := v;
     _current_output := _current_output c;
     exclusive_client := exclusive_client c; outputs := outputs c;
     output_layout := output_layout c; wlr_outputs := wlr_outputs c;
     cursor := cursor c; seat := seat c; live_dnd := live_dnd c;
     pointer_constraints := pointer_constraints c;
     active_pointer_constraint := active_pointer_constraint c;
     wlroots := wlroots c; trace := trace c |}.
Definition set_current_output (v : option Output) (c : Core) : Core :=
  {| qtile := qtile c; _hovered_window := _hovered_window c;
     focused_internal := focused_internal c;
     mapped_windows := mapped_windows c;
     stacked_windows := stacked_windows c; _current_output := v;
     exclusive_client := exclusive_client c; outputs := outputs c;
     output_layout := output_layout c; wlr_outputs := wlr_outputs c;
     cursor := cursor c; seat := seat c; live_dnd := live_dnd c;
     pointer_constraints := pointer_constraints c;
     active_pointer_constraint := active_pointer_constraint c;
     wlroots := wlroots c; trace := trace c |}.
Definition set_outputs (v : list Output) (c : Core) : Core :=
  {| qtile := qtile c; _hovered_window := _hovered_window c;
     focused_internal := focused_internal c;
     mapped_windows := mapped_windows c;
     stacked_windows := stacked_windows c;
     _current_output := _current_output c;
     exclusive_client := exclusive_client c; outputs := v;
     output_layout := output_layout c; wlr_outputs := wlr_outputs c;
     cursor := cursor c; seat := seat c; live_dnd := live_dnd c;
     pointer_constraints := pointer_constraints c;
     active_pointer_constraint := active_pointer_constraint c;
     wlroots := wlroots c; trace := trace c |}.
Definition set_output_layout (v : list (nat * (Z * Z))) (c : Core) : Core :=
  {| qtile := qtile c; _hovered_window := _hovered_window c;
     focused_internal := focused_internal c;
     mapped_windows := mapped_windows c;
     stacked_windows := stacked_windows c;
     _current_output := _current_output c;
     exclusive_client := exclusive_client c; outputs := outputs c;
     output_layout := v; wlr_outputs := wlr_outputs c; cursor := cursor c;
     seat := seat c; live_dnd := live_dnd c;
     pointer_constraints := pointer_constraints c;
     active_pointer_constraint := active_pointer_constraint c;
     wlroots := wlroots c; trace := trace c |}.
Definition set_wlr_outputs (v : nat -> WlrOutput) (c : Core) : Core :=
  {| qtile := qtile c; _hovered_window := _hovered_window c;
     focused_internal := focused_internal c;
     mapped_windows := mapped_windows c;
     stacked_windows := stacked_windows c;
     _current_output := _current_output c;
     exclusive_client := exclusive_client c; outputs := outputs c;
     output_layout := output_layout c; wlr_outputs := v; cursor := cursor c;
     seat := seat c; live_dnd := live_dnd c;
     pointer_constraints := pointer_constraints c;
     active_pointer_constraint := active_pointer_constraint c;
     wlroots := wlroots c; trace := trace c |}.
Definition set_cursor (v : Q * Q) (c : Core) : Core :=
  {| qtile := qtile c; _hovered_window := _hovered_window c;
     focused_internal := focused_internal c;
     mapped_windows := mapped_windows c;
     stacked_windows := stacked_windows c;
     _current_output := _current_output c;
     exclusive_client := exclusive_client c; outputs := outputs c;
     output_layout := output_layout c; wlr_outputs := wlr_outputs c;
     cursor := v; seat := seat c; live_dnd := live_dnd c;
     pointer_constraints := pointer_constraints c;
     active_pointer_constraint := active_pointer_constraint c;
     wlroots := wlroots c; trace := trace c |}.
Definition set_seat (v : Seat) (c : Core) : Core :=
  {| qtile := qtile c; _hovered_window := _hovered_window c;
     focused_internal := focused_internal c;
     mapped_windows := mapped_windows c;
     stacked_windows := stacked_windows c;
     _current_output := _current_output c;
     exclusive_client := exclusive_client c; outputs := outputs c;
     output_layout := output_layout c; wlr_outputs := wlr_outputs c;
     cursor := cursor c; seat := v; live_dnd := live_dnd c;
     pointer_constraints := pointer_constraints c;
     active_pointer_constraint := active_pointer_constraint c;
     wlroots := wlroots c; trace := trace c |}.
Definition set_pointer_constraints (v : list PointerConstraint) (c : Core) : Core :=
  {| qtile := qtile c; _hovered_window := _hovered_window c;
     focused_internal := focused_internal c;
     mapped_windows := mapped_windows c;
     stacked_windows := stacked_windows c;
     _current_output := _current_output c;
     exclusive_client := exclusive_client c; outputs := outputs c;
     output_layout := output_layout c; wlr_outputs := wlr_outputs c;
     cursor := cursor c; seat := seat c; live_dnd := live_dnd c;
     pointer_constraints := v;
     active_pointer_constraint := active_pointer_constraint c;
     wlroots := wlroots c; trace := trace c |}.
Definition set_active_pointer_constraint (v : option PointerConstraint) (c : Core) : Core :=
  {| qtile := qtile c; _hovered_window := _hovered_window c;
     focused_internal := focused_internal c;
     mapped_windows := mapped_windows c;
     stacked_windows := stacked_windows c;
     _current_output := _current_output c;
     exclusive_client := exclusive_client c; outputs := outputs c;
     output_layout := output_layout c; wlr_outputs := wlr_outputs c;
     cursor := cursor c; seat := seat c; live_dnd := live_dnd c;
     pointer_constraints := pointer_constraints c;
     active_pointer_constraint := v; wlroots := wlroots c; trace := trace c |}.
Definition set_trace (v : list Event) (c : Core) : Core :=
  {| qtile := qtile c; _hovered_window := _hovered_window c;
     focused_internal := focused_internal c;
     mapped_windows := mapped_windows c;
     stacked_windows := stacked_windows c;
     _current_output := _current_output c;
     exclusive_client := exclusive_client c; outputs := outputs c;
     output_layout := output_layout c; wlr_outputs := wlr_outputs c;
     cursor := cursor c; seat := seat c; live_dnd := live_dnd c;
     pointer_constraints := pointer_constraints c;
     active_pointer_constraint := active_pointer_constraint c;
     wlroots := wlroots c; trace := v |}.
Definition set_keyboard_focused_surface (v : option Surface) (s : Seat) : Seat :=
  {| destroyed := destroyed s; keyboard_focused_surface := v;
     pointer_focused_surface := pointer_focused_surface s;
     keyboard_modifier := keyboard_modifier s;
     keyboard_ptr_null := keyboard_ptr_null s |}.
Definition set_pointer_focused_surface (v : option Surface) (s : Seat) : Seat :=
  {| destroyed := destroyed s;
     keyboard_focused_surface := keyboard_focused_surface s;
     pointer_focused_surface := v; keyboard_modifier := keyboard_modifier s;
     keyboard_ptr_null := keyboard_ptr_null s |}.


(** ** The handler monad *)

Inductive Exn := AssertionError | ValueError | AttributeError.

(** How a call ends: it returns [a], or an exception leaves it; either way
    [self] is in some state. *)
Inductive Result (A : Type) :=
| Ok (a : A) (c : Core)
| Raise (e : Exn) (c : Core).
Arguments Ok {A} a c.
Arguments Raise {A} e c.

Definition M (A : Type) : Type := Core -> Result A.

Definition ret {A} (a : A) : M A := fun c => Ok a c.

Definition bind {A B} (m : M A) (k : A -> M B) : M B :=
  fun c => match m c with
           | Ok a c' => k a c'
           | Raise e c' => Raise e c'
           end.

Definition raise {A} (e : Exn) : M A := fun c => Raise e c.
Definition get : M Core := fun c => Ok c c.
Definition modify (f : Core -> Core) : M unit := fun c => Ok tt (f c).

Declare Scope core_scope.
Delimit Scope core_scope with core.
Notation "x <- m ;; k" := (bind m (fun x => k))
  (at level 100, m at next level, right associativity) : core_scope.
Notation "m ;;; k" := (bind m (fun _ => k))
  (at level 100, right associativity) : core_scope.
Open Scope core_scope.

(** A call on an outside object. *)
Definition emit (e : Event) : M unit :=
  modify (fun c => set_trace (trace c ++ [e]) c).

(** The state a call leaves behind. *)
Definition state_of {A} (r : Result A) : Core :=
  match r with Ok _ c => c | Raise _ c => c end.

(** [assert self.qtile is not None] *)
Definition assert_qtile : M Qtile :=
  fun c => match qtile c with
           | Some q => Ok q c
           | None => Raise AssertionError c
           end.

(** [int(x)] of a float: truncation towards zero. *)
Definition int (q : Q) : Z := if Qle_bool 0 q then Qfloor q else Qceiling q.

(** ** Python floats *)

(** A Python float is a binary64 number, and the model has the rational
    that a finite one stands for.  The sum of two floats is the float
    nearest to the sum of the two rationals, the one with the even
    significand where two are equally near, and an infinity beyond the
    largest float. *)

(** [floor(log2(q))] of a positive rational. *)
Definition Qlog2 (q : Q) : Z :=
  let k := Z.log2 (Qnum q) - Z.log2 (Zpos (Qden q)) in
  if Qle_bool (2 ^ k) q then k else k - 1.

(** The integer nearest to [q], the even one of two. *)
Definition round_half_even (q : Q) : Z :=
  let f := Qfloor q in
  match (q - inject_Z f ?= 1 # 2)%Q with
  | Lt => f
  | Gt => f + 1
  | Eq => if Z.even f then f else f + 1
  end.

(** The binary64 number that [q] is rounded to: a significand of 53 bits,
    of fewer at the exponent -1074 of the subnormal numbers, times a power
    of two.  [None] stands for an infinity. *)
Definition float_round (q : Q) : option Q :=
  if Qeq_bool q 0 then Some 0%Q
  else
    let a := if Qle_bool 0 q then q else (- q)%Q in
    let e := Z.max (Qlog2 a - 52) (-1074) in
    let m := round_half_even (a / 2 ^ e) in
    let r := (inject_Z m * 2 ^ e)%Q in
    if Qle_bool (2 ^ 1024) r then None
    else Some (if Qle_bool 0 q then r else (- r)%Q).

(** [a + b] of two floats. *)
Definition float_add (a b : Q) : option Q := float_round (a + b).

(** [rect.contains_point(x, y)] of two results of float operations: no box
    contains a point at infinity. *)
Definition contains_float_point (b : Box) (px py : option Q) : bool :=
  match px, py with
  | Some x, Some y => contains_point b x y
  | _, _ => false
  end.

(** ** Window Stacking Engine *)

(** [win.x <= cx <= win.x + win.width and win.y <= cy <= win.y + win.height] *)
Definition in_bounding_box (win : Win) (cx cy : Q) : bool :=
  Qle_bool (inject_Z (win_x win)) cx
  && Qle_bool cx (inject_Z (win_x win + win_width win))
  && Qle_bool (inject_Z (win_y win)) cy
  && Qle_bool cy (inject_Z (win_y win + win_height win)).

Definition Found : Type := Win * option Surface * Q * Q.

(** The body of the loop of [_under_pointer] for one window: [Some] is a
    [return], [None] goes on to the next window. *)
Definition under_pointer_body (win : Win) (cx cy : Q) : option Found :=
  if isinstance_Internal (win_class win) then
    if in_bounding_box win cx cy then Some (win, None, 0%Q, 0%Q) else None
  else
    let bw := borderwidth win in
    let '(surface, sx, sy) :=
      surface_at win (cx - inject_Z (win_x win) - inject_Z bw)%Q
                     (cy - inject_Z (win_y win) - inject_Z bw)%Q in
    match surface with
    | Some s => Some (win, Some s, sx, sy)
    | None =>
        if negb (bw =? 0) then
          if Qle_bool (inject_Z (win_x win)) cx
             && Qle_bool (inject_Z (win_y win)) cy then
            let bw := bw * 2 in
            if Qle_bool cx (inject_Z (win_x win + win_width win + bw))
               && Qle_bool cy (inject_Z (win_y win + win_height win + bw))
            then Some (win, None, 0%Q, 0%Q)
            else None
          else None
        else None
    end.

Fixpoint under_pointer_loop (wins : list Win) (cx cy : Q) : option Found :=
  match wins with
  | [] => None
  | win :: rest =>
      match under_pointer_body win cx cy with
      | Some found => Some found
      | None => under_pointer_loop rest cx cy
      end
  end.

Definition _under_pointer : M (option Found) :=
  _ <- assert_qtile ;;
  c <- get ;;
  let '(cx, cy) := cursor c in
  ret (under_pointer_loop (rev (stacked_windows c)) cx cy).

(** [list.remove(w)]: drops the first element equal to [w]; [None] stands
    for the [ValueError] of a list that has none. *)
Fixpoint list_remove (w : Win) (l : list Win) : option (list Win) :=
  match l with
  | [] => None
  | v :: l' =>
      if win_is v w then Some l'
      else match list_remove w l' with
           | Some r => Some (v :: r)
           | None => None
           end
  end.

Definition stack_windows (restack : option Win) : M unit :=
  match restack with
  | Some w =>
      c <- get ;;
      match list_remove w (mapped_windows c) with
      | Some l => modify (set_mapped_windows (l ++ [w]))
      | None => raise ValueError
      end
  | None => ret tt
  end ;;;
  c <- get ;;
  match _current_output c with
  | Some o =>
      modify (set_stacked_windows
                (layer_BACKGROUND o ++ layer_BOTTOM o ++ mapped_windows c
                 ++ layer_TOP o ++ layer_OVERLAY o))
  | None => modify (set_stacked_windows (mapped_windows c))
  end.

(** [max(keys, default=d)] *)
Definition py_max (keys : list Z) (d : Z) : Z :=
  match keys with
  | [] => d
  | k :: ks => fold_left Z.max ks k
  end.

Definition new_wid : M Z :=
  q <- assert_qtile ;;
  ret (py_max (map_to_list (windows_map q)).*1 0 + 1).

(** ** Output Registry and Layout *)

(** [output_layout.remove(wlr_output)] *)
Definition layout_remove (o : nat) : M unit :=
  modify (fun c =>
    set_output_layout
      (List.filter (fun e => negb (Nat.eqb (fst e) o)) (output_layout c)) c) ;;;
  emit (LayoutRemove o).

(** [output_layout.add(wlr_output, x, y)]: an output that is in the layout
    is moved, another one is added. *)
Definition layout_add (o : nat) (x y : Z) : M unit :=
  modify (fun c =>
    set_output_layout
      (if existsb (fun e => Nat.eqb (fst e) o) (output_layout c)
       then map (fun e => if Nat.eqb (fst e) o then (o, (x, y)) else e)
                (output_layout c)
       else output_layout c ++ [(o, (x, y))]) c) ;;;
  emit (LayoutAdd o x y).

(** [self.outputs.remove(output)]; [None] stands for the [ValueError]. *)
Fixpoint outputs_remove (o : Output) (l : list Output) : option (list Output) :=
  match l with
  | [] => None
  | v :: l' =>
      if output_is v o then Some l'
      else match outputs_remove o l' with
           | Some r => Some (v :: r)
           | None => None
           end
  end.

Definition remove_output (output : Output) : M unit :=
  c <- get ;;
  match outputs_remove output (outputs c) with
  | None => raise ValueError
  | Some l =>
      modify (set_outputs l) ;;;
      layout_remove (out_id output) ;;;
      c <- get ;;
      if match _current_output c with
         | Some cur => output_is output cur
         | None => false
         end
      then
        modify (set_current_output
                  (match outputs c with o :: _ => Some o | [] => None end)) ;;;
        stack_windows None
      else ret tt
  end.

(** The methods of a [wlr_output]. *)
Definition upd_wlr_output (o : nat) (f : WlrOutput -> WlrOutput) : M unit :=
  modify (fun c =>
    set_wlr_outputs
      (fun i => if Nat.eqb i o then f (wlr_outputs c i) else wlr_outputs c i) c).

Definition upd_pending (f : OutputState -> OutputState) (w : WlrOutput) : WlrOutput :=
  {| current := current w; pending := f (pending w) |}.

Definition wlr_enable (o : nat) (enable : bool) : M unit :=
  upd_wlr_output o (upd_pending (fun p =>
    {| os_enabled := enable; os_mode := os_mode p;
       os_transform := os_transform p; os_scale := os_scale p |})) ;;;
  emit (OutputEnable o enable).

Definition wlr_set_pending_mode (o : nat) (m : ModeSel) : M unit :=
  upd_wlr_output o (upd_pending (fun p =>
    {| os_enabled := os_enabled p; os_mode := Some m;
       os_transform := os_transform p; os_scale := os_scale p |})).

Definition wlr_set_mode (o : nat) (m : Mode) : M unit :=
  wlr_set_pending_mode o (FixedMode m) ;;; emit (OutputSetMode o m).

Definition wlr_set_custom_mode (o : nat) (width height refresh : Z) : M unit :=
  wlr_set_pending_mode o (CustomMode width height refresh) ;;;
  emit (OutputSetCustomMode o width height refresh).

Definition wlr_set_transform (o : nat) (t : Z) : M unit :=
  upd_wlr_output o (upd_pending (fun p =>
    {| os_enabled := os_enabled p; os_mode := os_mode p;
       os_transform := t; os_scale := os_scale p |})) ;;;
  emit (OutputSetTransform o t).

Definition wlr_set_scale (o : nat) (s : Q) : M unit :=
  upd_wlr_output o (upd_pending (fun p =>
    {| os_enabled := os_enabled p; os_mode := os_mode p;
       os_transform := os_transform p; os_scale := s |})) ;;;
  emit (OutputSetScale o s).

Definition wlr_test (o : nat) : M bool :=
  emit (OutputTest o) ;;;
  c <- get ;;
  ret (output_test (wlroots c) o (pending (wlr_outputs c o))).

Definition wlr_commit (o : nat) : M unit :=
  upd_wlr_output o (fun w => {| current := pending w; pending := pending w |}) ;;;
  emit (OutputCommit o).

Definition wlr_rollback (o : nat) : M unit :=
  upd_wlr_output o (fun w => {| current := current w; pending := current w |}) ;;;
  emit (OutputRollback o).

(** [wlr_output.enabled] *)
Definition wlr_enabled (o : nat) : M bool :=
  c <- get ;; ret (os_enabled (current (wlr_outputs c o))).

(** The first loop of [_output_manager_reconfigure]; its value is [ok]
    when the loop is left, by exhaustion or by [break]. *)
Fixpoint reconfigure_heads (heads : list HeadState) : M bool :=
  match heads with
  | [] => ret true
  | state :: rest =>
      let wlr_output := hs_output state in
      enabled <- wlr_enabled wlr_output ;;
      (if hs_enabled state then
         (if negb enabled then wlr_enable wlr_output true else ret tt) ;;;
         match hs_mode state with
         | Some m => wlr_set_mode wlr_output m
         | None =>
             wlr_set_custom_mode wlr_output
               (mode_width (hs_custom_mode state))
               (mode_height (hs_custom_mode state))
               (mode_refresh (hs_custom_mode state))
         end ;;;
         layout_add wlr_output (hs_x state) (hs_y state) ;;;
         wlr_set_transform wlr_output (hs_transform state) ;;;
         wlr_set_scale wlr_output (hs_scale state)
       else
         (if enabled then wlr_enable wlr_output false else ret tt) ;;;
         layout_remove wlr_output) ;;;
      ok <- wlr_test wlr_output ;;
      if negb ok then ret false else reconfigure_heads rest
  end.

(** The second loop. *)
Fixpoint commit_or_rollback (ok apply : bool) (heads : list HeadState) : M unit :=
  match heads with
  | [] => ret tt
  | head :: rest =>
      (if ok && apply then wlr_commit (hs_output head)
       else wlr_rollback (hs_output head)) ;;;
      commit_or_rollback ok apply rest
  end.

Definition _output_manager_reconfigure (config : list HeadState) (apply : bool)
  : M unit :=
  ok <- reconfigure_heads config ;;
  commit_or_rollback ok apply config ;;;
  (if ok then emit ConfigSendSucceeded else emit ConfigSendFailed) ;;;
  emit ConfigDestroy ;;;
  emit (HookFire "screen_change" None).

(** ** Focus and Pointer Router *)

(** The methods of the seat and of the cursor manager. *)
Definition keyboard_clear_focus : M unit :=
  modify (fun c => set_seat (set_keyboard_focused_surface None (seat c)) c) ;;;
  emit KeyboardClearFocus.

Definition keyboard_notify_enter (s : Surface) : M unit :=
  modify (fun c => set_seat (set_keyboard_focused_surface (Some s) (seat c)) c) ;;;
  emit (KeyboardNotifyEnter s).

Definition pointer_notify_clear_focus : M unit :=
  modify (fun c => set_seat (set_pointer_focused_surface None (seat c)) c) ;;;
  emit PointerNotifyClearFocus.

Definition pointer_notify_enter (s : Surface) (sx sy : Q) : M unit :=
  modify (fun c => set_seat (set_pointer_focused_surface (Some s) (seat c)) c) ;;;
  emit (PointerNotifyEnter s sx sy).

Definition pointer_notify_motion (time_msec : Z) (sx sy : Q) : M unit :=
  emit (PointerNotifyMotion time_msec sx sy).

(** [self.cursor_manager.set_cursor_image("left_ptr", self.cursor)] *)
Definition set_cursor_image_left_ptr : M unit := emit (SetCursorImage "left_ptr").

(** [a == b] on surfaces, either of which may be [None]. *)
Definition surface_eq (a b : option Surface) : bool :=
  match a, b with
  | Some s, Some t => Nat.eqb (surf_id s) (surf_id t)
  | None, None => true
  | _, _ => false
  end.

(** [win.surface]; an [Internal] has no such attribute. *)
Definition get_surface (win : Win) : M ShellSurface :=
  match win_surface win with
  | Some s => ret s
  | None => raise AttributeError
  end.

(** [isinstance(win, base.Internal) or not win.belongs_to_client(client)] *)
Definition withheld (win : Win) (client : Client) : bool :=
  isinstance_Internal (win_class win) || negb (belongs_to_client win client).

(** Deactivation of the surface that had the keyboard, in [focus_window]. *)
Definition deactivate_previous (win : option Win) (previous_surface : Surface)
  : M unit :=
  if is_xdg_surface previous_surface then
    differs <-
      match win with
      | None => ret true
      | Some w =>
          s <- get_surface w ;;
          ret (negb match s with
                    | XdgSurface t =>
                        Nat.eqb (surf_id t) (surf_id previous_surface)
                    | _ => false
                    end)
      end ;;
    if differs then
      emit (XdgSetActivated (surf_id previous_surface) false) ;;;
      match surf_data previous_surface with
      | Some d => emit (WindowSetActivated d false)
      | None => ret tt
      end
    else ret tt
  else if is_xwayland_surface previous_surface then
    differs <-
      match win with
      | None => ret true
      | Some w =>
          s <- get_surface w ;;
          ret (negb match s with
                    | XwaylandSurface t _ _ _ =>
                        Nat.eqb (surf_id t) (surf_id previous_surface)
                    | _ => false
                    end)
      end ;;
    if differs then
      emit (XwaylandActivate (surf_id previous_surface) false) ;;;
      match surf_data previous_surface with
      | Some d => emit (WindowSetActivated d false)
      | None => ret tt
      end
    else ret tt
  else ret tt.

Definition isinstance_XdgSurface (s : ShellSurface) : bool :=
  match s with XdgSurface _ => true | _ => false end.
Definition isinstance_XwaylandSurface (s : ShellSurface) : bool :=
  match s with XwaylandSurface _ _ _ _ => true | _ => false end.

(** [flag and isinstance(win.surface, cls)], [win.surface] being read only
    when [flag] holds. *)
Definition flag_and_surface_is (flag : bool) (win : Win)
  (cls : ShellSurface -> bool) : M bool :=
  if flag then ws <- get_surface win ;; ret (cls ws) else ret false.

(** [if win.ftm_handle: win.ftm_handle.set_activated(True)] *)
Definition ftm_set_activated (win : Win) : M unit :=
  if ftm_handle win then emit (FtmSetActivated (wid win) true) else ret tt.

(** Activation of the new surface, from [if not win or not surface] on. *)
Definition activate_new (win : option Win) (surface : option Surface)
  (enter : bool) : M unit :=
  match win, surface with
  | Some w, Some s =>
      xdg <- flag_and_surface_is (is_xdg_surface s) w isinstance_XdgSurface ;;
      (if (xdg : bool) then
         ws <- get_surface w ;;
         emit (XdgSetActivated (surf_id (shell_wlr_surface ws)) true) ;;;
         ftm_set_activated w
       else
         xw <- flag_and_surface_is (is_xwayland_surface s) w
                 isinstance_XwaylandSurface ;;
         if (xw : bool) then
           ws <- get_surface w ;;
           emit (XwaylandActivate (surf_id (shell_wlr_surface ws)) true) ;;;
           ftm_set_activated w
         else ret tt) ;;;
      c <- get ;;
      if enter && negb (keyboard_ptr_null (seat c)) then keyboard_notify_enter s
      else ret tt
  | _, _ => keyboard_clear_focus
  end.

(** [focus_window] from [if isinstance(win, base.Internal)] on, past the
    exclusive-client block. *)
Definition focus_window_allowed (win : option Win) (surface : option Surface)
  (enter : bool) : M unit :=
  if match win with
     | Some w => isinstance_Internal (win_class w)
     | None => false
     end
  then
    modify (set_focused_internal win) ;;;
    keyboard_clear_focus
  else
    surface <-
      match surface, win with
      | None, Some w => s <- get_surface w ;; ret (Some (shell_wlr_surface s))
      | _, _ => ret surface
      end ;;
    c <- get ;;
    match focused_internal c with
    | Some _ => modify (set_focused_internal None)
    | None => ret tt
    end ;;;
    ignored <-
      match win with
      | Some w =>
          if isinstance_LayerStatic (win_class w) then
            s <- get_surface w ;;
            match s with
            | LayerSurfaceV1 _ keyboard_interactive =>
                ret (negb keyboard_interactive)
            | _ => raise AttributeError
            end
          else if isinstance_XStatic (win_class w) then
            s <- get_surface w ;;
            match s with
            | XwaylandSurface _ override_redirect wants_focus model =>
                if override_redirect && negb wants_focus then ret true
                else ret match model with ICCCM_NONE => true | _ => false end
            | _ => raise AttributeError
            end
          else ret false
      | None => ret false
      end ;;
    if (ignored : bool) then ret tt
    else
      c <- get ;;
      let previous_surface := keyboard_focused_surface (seat c) in
      if surface_eq previous_surface surface then ret tt
      else
        match previous_surface with
        | Some p => deactivate_previous win p
        | None => ret tt
        end ;;;
        activate_new win surface enter.

Definition focus_window (win : option Win) (surface : option Surface)
  (enter : bool) : M unit :=
  c <- get ;;
  if destroyed (seat c) then ret tt
  else
    match exclusive_client c with
    | Some client =>
        match win with
        | None => keyboard_clear_focus
        | Some w =>
            if withheld w client then ret tt
            else focus_window_allowed win surface enter
        end
    | None => focus_window_allowed win surface enter
    end.

(** [if self.seat.pointer_state.focused_surface:] restore the cursor image
    and clear the pointer focus. *)
Definition leave_client_surface : M unit :=
  c <- get ;;
  match pointer_focused_surface (seat c) with
  | Some _ => set_cursor_image_left_ptr ;;; pointer_notify_clear_focus
  | None => ret tt
  end.

(** The branch of [_focus_pointer] for a hit [Internal] window. *)
Definition focus_pointer_internal (win : Win) (cx cy : Z) (motion : option Z)
  : M unit :=
  c <- get ;;
  if opt_win_is (_hovered_window c) win then
    match motion, _hovered_window c with
    | Some _, Some h =>
        emit (InternalPointerMotion (wid win) (cx - win_x h) (cy - win_y h))
    | _, _ => ret tt
    end
  else
    match _hovered_window c with
    | Some h =>
        if isinstance_Internal (win_class h) then
          match motion with
          | Some _ =>
              emit (InternalPointerLeave (wid h) (cx - win_x h) (cy - win_y h))
          | None => ret tt
          end
        else leave_client_surface
    | None => ret tt
    end ;;;
    emit (InternalPointerEnter (wid win) cx cy) ;;;
    modify (set_hovered_window (Some win)).

(** The part [if win is not self.qtile.current_window:] of [_focus_pointer].
    [win.group.focus] and [self.qtile.focus_screen] are requests to the
    window manager, whose code is not the core's: the model records the
    request and does not follow the window manager.  What the window
    manager does to answer it, which ends in a call of [focus_window] and
    with it in a write of the seat's keyboard focus and of
    [focused_internal], is no statement of [_focus_pointer], and nothing
    below is said of these two after a request. *)
Definition hover_enter (q : Qtile) (win : Win) (motion : option Z) : M unit :=
  if opt_win_is (current_window q) win then ret tt
  else if isinstance_Static (win_class win) then
    c <- get ;;
    (if negb (opt_win_is (_hovered_window c) win)
     then emit (HookFire "client_mouse_enter" (Some (wid win)))
     else ret tt) ;;;
    (if bool_decide (motion <> None) && follow_mouse_focus q
     then emit (QtileFocusScreen (win_screen win) false)
     else ret tt)
  else
    emit (HookFire "client_mouse_enter" (Some (wid win))) ;;;
    if bool_decide (motion <> None) && follow_mouse_focus q then
      match win_group win with
      | Some g =>
          (if negb (bool_decide (group_current_window g = Some (wid win)))
           then emit (GroupFocus (group_id g) (wid win) false)
           else ret tt) ;;;
          match group_screen g with
          | Some s =>
              if negb (Nat.eqb (current_screen q) s)
              then emit (QtileFocusScreen s false)
              else ret tt
          | None => ret tt
          end
      | None => ret tt
      end
    else ret tt.

Definition _focus_pointer (cx cy : Z) (motion : option Z) : M unit :=
  q <- assert_qtile ;;
  found <- _under_pointer ;;
  c <- get ;;
  match found with
  | Some (win, surface, sx, sy) =>
      if match exclusive_client c with
         | Some client => withheld win client
         | None => false
         end
      then
        if negb (opt_win_is (_hovered_window c) win) then
          set_cursor_image_left_ptr ;;;
          pointer_notify_clear_focus ;;;
          modify (set_hovered_window (Some win))
        else ret tt
      else if isinstance_Internal (win_class win) then
        focus_pointer_internal win cx cy motion
      else
        match surface with
        | Some s =>
            pointer_notify_enter s sx sy ;;;
            match motion with
            | Some t => pointer_notify_motion t sx sy
            | None => ret tt
            end
        | None => leave_client_surface
        end ;;;
        hover_enter q win motion ;;;
        modify (set_hovered_window (Some win))
  | None =>
      match _hovered_window c with
      | Some h =>
          (if isinstance_Internal (win_class h) then
             emit (InternalPointerLeave (wid h) (cx - win_x h) (cy - win_y h))
           else
             set_cursor_image_left_ptr ;;;
             pointer_notify_clear_focus) ;;;
          modify (set_hovered_window None)
      | None => ret tt
      end
  end.





Definition _process_cursor_motion (time_msec : Z) (cx cy : Q) : M unit :=
  q <- assert_qtile ;;
  let cx_int := int cx in
  let cy_int := int cy in
  c <- get ;;
  match exclusive_client c with
  | None => emit (QtileProcessButtonMotion cx_int cy_int)
  | Some _ => ret tt
  end ;;;
  (if (1 <? length (outputs c))%nat then
     match output_at (wlroots c) (output_layout c) cx cy with
     | Some current_output =>
         if negb match _current_output c with
                 | Some o => output_is o current_output
                 | None => false
                 end
         then
           modify (set_current_output (Some current_output)) ;;;
           stack_windows None
         else ret tt
     | None => ret tt
     end
   else ret tt) ;;;
  (if live_dnd c then emit (DndPosition cx cy) else ret tt) ;;;
  _focus_pointer cx_int cy_int (Some time_msec).

(** [self.cursor.move(dx, dy, input_device=device)] *)
Definition cursor_move (dx dy : Q) (device : nat) : M unit :=
  modify (fun c =>
    set_cursor (cursor_moved (wlroots c) (output_layout c) (cursor c) (dx, dy)) c) ;;;
  emit (CursorMove dx dy device).

(** [_on_cursor_motion]; the point that it tests against the rectangle of
    the active constraint has the float sums [self.cursor.x + dx] and
    [self.cursor.y + dy]. *)
Definition _on_cursor_motion (event : PointerEventMotion) : M unit :=
  _ <- assert_qtile ;;
  emit IdleNotifyActivity ;;;
  let dx := delta_x event in
  let dy := delta_y event in
  emit (SendRelativeMotion (motion_time_msec event * 1000) dx dy
          (unaccel_delta_x event) (unaccel_delta_y event)) ;;;
  c <- get ;;
  if match active_pointer_constraint c with
     | Some pc =>
         negb (contains_float_point (rect pc)
                 (float_add (fst (cursor c)) dx)
                 (float_add (snd (cursor c)) dy))
     | None => false
     end
  then ret tt
  else
    cursor_move dx dy (motion_device event) ;;;
    c <- get ;;
    _process_cursor_motion (motion_time_msec event) (fst (cursor c)) (snd (cursor c)).

(** ** Pointer constraints *)

(** [wlroots.wlr_types.pointer_constraints_v1.PointerConstraintV1] *)
Record PointerConstraintV1 := {
  wc_id : nat;
  wc_surface : Surface;
  wc_region : Box
}.

(** Modelled from the spec: the class [window.PointerConstraint] is not
    among the sources.  Building one wraps the [wlr_constraint]. *)
Definition PointerConstraint_new (wlr_constraint : PointerConstraintV1)
  : PointerConstraint :=
  {| pc_id := wc_id wlr_constraint;
     pc_surface := wc_surface wlr_constraint;
     rect := wc_region wlr_constraint |}.

(** Modelled from the spec: [PointerConstraint.enable] is not among the
    sources.  The constraint becomes the active one and its client is told. *)
Definition PointerConstraint_enable (pc : PointerConstraint) : M unit :=
  modify (set_active_pointer_constraint (Some pc)) ;;;
  emit (ConstraintSendActivated (pc_id pc)).

(** Modelled from the spec: [PointerConstraint.disable] is not among the
    sources.  No constraint is active afterwards and its client is told. *)
Definition PointerConstraint_disable (pc : PointerConstraint) : M unit :=
  modify (set_active_pointer_constraint None) ;;;
  emit (ConstraintSendDeactivated (pc_id pc)).

(** [self.pointer_constraints.add(constraint)] on a set *)
Definition constraints_add (pc : PointerConstraint) (s : list PointerConstraint)
  : list PointerConstraint :=
  if existsb (fun p => Nat.eqb (pc_id p) (pc_id pc)) s then s else s ++ [pc].

Definition _on_new_pointer_constraint (wlr_constraint : PointerConstraintV1)
  : M unit :=
  let constraint := PointerConstraint_new wlr_constraint in
  modify (fun c =>
    set_pointer_constraints (constraints_add constraint (pointer_constraints c)) c) ;;;
  c <- get ;;
  if surface_eq (pointer_focused_surface (seat c))
       (Some (wc_surface wlr_constraint))
  then
    match active_pointer_constraint c with
    | Some active => PointerConstraint_disable active
    | None => ret tt
    end ;;;
    PointerConstraint_enable constraint
  else ret tt.

(** * The vocabulary of the specification *)

(** A window contains a point: an internal window by its bounding box;
    another window when its surface is hit there or, if it has a border,
    when the point lies in the box grown by twice the border width. *)
Definition window_contains (win : Win) (cx cy : Q) : Prop :=
  if isinstance_Internal (win_class win) then
    (inject_Z (win_x win) <= cx)%Q
    /\ (cx <= inject_Z (win_x win + win_width win))%Q
    /\ (inject_Z (win_y win) <= cy)%Q
    /\ (cy <= inject_Z (win_y win + win_height win))%Q
  else
    (surface_at win (cx - inject_Z (win_x win) - inject_Z (borderwidth win))%Q
       (cy - inject_Z (win_y win) - inject_Z (borderwidth win))%Q).1.1 <> None
    \/ (borderwidth win <> 0
        /\ (inject_Z (win_x win) <= cx)%Q
        /\ (inject_Z (win_y win) <= cy)%Q
        /\ (cx <= inject_Z (win_x win + win_width win + 2 * borderwidth win))%Q
        /\ (cy <= inject_Z (win_y win + win_height win + 2 * borderwidth win))%Q).

(** The composited order: background, bottom, the regular windows, top,
    overlay, on the current output; the regular windows alone without one. *)
Definition composited (c : Core) : list Win :=
  match _current_output c with
  | Some o =>
      layer_BACKGROUND o ++ layer_BOTTOM o ++ mapped_windows c
      ++ layer_TOP o ++ layer_OVERLAY o
  | None => mapped_windows c
  end.

(** [w] is in the list, as [list.remove] looks for it. *)
Definition present (w : Win) (l : list Win) : bool :=
  existsb (fun v => win_is v w) l.

(** The windows of a list other than [w]. *)
Definition others (w : Win) (l : list Win) : list Win :=
  List.filter (fun v => negb (win_is v w)) l.

(** [o] is in the list, as [list.remove] looks for it. *)
Definition out_present (o : Output) (l : list Output) : bool :=
  existsb (fun v => output_is v o) l.

(** The outputs of a list other than [o]. *)
Definition other_outputs (o : Output) (l : list Output) : list Output :=
  List.filter (fun v => negb (output_is v o)) l.

(** The entries of a layout for the outputs other than [o], in their
    order. *)
Definition other_entries (o : Output) (l : list (nat * (Z * Z)))
  : list (nat * (Z * Z)) :=
  List.filter (fun e => negb (Nat.eqb (fst e) (out_id o))) l.

(** [self._current_output is output] *)
Definition is_current (c : Core) (output : Output) : bool :=
  match _current_output c with
  | Some cur => output_is output cur
  | None => false
  end.

(** What [_on_cursor_motion] tells the idle and relative-pointer managers
    before it looks at the constraint. *)
Definition motion_preamble (event : PointerEventMotion) : list Event :=
  [IdleNotifyActivity;
   SendRelativeMotion (motion_time_msec event * 1000)
     (delta_x event) (delta_y event)
     (unaccel_delta_x event) (unaccel_delta_y event)].

Definition is_preamble (e : Event) : Prop :=
  match e with
  | IdleNotifyActivity | SendRelativeMotion _ _ _ _ _ => True
  | _ => False
  end.



(** The sentence of the spec, read on one state: under an exclusive client,
    a withheld target changes nothing, and no target makes the handler
    clear the seat's keyboard focus. *)
Definition focus_window_exclusive_claim (c : Core) : Prop :=
  forall client,
    exclusive_client c = Some client ->
    (forall w surface enter,
       withheld w client = true ->
       focus_window (Some w) surface enter c = Ok tt c)
    /\ (forall surface enter,
          exists c' evs,
            focus_window None surface enter c = Ok tt c'
            /\ trace c' = trace c ++ evs
            /\ In KeyboardClearFocus evs).

Definition is_pointer_enter_or_motion (e : Event) : Prop :=
  match e with
  | PointerNotifyEnter _ _ _ | PointerNotifyMotion _ _ _ => True
  | _ => False
  end.

(** The sentence of the spec, read on one call: under an exclusive client,
    with a withheld window under the pointer, [_focus_pointer] sends no
    pointer enter or motion, and it clears the pointer focus and restores
    the default cursor image. *)
Definition focus_pointer_exclusive_claim
  (c : Core) (cx cy : Z) (motion : option Z) : Prop :=
  forall client win surface sx sy,
    exclusive_client c = Some client ->
    _under_pointer c = Ok (Some (win, surface, sx, sy)) c ->
    withheld win client = true ->
    exists c' evs,
      _focus_pointer cx cy motion c = Ok tt c'
      /\ trace c' = trace c ++ evs
      /\ Forall (fun e => ~ is_pointer_enter_or_motion e) evs
      /\ In PointerNotifyClearFocus evs
      /\ In (SetCursorImage "left_ptr") evs
      /\ pointer_focused_surface (seat c') = None.

(** The constraints whose clients have been told they are active, after
    the calls [evs], [acc] being those that were so before. *)
Fixpoint activated (evs : list Event) (acc : list nat) : list nat :=
  match evs with
  | [] => acc
  | ConstraintSendActivated p :: evs' =>
      activated evs' (if existsb (Nat.eqb p) acc then acc else p :: acc)
  | ConstraintSendDeactivated p :: evs' =>
      activated evs' (List.filter (fun i => negb (Nat.eqb i p)) acc)
  | _ :: evs' => activated evs' acc
  end.

(** The constraint that the core holds as the active one. *)
Definition active_ids (c : Core) : list nat :=
  match active_pointer_constraint c with
  | Some pc => [pc_id pc]
  | None => []
  end.

(** [seat.pointer_state.focused_surface == wlr_constraint.surface] *)
Definition constraint_has_focus (c : Core) (wlr_constraint : PointerConstraintV1)
  : bool :=
  surface_eq (pointer_focused_surface (seat c)) (Some (wc_surface wlr_constraint)).

(** The committed state of every [wlr_output] is the same in [c'] as in
    [c]. *)
Definition same_current (c c' : Core) : Prop :=
  forall i, current (wlr_outputs c' i) = current (wlr_outputs c i).

(** A computation that returns and commits nothing. *)
Definition keeps_current {A} (m : M A) : Prop :=
  forall c, exists a c', m c = Ok a c' /\ same_current c c'.

(** The rational that a finite binary64 number of the machine stands for;
    none for an infinity and for a NaN. *)
Definition Q_of_float (f : float) : option Q :=
  match Prim2SF f with
  | S754_zero _ => Some 0%Q
  | S754_finite s m e =>
      Some ((if s then -1 else 1) * inject_Z (Zpos m) * 2 ^ e)%Q
  | _ => None
  end.

(** [float_add] gives, for the rationals of two binary64 numbers, the
    rational of the sum that the machine computes, and no rational where
    the machine's sum is an infinity. *)
Definition float_add_agrees (f1 f2 : float) : bool :=
  match Q_of_float f1, Q_of_float f2 with
  | Some a, Some b =>
      match Q_of_float (f1 + f2)%float, float_add a b with
      | Some x, Some y => Qeq_bool x y
      | None, None => true
      | _, _ => false
      end
  | _, _ => false
  end.

(** Sums that are exact, that round down, up and to the even neighbour,
    that cancel, that fall among the subnormal numbers and that overflow. *)
Definition float_samples : list (float * float) :=
  [(10, 200); (0x1.5p3, -0x1.0000000000001p-1);
   (0x1.8ffffffffffffp6, 0x1.4p-47);
   (0x1.999999999999ap-4, 0x1.999999999999ap-3);
   (0x1.921fb54442d18p1, 0x1.5bf0a8b145769p1);
   (0x1.d6f34547df3b6p26, -0x1.d6f345399999ap26);
   (-0x1.dp2, 0x1.0c6f7a0b5ed8dp-20);
   (0x1p53, 1); (0x1p53, 3); (-0x1p53, -1); (0x1.8p0, -0x1.8p0);
   (0x1.7e43c8800759cp996, -0x1.56e1fc2f8f359p-997);
   (0x1p-1074, 0x1p-1074); (0x1p-1074, 0x1p-1022);
   (0x1.8p-1073, -0x1p-1074); (0x1.0000000000001p-1022, -0x1p-1022);
   (0x1p1023, 0x1p1023); (0x1.fffffffffffffp1023, 0x1p970);
   (0x1.fffffffffffffp1023, 0x1p969);
   (-0x1.fffffffffffffp1023, -0x1p970)]%float.

(** * A small session *)

(** [self.exclusive_client = client], as [_on_input_inhibitor_activate] and
    [_on_input_inhibitor_deactivate] assign it. *)
Definition set_exclusive_client (v : option Client) (c : Core) : Core :=
  {| qtile := qtile c; _hovered_window := _hovered_window c;
     focused_internal := focused_internal c;
     mapped_windows := mapped_windows c;
     stacked_windows := stacked_windows c;
     _current_output := _current_output c;
     exclusive_client := v; outputs := outputs c;
     output_layout := output_layout c; wlr_outputs := wlr_outputs c;
     cursor := cursor c; seat := seat c; live_dnd := live_dnd c;
     pointer_constraints := pointer_constraints c;
     active_pointer_constraint := active_pointer_constraint c;
     wlroots := wlroots c; trace := trace c |}.

(** A surface that is hit on the square of side [side] at its origin. *)
Definition square_surface_at (s : Surface) (side : Z) (sx sy : Q)
  : option Surface * Q * Q :=
  if Qle_bool 0 sx && negb (Qle_bool (inject_Z side) sx)
     && Qle_bool 0 sy && negb (Qle_bool (inject_Z side) sy)
  then (Some s, sx, sy)
  else (None, 0%Q, 0%Q).

Definition term_client : Client := {| client_id := 1 |}.
Definition lock_client : Client := {| client_id := 2 |}.

Definition term_surface : Surface :=
  {| surf_id := 10; is_xdg_surface := true; is_xwayland_surface := false;
     surf_data := Some 1%nat |}.

Definition panel_surface : Surface :=
  {| surf_id := 30; is_xdg_surface := false; is_xwayland_surface := false;
     surf_data := Some 3%nat |}.

Definition group_a : Group :=
  {| group_id := 0; group_current_window := Some 1%nat; group_screen := Some 0%nat |}.

(** A terminal: a toplevel of [term_client] at the origin, 100 by 100
    inside a border of 2. *)
Definition term : Win :=
  {| wid := 1; win_class := CXdgWindow;
     win_x := 0; win_y := 0; win_width := 100; win_height := 100;
     borderwidth := 2;
     win_surface := Some (XdgSurface term_surface);
     belongs_to_client := fun cl => Nat.eqb (client_id cl) 1;
     surface_at := square_surface_at term_surface 100;
     ftm_handle := true; win_group := Some group_a; win_screen := 0 |}.

(** The bar: an internal window below the terminal. *)
Definition bar : Win :=
  {| wid := 2; win_class := CInternal;
     win_x := 0; win_y := 200; win_width := 300; win_height := 20;
     borderwidth := 0;
     win_surface := None;
     belongs_to_client := fun _ => false;
     surface_at := fun _ _ => (None, 0%Q, 0%Q);
     ftm_handle := false; win_group := None; win_screen := 0 |}.

(** A layer-shell panel of the overlay layer that covers the top left
    corner of the terminal. *)
Definition panel : Win :=
  {| wid := 3; win_class := CLayerStatic;
     win_x := 0; win_y := 0; win_width := 50; win_height := 50;
     borderwidth := 0;
     win_surface := Some (LayerSurfaceV1 panel_surface false);
     belongs_to_client := fun cl => Nat.eqb (client_id cl) 3;
     surface_at := square_surface_at panel_surface 50;
     ftm_handle := false; win_group := None; win_screen := 0 |}.

Definition left_output : Output :=
  {| out_id := 0; layer_BACKGROUND := []; layer_BOTTOM := [];
     layer_TOP := []; layer_OVERLAY := [panel] |}.

Definition right_output : Output :=
  {| out_id := 1; layer_BACKGROUND := []; layer_BOTTOM := [];
     layer_TOP := []; layer_OVERLAY := [] |}.

Definition manager : Qtile :=
  {| windows_map := <[1 := term]> (<[2 := bar]> (<[3 := panel]> ∅));
     current_window := Some term; current_screen := 0;
     follow_mouse_focus := true;
     binding_click := fun button _ _ _ => Z.eqb button 4;
     binding_release := fun _ _ => false |}.

Definition live_seat : Seat :=
  {| destroyed := false; keyboard_focused_surface := None;
     pointer_focused_surface := None; keyboard_modifier := 0;
     keyboard_ptr_null := false |}.

Definition enabled_output : WlrOutput :=
  let s := {| os_enabled := true;
              os_mode := Some (FixedMode {| mode_width := 1920;
                                            mode_height := 1080;
                                            mode_refresh := 60000 |});
              os_transform := 0; os_scale := 1%Q |} in
  {| current := s; pending := s |}.

(** A backend that accepts every output state but a custom mode. *)
Definition backend : Wlroots :=
  {| output_test := fun _ s =>
       match os_mode s with Some (CustomMode _ _ _) => false | _ => true end;
     cursor_moved := fun _ p d => ((p.1 + d.1)%Q, (p.2 + d.2)%Q);
     output_at := fun _ _ _ => None |}.

(** Two outputs side by side, the terminal and the bar mapped, the panel
    on the overlay layer of the left output, the cursor at (10, 10). *)
Definition session : Core :=
  {| qtile := Some manager;
     _hovered_window := None;
     focused_internal := None;
     mapped_windows := [term; bar];
     stacked_windows := [term; bar; panel];
     _current_output := Some left_output;
     exclusive_client := None;
     outputs := [left_output; right_output];
     output_layout := [(0%nat, (0, 0)); (1%nat, (1920, 0))];
     wlr_outputs := fun _ => enabled_output;
     cursor := (10%Q, 10%Q);
     seat := live_seat;
     live_dnd := false;
     pointer_constraints := [];
     active_pointer_constraint := None;
     wlroots := backend;
     trace := [] |}.

(** The session at shutdown: a screen locker holds the input, the seat has
    been destroyed. *)
Definition shutdown_session : Core :=
  set_seat {| destroyed := true; keyboard_focused_surface := None;
              pointer_focused_surface := None; keyboard_modifier := 0;
              keyboard_ptr_null := false |}
    (set_exclusive_client (Some lock_client) session).

(** The locker takes the input while the pointer rests on the terminal,
    which is hovered and whose surface has the pointer focus; the panel is
    gone. *)
Definition locked_session : Core :=
  set_seat (set_pointer_focused_surface (Some term_surface) live_seat)
    (set_hovered_window (Some term)
       (set_stacked_windows [term; bar]
          (set_exclusive_client (Some lock_client) session))).

(** A head for the left output that moves it to x = 100 and asks for a
    custom mode, which the backend refuses. *)
Definition rejected_head : HeadState :=
  {| hs_output := 0; hs_enabled := true; hs_mode := None;
     hs_custom_mode :=
       {| mode_width := 1280; mode_height := 720; mode_refresh := 60000 |};
     hs_x := 100; hs_y := 0; hs_transform := 0; hs_scale := 1%Q |}.

(** A game has confined the pointer to the terminal. *)
Definition game_constraint : PointerConstraint :=
  {| pc_id := 7; pc_surface := term_surface;
     rect := {| box_x := 0; box_y := 0; box_width := 100; box_height := 100 |} |}.

Definition confined_session : Core :=
  set_active_pointer_constraint (Some game_constraint)
    (set_pointer_constraints [game_constraint]
       (set_seat (set_pointer_focused_surface (Some term_surface) live_seat)
          session)).

(** A motion of 200 to the right. *)
Definition far_right : PointerEventMotion :=
  {| motion_time_msec := 5; motion_device := 0;
     delta_x := 200%Q; delta_y := 0%Q;
     unaccel_delta_x := 200%Q; unaccel_delta_y := 0%Q |}.


(** The locker holds the input; the seat is alive and nothing is hovered. *)
Definition locker_session : Core :=
  set_stacked_windows [term; bar]
    (set_exclusive_client (Some lock_client) session).

(** A second constraint on the terminal's surface. *)
Definition second_constraint : PointerConstraintV1 :=
  {| wc_id := 8; wc_surface := term_surface;
     wc_region := {| box_x := 10; box_y := 10; box_width := 50; box_height := 50 |} |}.

(** * More of the core *)

(** ** Recomputing the pointer focus after a change *)

(** The context manager [masked]: the body of the [with] block runs, then
    the pointer focus is recomputed at the cursor position, without a
    motion time.  An exception of the body leaves the block at once. *)
Definition masked (body : M unit) : M unit :=
  body ;;;
  c <- get ;;
  _focus_pointer (int (fst (cursor c))) (int (snd (cursor c))) None.

(** [get_mouse_position] *)
Definition get_mouse_position : M (Z * Z) :=
  c <- get ;; ret (int (fst (cursor c)), int (snd (cursor c))).

(** ** Input inhibitor *)

(** [_on_input_inhibitor_activate]; [active_client] is
    [self._input_inhibit_manager.active_client], the client that has just
    become the exclusive one. *)
Definition _on_input_inhibitor_activate (active_client : Client) : M unit :=
  q <- assert_qtile ;;
  modify (set_exclusive_client (Some active_client)) ;;;
  match current_window q with
  | Some w =>
      if negb (belongs_to_client w active_client)
      then focus_window None None true
      else ret tt
  | None => ret tt
  end ;;;
  found <- _under_pointer ;;
  match found with
  | Some (win, _, _, _) =>
      if withheld win active_client then
        set_cursor_image_left_ptr ;;;
        pointer_notify_clear_focus
      else ret tt
  | None => ret tt
  end.

Definition _on_input_inhibitor_deactivate : M unit :=
  modify (set_exclusive_client None).

(** ** Output power management *)

Inductive OutputPowerManagementV1Mode := POWER_OFF | POWER_ON.

(** [OutputPowerV1SetModeEvent]: the [wlr_output], its [data] attribute
    (the [Output] made for it, if any) and the mode asked for. *)
Record OutputPowerV1SetModeEvent := {
  pm_output : nat;
  pm_data : option Output;
  pm_mode : OutputPowerManagementV1Mode
}.

(** [_on_output_power_manager_set_mode].  The set [self._blanked_outputs]
    is passed in and handed back; its members are [Output] objects, told
    apart by their identity. *)
Definition _on_output_power_manager_set_mode
  (_blanked_outputs : gset nat) (mode : OutputPowerV1SetModeEvent)
  : M (gset nat) :=
  let wlr_output := pm_output mode in
  match pm_data mode with
  | None => raise AssertionError
  | Some data =>
      match pm_mode mode with
      | POWER_ON =>
          if bool_decide (out_id data ∈ _blanked_outputs) then
            wlr_enable wlr_output true ;;;
            wlr_commit wlr_output ;;;
            ret (_blanked_outputs ∖ {[out_id data]})
          else ret _blanked_outputs
      | POWER_OFF =>
          enabled <- wlr_enabled wlr_output ;;
          if (enabled : bool) then
            wlr_enable wlr_output false ;;;
            wlr_commit wlr_output ;;;
            ret ({[out_id data]} ∪ _blanked_outputs)
          else ret _blanked_outputs
      end
  end.

(** The handler run on the events of a list, one after the other. *)
Fixpoint power_events (_blanked_outputs : gset nat)
  (events : list OutputPowerV1SetModeEvent) : M (gset nat) :=
  match events with
  | [] => ret _blanked_outputs
  | mode :: rest =>
      blanked <- _on_output_power_manager_set_mode _blanked_outputs mode ;;
      power_events blanked rest
  end.

(** ** The cursor image that clients ask for *)

(** [wlrq.CursorState], the attribute [self._cursor_state]. *)
Record CursorState := {
  cursor_surface : option Surface;
  cursor_hotspot : Z * Z;
  hidden : bool
}.

(** [seat.PointerRequestSetCursorEvent]; [seat_client] is
    [event._ptr.seat_client]. *)
Record PointerRequestSetCursorEvent := {
  seat_client : Client;
  request_surface : option Surface;
  request_hotspot : Z * Z
}.

(** A call of [self.cursor.set_surface]. *)
Inductive CursorCall :=
| SetSurface (surface : option Surface) (hotspot : Z * Z).

(** The comparison [event._ptr.seat_client != ...focused_client] of two
    pointers, the second of which is null when no client has the pointer. *)
Definition seat_client_ne (a : Client) (focused_client : option Client) : bool :=
  match focused_client with
  | Some b => negb (Nat.eqb (client_id a) (client_id b))
  | None => true
  end.

(** [_on_request_cursor]; [focused_client] is
    [self.seat.pointer_state._ptr.focused_client].  The methods on the
    cursor state give the state they leave and the calls they make on
    [self.cursor]. *)
Definition _on_request_cursor
  (focused_client : option Client) (event : PointerRequestSetCursorEvent)
  (_cursor_state : CursorState) : CursorState * list CursorCall :=
  if seat_client_ne (seat_client event) focused_client then
    (_cursor_state, [])
  else
    let _cursor_state :=
      {| cursor_surface := request_surface event;
         cursor_hotspot := request_hotspot event;
         hidden := hidden _cursor_state |} in
    if negb (hidden _cursor_state) then
      (_cursor_state,
       [SetSurface (request_surface event) (request_hotspot event)])
    else (_cursor_state, []).

(** [hide_cursor] *)
Definition hide_cursor (_cursor_state : CursorState)
  : CursorState * list CursorCall :=
  if negb (hidden _cursor_state) then
    ({| cursor_surface := cursor_surface _cursor_state;
        cursor_hotspot := cursor_hotspot _cursor_state;
        hidden := true |},
     [SetSurface None (cursor_hotspot _cursor_state)])
  else (_cursor_state, []).

(** [unhide_cursor] *)
Definition unhide_cursor (_cursor_state : CursorState)
  : CursorState * list CursorCall :=
  if hidden _cursor_state then
    ({| cursor_surface := cursor_surface _cursor_state;
        cursor_hotspot := cursor_hotspot _cursor_state;
        hidden := false |},
     [SetSurface (cursor_surface _cursor_state)
        (cursor_hotspot _cursor_state)])
  else (_cursor_state, []).

(** ** Key grabs *)

(** [config.Key], as far as the core reads it. *)
Record Key := { key : string; modifiers : list string }.

(** What a method on the grabbed keys can raise: the exception of
    [xkb.keysym_from_name] or [wlrq.translate_masks] for a name it does
    not know, which passes through, or a built-in exception. *)
Inductive KeyExn := UnknownName | Builtin (e : Exn).

Inductive KeyResult (A : Type) :=
| Returned (a : A) (grabbed_keys : list (Z * Z))
| Failed (e : KeyExn) (grabbed_keys : list (Z * Z)).
Arguments Returned {A} a grabbed_keys.
Arguments Failed {A} e grabbed_keys.

(** [list.remove] on the grabbed keys: the first equal pair goes, [None]
    stands for [ValueError]. *)
Fixpoint keys_remove (p : Z * Z) (l : list (Z * Z)) : option (list (Z * Z)) :=
  match l with
  | [] => None
  | q :: rest =>
      if bool_decide (q = p) then Some rest
      else match keys_remove p rest with
           | Some rest' => Some (q :: rest')
           | None => None
           end
  end.

(** A call that [simulate_keypress] makes: [self.qtile.process_key_event]
    or [self.focused_internal.process_key_press]. *)
Inductive KeyCall :=
| ProcessKeyEvent (keysym mods : Z)
| ProcessKeyPress (internal : Win) (keysym : Z).

Section Keys.

(** [xkb.keysym_from_name] with [case_insensitive=True] and
    [wlrq.translate_masks]; [None] where they raise. *)
Variable keysym_from_name : string -> option Z.
Variable translate_masks : list string -> option Z.

(** [grab_key] *)
Definition grab_key (k : Key) (grabbed_keys : list (Z * Z))
  : KeyResult (Z * Z) :=
  match keysym_from_name (key k) with
  | None => Failed UnknownName grabbed_keys
  | Some keysym =>
      match translate_masks (modifiers k) with
      | None => Failed UnknownName grabbed_keys
      | Some mask_key =>
          Returned (keysym, mask_key) (grabbed_keys ++ [(keysym, mask_key)])
      end
  end.

(** [ungrab_key] *)
Definition ungrab_key (k : Key) (grabbed_keys : list (Z * Z))
  : KeyResult (Z * Z) :=
  match keysym_from_name (key k) with
  | None => Failed UnknownName grabbed_keys
  | Some keysym =>
      match translate_masks (modifiers k) with
      | None => Failed UnknownName grabbed_keys
      | Some mask_key =>
          match keys_remove (keysym, mask_key) grabbed_keys with
          | Some rest => Returned (keysym, mask_key) rest
          | None => Failed (Builtin ValueError) grabbed_keys
          end
      end
  end.

(** [ungrab_keys] *)
Definition ungrab_keys (grabbed_keys : list (Z * Z)) : list (Z * Z) := [].

(** [simulate_keypress]; it reads [self.qtile] and [self.focused_internal]
    of the core [c] and returns the calls it makes. *)
Definition simulate_keypress
  (mods_names : list string) (key_name : string)
  (grabbed_keys : list (Z * Z)) (c : Core) : KeyResult (list KeyCall) :=
  match keysym_from_name key_name with
  | None => Failed UnknownName grabbed_keys
  | Some keysym =>
      match translate_masks mods_names with
      | None => Failed UnknownName grabbed_keys
      | Some mods =>
          if bool_decide ((keysym, mods) ∈ grabbed_keys) then
            match qtile c with
            | None => Failed (Builtin AssertionError) grabbed_keys
            | Some _ => Returned [ProcessKeyEvent keysym mods] grabbed_keys
            end
          else
            match focused_internal c with
            | Some internal =>
                Returned [ProcessKeyPress internal keysym] grabbed_keys
            | None => Returned [] grabbed_keys
            end
      end
  end.

End Keys.

(** ** Input devices *)

(** [input_device.InputDeviceType] *)
Inductive InputDeviceType :=
| KEYBOARD | POINTER | TOUCH | TABLET_TOOL | TABLET_PAD | SWITCH.

(** [input_device.InputDevice], told apart by [device_id]. *)
Record InputDevice := { device_id : nat; device_type : InputDeviceType }.

(** [inputs.Pointer] and [inputs.Keyboard], each made for a device. *)
Inductive Device :=
| Pointer (wlr_device : InputDevice)
| Keyboard (wlr_device : InputDevice).

(** [WlSeat.capability] *)
Definition capability_pointer : Z := 1.
Definition capability_keyboard : Z := 2.

Section Inputs.

(** [InputConfig], the values of the dict [wl_input_rules]. *)
Context {InputConfig : Type}.

(** [self.qtile.config], as far as the core reads it for its devices;
    [wl_input_rules] is a dict or None. *)
Record Config := { wl_input_rules : option (list (string * InputConfig)) }.

(** The truth value of [wl_input_rules]: a dict that is not empty. *)
Definition rules_set (cfg : Config) : option (list (string * InputConfig)) :=
  match wl_input_rules cfg with
  | Some (r :: rules) => Some (r :: rules)
  | _ => None
  end.

(** The calls made for input devices on the cursor, the cursor manager,
    the seat and the devices. *)
Inductive InputCall :=
| AttachInputDevice (wlr_device : InputDevice)
| SetCursorImageLeftPtr
| SetKeyboard (wlr_device : InputDevice)
| SetCapabilities (capabilities : Z)
| Configure (device : Device) (rules : list (string * InputConfig)).

(** The attributes of the core that hold its input devices;
    [inputs_qtile] is [self.qtile], reduced to its [config]. *)
Record Inputs := {
  inputs_qtile : option Config;
  keyboards : list Device;
  _pointers : list Device;
  _pending_input_devices : list Device;
  input_calls : list InputCall
}.

Definition input_call (e : InputCall) (s : Inputs) : Inputs :=
  {| inputs_qtile := inputs_qtile s;
     keyboards := keyboards s;
     _pointers := _pointers s;
     _pending_input_devices := _pending_input_devices s;
     input_calls := input_calls s ++ [e] |}.

(** [_add_new_pointer] *)
Definition _add_new_pointer (wlr_device : InputDevice) (s : Inputs)
  : Device * Inputs :=
  let device := Pointer wlr_device in
  let s :=
    {| inputs_qtile := inputs_qtile s;
       keyboards := keyboards s;
       _pointers := _pointers s ++ [device];
       _pending_input_devices := _pending_input_devices s;
       input_calls := input_calls s |} in
  let s := input_call (AttachInputDevice wlr_device) s in
  let s := input_call SetCursorImageLeftPtr s in
  (device, s).

(** [_add_new_keyboard] *)
Definition _add_new_keyboard (wlr_device : InputDevice) (s : Inputs)
  : Device * Inputs :=
  let device := Keyboard wlr_device in
  let s :=
    {| inputs_qtile := inputs_qtile s;
       keyboards := keyboards s ++ [device];
       _pointers := _pointers s;
       _pending_input_devices := _pending_input_devices s;
       input_calls := input_calls s |} in
  let s := input_call (SetKeyboard wlr_device) s in
  (device, s).

(** What [_on_new_input] does once the device is made. *)
Definition announce_and_configure (device : Device) (s : Inputs) : Inputs :=
  let capabilities := capability_pointer in
  let capabilities :=
    match keyboards s with
    | [] => capabilities
    | _ :: _ => Z.lor capabilities capability_keyboard
    end in
  let s := input_call (SetCapabilities capabilities) s in
  match inputs_qtile s with
  | Some cfg =>
      match rules_set cfg with
      | Some rules => input_call (Configure device rules) s
      | None => s
      end
  | None =>
      {| inputs_qtile := inputs_qtile s;
         keyboards := keyboards s;
         _pointers := _pointers s;
         _pending_input_devices := _pending_input_devices s ++ [device];
         input_calls := input_calls s |}
  end.

(** [_on_new_input] *)
Definition _on_new_input (wlr_device : InputDevice) (s : Inputs) : Inputs :=
  match device_type wlr_device with
  | POINTER =>
      let (device, s) := _add_new_pointer wlr_device s in
      announce_and_configure device s
  | KEYBOARD =>
      let (device, s) := _add_new_keyboard wlr_device s in
      announce_and_configure device s
  | _ => s
  end.

(** [_on_new_virtual_keyboard] and [_on_new_virtual_pointer], for the
    input device of the virtual one. *)
Definition _on_new_virtual_keyboard (wlr_device : InputDevice) (s : Inputs)
  : Inputs :=
  snd (_add_new_keyboard wlr_device s).

Definition _on_new_virtual_pointer (wlr_device : InputDevice) (s : Inputs)
  : Inputs :=
  snd (_add_new_pointer wlr_device s).

(** [_configure_pending_inputs]; [None] stands for the [AssertionError]
    without [self.qtile], which leaves everything as it is. *)
Definition _configure_pending_inputs (s : Inputs) : option Inputs :=
  match inputs_qtile s with
  | None => None
  | Some cfg =>
      let s :=
        match rules_set cfg with
        | Some rules =>
            fold_left (fun s device => input_call (Configure device rules) s)
              (_pending_input_devices s) s
        | None => s
        end in
      Some {| inputs_qtile := inputs_qtile s;
              keyboards := keyboards s;
              _pointers := _pointers s;
              _pending_input_devices := [];
              input_calls := input_calls s |}
  end.

(** [setup_listener], as far as the devices see it: [self.qtile] is set. *)
Definition set_inputs_qtile (cfg : Config) (s : Inputs) : Inputs :=
  {| inputs_qtile := Some cfg;
     keyboards := keyboards s;
     _pointers := _pointers s;
     _pending_input_devices := _pending_input_devices s;
     input_calls := input_calls s |}.

End Inputs.

Arguments Config : clear implicits.
Arguments InputCall : clear implicits.
Arguments Inputs : clear implicits.

(** ** Idle inhibitors *)

(** The loop of [check_idle_inhibitor] over the mapped windows, with its
    [else] branch: the argument that [self.idle.set_enabled] is called
    with.  [is_idle_inhibited] reads the attribute of that name of a
    window. *)
Fixpoint check_idle_inhibitor_loop
  (is_idle_inhibited : Win -> bool) (wins : list Win) : bool :=
  match wins with
  | [] => true
  | win :: rest =>
      if negb (isinstance_Internal (win_class win)) && is_idle_inhibited win
      then false
      else check_idle_inhibitor_loop is_idle_inhibited rest
  end.

(** [check_idle_inhibitor] *)
Definition check_idle_inhibitor
  (is_idle_inhibited : Win -> bool) (c : Core) : bool :=
  check_idle_inhibitor_loop is_idle_inhibited (mapped_windows c).

(** ** Layout changes *)

(** What [_on_output_layout_change] writes into the head that it makes for
    an output. *)
Record LayoutHead := {
  lh_output : nat;
  lh_mode : option Mode;
  lh_enabled : bool;
  lh_x : Z;
  lh_y : Z
}.

(** [wlr_output.current_mode]: the committed mode if it is one of the
    output's own modes, None for a custom mode and without a mode. *)
Definition wlr_current_mode (o : nat) : M (option Mode) :=
  c <- get ;;
  ret match os_mode (current (wlr_outputs c o)) with
      | Some (FixedMode m) => Some m
      | _ => None
      end.

(** [self.output_layout.get_box(wlr_output)], as far as it is read: where
    the layout has the output, None for an output that it does not
    have. *)
Definition get_box (o : nat) : M (option (Z * Z)) :=
  c <- get ;;
  ret match List.find (fun e => Nat.eqb (fst e) o) (output_layout c) with
      | Some e => Some (snd e)
      | None => None
      end.

(** The order of Python on the tuples [(o.x, o.y)]. *)
Definition tuple_lt (a b : Z * Z) : bool :=
  (fst a <? fst b) || ((fst a =? fst b) && (snd a <? snd b)).

(** [list.sort(key=...)] is a stable sort; the elements come with their
    keys.  An element goes before the first one whose key is not smaller
    than its own. *)
Fixpoint sort_insert {A} (e : A * (Z * Z)) (l : list (A * (Z * Z)))
  : list (A * (Z * Z)) :=
  match l with
  | [] => [e]
  | p :: rest =>
      if tuple_lt (snd p) (snd e) then p :: sort_insert e rest
      else e :: p :: rest
  end.

Definition list_sort {A} (l : list (A * (Z * Z))) : list (A * (Z * Z)) :=
  fold_right sort_insert [] l.

(** The loop of [_on_output_layout_change]: the heads, and each output
    with the [x] and [y] that the loop gives it. *)
Fixpoint layout_heads (outs : list Output)
  : M (list LayoutHead * list (Output * (Z * Z))) :=
  match outs with
  | [] => ret ([], [])
  | output :: rest =>
      mode <- wlr_current_mode (out_id output) ;;
      enabled <- wlr_enabled (out_id output) ;;
      box <- get_box (out_id output) ;;
      let x := match box with Some b => fst b | None => 0 end in
      let y := match box with Some b => snd b | None => 0 end in
      let head :=
        {| lh_output := out_id output;
           lh_mode := mode;
           lh_enabled :=
             match mode with Some _ => enabled | None => false end;
           lh_x := x;
           lh_y := y |} in
      r <- layout_heads rest ;;
      ret (head :: fst r, (output, (x, y)) :: snd r)
  end.

(** [_on_output_layout_change]; it returns the configuration that it hands
    to [self.output_manager.set_configuration]. *)
Definition _on_output_layout_change : M (list LayoutHead) :=
  c <- get ;;
  r <- layout_heads (outputs c) ;;
  modify (fun c => set_outputs (map fst (list_sort (snd r))) c) ;;;
  ret (fst r).

(** The calls that only a true pointer motion may cause: a motion
    notification to a client or to an internal window, and a change of the
    focused screen or window through the window manager. *)
Definition is_motion_effect (e : Event) : Prop :=
  match e with
  | PointerNotifyMotion _ _ _ | InternalPointerMotion _ _ _
  | QtileFocusScreen _ _ | GroupFocus _ _ _ => True
  | _ => False
  end.

(** The hit test as [_under_pointer] computes it on a state. *)
Definition hit_test (c : Core) : option Found :=
  under_pointer_loop (rev (stacked_windows c)) (cursor c).1 (cursor c).2.

(** Everything of the core is the same in [c'] as in [c] but the hovered
    window, the pointer focus of the seat and the trace, and but the two
    that [focus_window] writes, the keyboard focus of the seat and the
    focused internal window. *)
Definition same_but_pointer (c c' : Core) : Prop :=
  qtile c' = qtile c
  /\ mapped_windows c' = mapped_windows c
  /\ stacked_windows c' = stacked_windows c
  /\ _current_output c' = _current_output c
  /\ exclusive_client c' = exclusive_client c
  /\ outputs c' = outputs c
  /\ output_layout c' = output_layout c
  /\ cursor c' = cursor c
  /\ pointer_constraints c' = pointer_constraints c
  /\ active_pointer_constraint c' = active_pointer_constraint c
  /\ destroyed (seat c') = destroyed (seat c).

(** What [focus_window] writes is the same in [c'] as in [c]. *)
Definition same_keyboard (c c' : Core) : Prop :=
  focused_internal c' = focused_internal c
  /\ keyboard_focused_surface (seat c') = keyboard_focused_surface (seat c).

(** A request to the window manager to focus a window of a group or a
    screen, which the window manager answers through [focus_window]. *)
Definition is_focus_request (e : Event) : Prop :=
  match e with
  | QtileFocusScreen _ _ | GroupFocus _ _ _ => True
  | _ => False
  end.

(** Keyboard input has one destination: while an internal window is the
    focused one, no client surface has the keyboard focus of the seat. *)
Definition one_keyboard_target (c : Core) : Prop :=
  focused_internal c <> None -> keyboard_focused_surface (seat c) = None.

(** The calls by which the first loop of [_output_manager_reconfigure]
    configures and tests an output. *)
Definition is_configure (e : Event) : Prop :=
  match e with
  | OutputEnable _ _ | OutputSetMode _ _ | OutputSetCustomMode _ _ _ _
  | OutputSetTransform _ _ | OutputSetScale _ _ | OutputTest _
  | LayoutAdd _ _ _ | LayoutRemove _ => True
  | _ => False
  end.

(** The state that a head asks for, on an output whose state is [old]. *)
Definition requested (h : HeadState) (old : OutputState) : OutputState :=
  if hs_enabled h then
    {| os_enabled := true;
       os_mode := Some match hs_mode h with
                       | Some m => FixedMode m
                       | None =>
                           CustomMode (mode_width (hs_custom_mode h))
                             (mode_height (hs_custom_mode h))
                             (mode_refresh (hs_custom_mode h))
                       end;
       os_transform := hs_transform h;
       os_scale := hs_scale h |}
  else
    {| os_enabled := false; os_mode := os_mode old;
       os_transform := os_transform old; os_scale := os_scale old |}.

(** Where the layout has an output, if it has it. *)
Definition layout_position (l : list (nat * (Z * Z))) (o : nat) : option (Z * Z) :=
  match List.find (fun e => Nat.eqb (fst e) o) l with
  | Some e => Some (snd e)
  | None => None
  end.

(** The position a head asks for: none for a head that disables. *)
Definition requested_position (h : HeadState) : option (Z * Z) :=
  if hs_enabled h then Some (hs_x h, hs_y h) else None.

(** A power event as the protocol delivers it: its output has its [Output]
    as [data]. *)
Definition power_event_wf (mode : OutputPowerV1SetModeEvent) : Prop :=
  exists data, pm_data mode = Some data /\ out_id data = pm_output mode.

(** Every output that the power handler remembers as blanked is disabled. *)
Definition blanked_are_disabled (blanked : gset nat) (c : Core) : Prop :=
  forall o, o ∈ blanked -> os_enabled (current (wlr_outputs c o)) = false.

(** What changes the cursor state: a client's request, with the client
    that has the pointer at that moment, and the two commands. *)
Inductive CursorOp :=
| RequestCursor (focused_client : option Client)
    (event : PointerRequestSetCursorEvent)
| HideCursor
| UnhideCursor.

Definition cursor_op (op : CursorOp) (st : CursorState)
  : CursorState * list CursorCall :=
  match op with
  | RequestCursor focused_client event =>
      _on_request_cursor focused_client event st
  | HideCursor => hide_cursor st
  | UnhideCursor => unhide_cursor st
  end.

Fixpoint cursor_ops (ops : list CursorOp) (st : CursorState)
  : CursorState * list CursorCall :=
  match ops with
  | [] => (st, [])
  | op :: rest =>
      let (st1, calls1) := cursor_op op st in
      let (st2, calls2) := cursor_ops rest st1 in
      (st2, calls1 ++ calls2)
  end.

(** A call of [set_surface] agrees with the cursor state: no surface while
    the cursor is hidden, the state's surface and hotspot otherwise. *)
Definition shows (st : CursorState) (call : CursorCall) : Prop :=
  match call with
  | SetSurface surface hotspot =>
      if hidden st then surface = None
      else surface = cursor_surface st /\ hotspot = cursor_hotspot st
  end.

(** The object that [_on_new_input] makes for a device, if it makes one. *)
Definition made_for (wlr_device : InputDevice) : option Device :=
  match device_type wlr_device with
  | POINTER => Some (Pointer wlr_device)
  | KEYBOARD => Some (Keyboard wlr_device)
  | _ => None
  end.

Definition is_keyboard (wlr_device : InputDevice) : bool :=
  match device_type wlr_device with KEYBOARD => true | _ => false end.

Definition is_pointer (wlr_device : InputDevice) : bool :=
  match device_type wlr_device with POINTER => true | _ => false end.

(** Devices that the backend reports one after the other. *)
Definition new_inputs {InputConfig : Type}
  (devices : list InputDevice) (s : Inputs InputConfig) : Inputs InputConfig :=
  fold_left (fun s wlr_device => _on_new_input wlr_device s) devices s.

(** The capabilities that the seat was told last. *)
Fixpoint last_capabilities {InputConfig : Type}
  (calls : list (InputCall InputConfig)) : option Z :=
  match calls with
  | [] => None
  | call :: rest =>
      match last_capabilities rest with
      | Some capabilities => Some capabilities
      | None =>
          match call with
          | SetCapabilities capabilities => Some capabilities
          | _ => None
          end
      end
  end.

(** Where an output is in the layout: the origin if it is not in it. *)
Definition position_of (c : Core) (o : Output) : Z * Z :=
  match layout_position (output_layout c) (out_id o) with
  | Some p => p
  | None => (0, 0)
  end.

(** Left to right, then top to bottom. *)
Definition tuple_le (a b : Z * Z) : Prop :=
  fst a < fst b \/ (fst a = fst b /\ snd a <= snd b).

(** Every element of the list is related to all the later ones. *)
Fixpoint ordered {A} (R : A -> A -> Prop) (l : list A) : Prop :=
  match l with
  | [] => True
  | a :: rest => Forall (R a) rest /\ ordered R rest
  end.

(** The trace grows by calls that all satisfy [P]. *)
Definition grows_by (P : Event -> Prop) (c c' : Core) : Prop :=
  exists evs, trace c' = trace c ++ evs /\ Forall P evs.

(** A computation that returns, whatever the state, and relates the state
    it leaves to the one it found by [R]. *)
Definition steps {A} (R : Core -> Core -> Prop) (m : M A) : Prop :=
  forall c, exists a c', m c = Ok a c' /\ R c c'.

(** ** More of the small session *)

(** The pointer is confined to the right of x = 10 and rests half a pixel
    to the right of that edge. *)
Definition edge_constraint : PointerConstraint :=
  {| pc_id := 9; pc_surface := term_surface;
     rect := {| box_x := 10; box_y := 0; box_width := 90; box_height := 100 |} |}.

Definition edge_session : Core :=
  set_cursor ((21 # 2)%Q, 10%Q)
    (set_active_pointer_constraint (Some edge_constraint)
       (set_pointer_constraints [edge_constraint]
          (set_seat (set_pointer_focused_surface (Some term_surface) live_seat)
             session))).

(** A motion to the left by a little more than that half pixel: by
    0.5 + 2^-53. *)
Definition past_the_edge : PointerEventMotion :=
  {| motion_time_msec := 5; motion_device := 0;
     delta_x := (- ((1 # 2) + (1 # 2 ^ 53)))%Q; delta_y := 0%Q;
     unaccel_delta_x := (- ((1 # 2) + (1 # 2 ^ 53)))%Q;
     unaccel_delta_y := 0%Q |}.

(** The pointer is confined to the terminal and rests at the last float
    before its right edge, 100 - 2^-46; a motion to the right by 5 * 2^-49,
    less than the distance to the edge. *)
Definition near_edge_session : Core :=
  set_cursor ((100 - (1 # 2 ^ 46))%Q, 10%Q) confined_session.

Definition short_step : PointerEventMotion :=
  {| motion_time_msec := 5; motion_device := 0;
     delta_x := (5 # 2 ^ 49)%Q; delta_y := 0%Q;
     unaccel_delta_x := (5 # 2 ^ 49)%Q; unaccel_delta_y := 0%Q |}.

(** The pointer rests on the terminal, outside the panel. *)
Definition centred_session : Core := set_cursor (60%Q, 60%Q) session.

(** An editor's toplevel surface. *)
Definition editor_surface : Surface :=
  {| surf_id := 20; is_xdg_surface := true; is_xwayland_surface := false;
     surf_data := Some 4%nat |}.

(** The editor has the keyboard focus, or the terminal has it. *)
Definition editor_focused : Core :=
  set_seat (set_keyboard_focused_surface (Some editor_surface) live_seat)
    session.

Definition term_focused : Core :=
  set_seat (set_keyboard_focused_surface (Some term_surface) live_seat)
    session.

(** The session after the window with the next id has been managed. *)
Definition grown_session : Core :=
  {| qtile :=
       Some {| windows_map := <[4 := bar]> (windows_map manager);
               current_window := current_window manager;
               current_screen := current_screen manager;
               follow_mouse_focus := follow_mouse_focus manager;
               binding_click := binding_click manager;
               binding_release := binding_release manager |};
     _hovered_window := _hovered_window session;
     focused_internal := focused_internal session;
     mapped_windows := mapped_windows session;
     stacked_windows := stacked_windows session;
     _current_output := _current_output session;
     exclusive_client := exclusive_client session;
     outputs := outputs session;
     output_layout := output_layout session;
     wlr_outputs := wlr_outputs session;
     cursor := cursor session;
     seat := seat session;
     live_dnd := live_dnd session;
     pointer_constraints := pointer_constraints session;
     active_pointer_constraint := active_pointer_constraint session;
     wlroots := wlroots session;
     trace := trace session |}.

(** A head that moves the right output to x = 2000 and keeps its mode. *)
Definition moved_head : HeadState :=
  {| hs_output := 1; hs_enabled := true;
     hs_mode := Some {| mode_width := 1920; mode_height := 1080;
                        mode_refresh := 60000 |};
     hs_custom_mode :=
       {| mode_width := 0; mode_height := 0; mode_refresh := 0 |};
     hs_x := 2000; hs_y := 0; hs_transform := 0; hs_scale := 1%Q |}.

(** The user has switched the right output off. *)
Definition disabled_output : WlrOutput :=
  let s := {| os_enabled := false; os_mode := None;
              os_transform := 0; os_scale := 1%Q |} in
  {| current := s; pending := s |}.

Definition dark_session : Core :=
  set_wlr_outputs
    (fun o => if Nat.eqb o 1 then disabled_output else enabled_output)
    session.

Definition power (o : Output) (mode : OutputPowerManagementV1Mode)
  : OutputPowerV1SetModeEvent :=
  {| pm_output := out_id o; pm_data := Some o; pm_mode := mode |}.

(** The terminal asks for its own cursor image. *)
Definition term_cursor_request : PointerRequestSetCursorEvent :=
  {| seat_client := term_client; request_surface := Some term_surface;
     request_hotspot := (1, 1) |}.

Definition shown_cursor : CursorState :=
  {| cursor_surface := None; cursor_hotspot := (0, 0); hidden := false |}.

Definition hidden_cursor : CursorState :=
  {| cursor_surface := None; cursor_hotspot := (0, 0); hidden := true |}.

(** Two names that the keyboard knows, and one modifier. *)
Definition keysyms (name : string) : option Z :=
  if String.eqb name "a" then Some 97
  else if String.eqb name "Return" then Some 65293
  else None.

Definition masks (names : list string) : option Z :=
  match names with
  | [] => Some 0
  | [name] => if String.eqb name "mod4" then Some 64 else None
  | _ => None
  end.

Definition mod4_a : Key := {| key := "a"; modifiers := ["mod4"] |}.

(** A keyboard and a mouse, and a core that has no device and no qtile
    yet. *)
Definition a_keyboard : InputDevice :=
  {| device_id := 0; device_type := KEYBOARD |}.

Definition a_mouse : InputDevice :=
  {| device_id := 1; device_type := POINTER |}.

Definition a_touchscreen : InputDevice :=
  {| device_id := 2; device_type := TOUCH |}.

Definition no_inputs : Inputs Z :=
  {| inputs_qtile := None; keyboards := []; _pointers := [];
     _pending_input_devices := []; input_calls := [] |}.

Definition some_rules : Config Z :=
  {| wl_input_rules := Some [("type:keyboard", 1)] |}.

(** * Properties *)

(** ** Tactics and small facts *)

Ltac unfold_monad :=
  unfold emit in *; unfold bind, ret, get, modify, raise, assert_qtile in *.

Lemma Qle_bool_true (a b : Q) : Qle_bool a b = true <-> (a <= b)%Q.
Proof. apply Qle_bool_iff. Qed.


(** ** Hit testing *)

Lemma under_pointer_body_win (win : Win) (cx cy : Q) (f : Found) :
  under_pointer_body win cx cy = Some f -> f.1.1.1 = win.
Proof.
  unfold under_pointer_body.
  destruct (isinstance_Internal (win_class win)).
  - destruct (in_bounding_box win cx cy); intros H; inversion H; reflexivity.
  - destruct (surface_at win _ _) as [[s sx] sy].
    destruct s as [s|]; [intros H; inversion H; reflexivity|].
    repeat match goal with
           | |- context [if ?b then _ else _] => destruct b
           end; intros H; inversion H; reflexivity.
Qed.

Lemma under_pointer_body_contains (win : Win) (cx cy : Q) :
  under_pointer_body win cx cy <> None <-> window_contains win cx cy.
Proof.
  unfold under_pointer_body, window_contains, in_bounding_box.
  destruct (isinstance_Internal (win_class win)).
  - rewrite <- !Qle_bool_true.
    destruct (Qle_bool (inject_Z (win_x win)) cx),
             (Qle_bool cx (inject_Z (win_x win + win_width win))),
             (Qle_bool (inject_Z (win_y win)) cy),
             (Qle_bool cy (inject_Z (win_y win + win_height win)));
      simpl; intuition congruence.
  - destruct (surface_at win _ _) as [[s sx] sy]. simpl.
    destruct s as [s|]; [split; [left|]; congruence|].
    replace (win_x win + win_width win + 2 * borderwidth win)
      with (win_x win + win_width win + borderwidth win * 2) by lia.
    replace (win_y win + win_height win + 2 * borderwidth win)
      with (win_y win + win_height win + borderwidth win * 2) by lia.
    rewrite <- !Qle_bool_true.
    destruct (Z.eqb_spec (borderwidth win) 0) as [E|E]; simpl.
    + split; [congruence|]. intros [H|[H _]]; congruence.
    + destruct (Qle_bool (inject_Z (win_x win)) cx),
               (Qle_bool (inject_Z (win_y win)) cy),
               (Qle_bool cx _), (Qle_bool cy _);
        simpl; intuition congruence.
Qed.

(** The loop returns at the first window of its list that contains the
    point. *)
Lemma under_pointer_loop_spec (wins : list Win) (cx cy : Q) :
  match under_pointer_loop wins cx cy with
  | Some f =>
      exists before after,
        wins = before ++ f.1.1.1 :: after
        /\ Forall (fun v => ~ window_contains v cx cy) before
        /\ under_pointer_body f.1.1.1 cx cy = Some f
  | None => Forall (fun v => ~ window_contains v cx cy) wins
  end.
Proof.
  induction wins as [|win rest IH]; simpl; [constructor|].
  destruct (under_pointer_body win cx cy) as [f|] eqn:E.
  - exists [], rest. rewrite (under_pointer_body_win _ _ _ _ E).
    repeat split; [constructor | exact E].
  - assert (~ window_contains win cx cy) as Hn.
    { rewrite <- under_pointer_body_contains. congruence. }
    destruct (under_pointer_loop rest cx cy) as [f|].
    + destruct IH as (before & after & -> & Hb & Hf).
      exists (win :: before), after. repeat split; [constructor|]; assumption.
    + constructor; assumption.
Qed.

Lemma under_pointer_loop_app (l1 l2 : list Win) (cx cy : Q) :
  under_pointer_loop (l1 ++ l2) cx cy =
  match under_pointer_loop l1 cx cy with
  | Some f => Some f
  | None => under_pointer_loop l2 cx cy
  end.
Proof.
  induction l1 as [|w l1 IH]; simpl; [reflexivity|].
  destruct (under_pointer_body w cx cy); [reflexivity | exact IH].
Qed.

(** Read in stacking order: the hit window splits the list so that nothing
    above it contains the point. *)
Lemma under_pointer_rev_spec (wins : list Win) (cx cy : Q) :
  match under_pointer_loop (rev wins) cx cy with
  | Some f =>
      exists below above,
        wins = below ++ f.1.1.1 :: above
        /\ Forall (fun v => ~ window_contains v cx cy) above
        /\ under_pointer_body f.1.1.1 cx cy = Some f
  | None => Forall (fun v => ~ window_contains v cx cy) wins
  end.
Proof.
  pose proof (under_pointer_loop_spec (rev wins) cx cy) as H.
  destruct (under_pointer_loop (rev wins) cx cy) as [f|].
  - destruct H as (before & after & E & Hb & Hf).
    exists (rev after), (rev before). repeat split; [| |exact Hf].
    + rewrite <- (rev_involutive wins), E, rev_app_distr. simpl.
      rewrite <- app_assoc. reflexivity.
    + apply Forall_forall. intros v Hv. rewrite Forall_forall in Hb.
      apply Hb. apply list_elem_of_In, in_rev.
      apply list_elem_of_In in Hv. exact Hv.
  - apply Forall_forall. intros v Hv. rewrite Forall_forall in H.
    apply H. apply list_elem_of_In. rewrite <- in_rev.
    apply list_elem_of_In. exact Hv.
Qed.

Lemma under_pointer_run (c : Core) (q : Qtile) :
  qtile c = Some q ->
  _under_pointer c =
  Ok (under_pointer_loop (rev (stacked_windows c)) (cursor c).1 (cursor c).2) c.
Proof.
  intros Hq. unfold _under_pointer. unfold_monad. rewrite Hq.
  destruct (cursor c) as [cx cy]. reflexivity.
Qed.

(** C1.  With the manager attached, [_under_pointer] returns: it gives the
    window that is topmost in [stacked_windows] among those that contain the
    cursor position (an internal window by its bounding box, another by its
    surface or by its border grown by twice the border width), with no
    surface for an internal window; it gives none exactly when no stacked
    window contains the point; and when the stack is the composited order of
    the current output and an overlay window contains the point, the window
    returned is one of the overlay layer, above all regular windows. *)
Theorem under_pointer_topmost (c : Core) (q : Qtile) :
  qtile c = Some q ->
  exists found,
    _under_pointer c = Ok found c
    /\ match found with
       | Some (win, surface, sx, sy) =>
           (exists below above,
              stacked_windows c = below ++ win :: above
              /\ Forall (fun v =>
                   ~ window_contains v (cursor c).1 (cursor c).2) above)
           /\ window_contains win (cursor c).1 (cursor c).2
           /\ (isinstance_Internal (win_class win) = true ->
               surface = None)
       | None => True
       end
    /\ (found = None <->
        forall v, In v (stacked_windows c) ->
                  ~ window_contains v (cursor c).1 (cursor c).2)
    /\ (forall o ov,
          _current_output c = Some o ->
          stacked_windows c = composited c ->
          In ov (layer_OVERLAY o) ->
          window_contains ov (cursor c).1 (cursor c).2 ->
          exists win surface sx sy below above,
            found = Some (win, surface, sx, sy)
            /\ layer_OVERLAY o = below ++ win :: above
            /\ Forall (fun v =>
                 ~ window_contains v (cursor c).1 (cursor c).2) above).
Proof.
  intros Hq. eexists. split; [apply (under_pointer_run c q Hq)|].
  set (cx := (cursor c).1). set (cy := (cursor c).2).
  pose proof (under_pointer_rev_spec (stacked_windows c) cx cy) as Hspec.
  split; [|split].
  - destruct (under_pointer_loop (rev (stacked_windows c)) cx cy)
      as [[[[win surface] sx] sy]|]; [|exact I].
    simpl in Hspec. destruct Hspec as (below & above & E & Ha & Hf).
    split; [exists below, above; split; assumption|]. split.
    + apply under_pointer_body_contains. congruence.
    + intros Hi. unfold under_pointer_body in Hf. rewrite Hi in Hf.
      destruct (in_bounding_box win cx cy); congruence.
  - destruct (under_pointer_loop (rev (stacked_windows c)) cx cy) as [f|].
    + split; [congruence|]. intros Hall. exfalso.
      destruct Hspec as (below & above & E & Ha & Hf).
      apply (Hall f.1.1.1).
      * rewrite E. apply in_or_app. right. left. reflexivity.
      * apply under_pointer_body_contains. congruence.
    + split; [|reflexivity]. intros _ v Hv. rewrite Forall_forall in Hspec.
      apply Hspec, list_elem_of_In, Hv.
  - intros o ov Ho Hst Hov Hc. unfold composited in Hst. rewrite Ho in Hst.
    rewrite Hst. rewrite !app_assoc, rev_app_distr, under_pointer_loop_app.
    pose proof (under_pointer_rev_spec (layer_OVERLAY o) cx cy) as Hov_spec.
    destruct (under_pointer_loop (rev (layer_OVERLAY o)) cx cy)
      as [[[[win surface] sx] sy]|].
    + simpl in Hov_spec. destruct Hov_spec as (below & above & E & Ha & _).
      exists win, surface, sx, sy, below, above. repeat split; assumption.
    + exfalso. rewrite Forall_forall in Hov_spec.
      apply (Hov_spec ov); [apply list_elem_of_In, Hov | exact Hc].
Qed.

(** ** Stacking *)

Lemma list_remove_present (w : Win) (l : list Win) :
  present w l = true -> exists r, list_remove w l = Some r.
Proof.
  induction l as [|v l IH]; simpl; [discriminate|].
  destruct (win_is v w); simpl; [eauto|].
  intros H. destruct (IH H) as [r ->]. eauto.
Qed.

Lemma list_remove_absent (w : Win) (l : list Win) :
  present w l = false -> list_remove w l = None.
Proof.
  induction l as [|v l IH]; simpl; [reflexivity|].
  destruct (win_is v w); simpl; [discriminate|].
  intros H. rewrite (IH H). reflexivity.
Qed.

Lemma win_is_refl (w : Win) : win_is w w = true.
Proof. apply Nat.eqb_refl. Qed.

Lemma list_remove_others (w : Win) (l r : list Win) :
  list_remove w l = Some r -> others w (r ++ [w]) = others w l.
Proof.
  unfold others. revert r.
  induction l as [|v l IH]; simpl; intros r; [discriminate|].
  destruct (win_is v w) eqn:E; simpl.
  - intros [= <-]. rewrite List.filter_app. simpl.
    rewrite win_is_refl. simpl. apply app_nil_r.
  - destruct (list_remove w l) as [r'|]; [|discriminate].
    intros [= <-]. simpl. rewrite E. simpl. f_equal. apply IH. reflexivity.
Qed.

Lemma list_remove_perm (w : Win) (l r : list Win) :
  list_remove w l = Some r ->
  Permutation (map wid (r ++ [w])) (map wid l).
Proof.
  revert r. induction l as [|v l IH]; simpl; intros r; [discriminate|].
  destruct (win_is v w) eqn:E.
  - intros [= <-]. apply Nat.eqb_eq in E. rewrite E.
    rewrite map_app. simpl. symmetry. apply Permutation_cons_append.
  - destruct (list_remove w l) as [r'|]; [|discriminate].
    intros [= <-]. simpl. constructor. apply IH. reflexivity.
Qed.

Lemma stack_windows_None (c : Core) :
  stack_windows None c = Ok tt (set_stacked_windows (composited c) c).
Proof.
  unfold stack_windows, composited. unfold_monad.
  destruct (_current_output c); reflexivity.
Qed.

Lemma stack_windows_Some (c : Core) (w : Win) (l : list Win) :
  list_remove w (mapped_windows c) = Some l ->
  stack_windows (Some w) c =
  Ok tt (set_stacked_windows (composited (set_mapped_windows (l ++ [w]) c))
           (set_mapped_windows (l ++ [w]) c)).
Proof.
  intros H. unfold stack_windows, composited. unfold_monad. rewrite H. simpl.
  destruct (_current_output c); reflexivity.
Qed.

(** C6.  [stack_windows] returns when there is no restack target or the
    target is in [mapped_windows]; every call that returns leaves
    [stacked_windows] equal to the composited order of the current output
    (the regular windows alone without one).  A target that is present is
    first moved to the end of [mapped_windows]: the other windows keep their
    order and the windows are the same ones.  A target that is absent makes
    [list.remove] raise [ValueError] and nothing changes. *)
Theorem stack_windows_composited (c : Core) (restack : option Win) :
  (forall c', stack_windows restack c = Ok tt c' ->
     stacked_windows c' = composited c'
     /\ _current_output c' = _current_output c)
  /\ (restack = None ->
      exists c', stack_windows restack c = Ok tt c'
                 /\ mapped_windows c' = mapped_windows c)
  /\ (forall w, restack = Some w -> present w (mapped_windows c) = true ->
      exists c' rest,
        stack_windows restack c = Ok tt c'
        /\ mapped_windows c' = rest ++ [w]
        /\ others w (mapped_windows c') = others w (mapped_windows c)
        /\ Permutation (map wid (mapped_windows c'))
                       (map wid (mapped_windows c)))
  /\ (forall w, restack = Some w -> present w (mapped_windows c) = false ->
      stack_windows restack c = Raise ValueError c).
Proof.
  split; [|split; [|split]].
  - intros c'. destruct restack as [w|].
    + destruct (list_remove w (mapped_windows c)) as [l|] eqn:E.
      * rewrite (stack_windows_Some c w l E). intros [= <-].
        split; reflexivity.
      * unfold stack_windows. unfold_monad. rewrite E. discriminate.
    + rewrite stack_windows_None. intros [= <-]. split; reflexivity.
  - intros ->. rewrite stack_windows_None. eexists. split; reflexivity.
  - intros w -> Hp. destruct (list_remove_present w _ Hp) as [l E].
    rewrite (stack_windows_Some c w l E). eexists. exists l.
    split; [reflexivity|]. simpl.
    split; [reflexivity|].
    split; [apply list_remove_others | apply list_remove_perm]; exact E.
  - intros w -> Hp. unfold stack_windows. unfold_monad.
    rewrite (list_remove_absent w _ Hp). reflexivity.
Qed.

(** ** Output removal *)

Lemma other_outputs_all (o : Output) (l : list Output) :
  ~ In (out_id o) (map out_id l) -> other_outputs o l = l.
Proof.
  unfold other_outputs. induction l as [|v l IH]; simpl; [reflexivity|].
  intros H. destruct (output_is v o) eqn:E; simpl.
  - exfalso. apply H. left. apply Nat.eqb_eq. exact E.
  - f_equal. apply IH. intros Hin. apply H. right. exact Hin.
Qed.

Lemma outputs_remove_filter (o : Output) (l : list Output) :
  NoDup (map out_id l) -> out_present o l = true ->
  outputs_remove o l = Some (other_outputs o l).
Proof.
  induction l as [|v l IH]; simpl; [discriminate|].
  intros Hnd Hp. apply NoDup_cons in Hnd. destruct Hnd as [Hv Hnd].
  unfold other_outputs. simpl.
  destruct (output_is v o) eqn:E; simpl.
  - f_equal. symmetry. apply other_outputs_all.
    apply Nat.eqb_eq in E. rewrite <- E. rewrite <- list_elem_of_In. exact Hv.
  - simpl in Hp. rewrite (IH Hnd Hp). reflexivity.
Qed.

Lemma other_outputs_absent (o : Output) (l : list Output) :
  out_present o (other_outputs o l) = false.
Proof.
  unfold out_present, other_outputs.
  induction l as [|v l IH]; simpl; [reflexivity|].
  destruct (output_is v o) eqn:E; simpl; [exact IH|].
  rewrite E. exact IH.
Qed.

Lemma other_outputs_In (o v : Output) (l : list Output) :
  In v (other_outputs o l) -> output_is o v = false.
Proof.
  unfold other_outputs. rewrite filter_In. intros [_ H].
  unfold output_is in *. rewrite Nat.eqb_sym.
  destruct (out_id v =? out_id o)%nat; [discriminate | reflexivity].
Qed.

(** C9.  On an output list without repeated outputs, [remove_output] of an
    output of the list returns; afterwards the output is in neither the
    output list (the others keep their order) nor the layout (the entries
    of the other outputs stay as they are, in their order); if it was the
    current output, [_current_output] is the first remaining output, or
    none when none remains, and [stacked_windows] has been rebuilt;
    otherwise [_current_output] is as before.  In no case does
    [_current_output] refer to the removed output. *)
Theorem remove_output_reassigns (c : Core) (output : Output) :
  NoDup (map out_id (outputs c)) ->
  out_present output (outputs c) = true ->
  exists c',
    remove_output output c = Ok tt c'
    /\ outputs c' = other_outputs output (outputs c)
    /\ out_present output (outputs c') = false
    /\ (forall xy, ~ In (out_id output, xy) (output_layout c'))
    /\ output_layout c' = other_entries output (output_layout c)
    /\ (is_current c output = true ->
        _current_output c' = head (outputs c')
        /\ stacked_windows c' = composited c')
    /\ (is_current c output = false ->
        _current_output c' = _current_output c)
    /\ (forall o', _current_output c' = Some o' ->
                   output_is output o' = false).
Proof.
  intros Hnd Hp.
  pose proof (outputs_remove_filter output (outputs c) Hnd Hp) as Hrm.
  assert (forall l xy,
    ~ In (out_id output, xy)
        (List.filter (fun e : nat * (Z * Z) =>
                        negb (Nat.eqb (fst e) (out_id output))) l)) as Hlay.
  { intros l xy Hin. apply filter_In in Hin. destruct Hin as [_ Hin].
    simpl in Hin. rewrite Nat.eqb_refl in Hin. discriminate. }
  unfold remove_output, layout_remove, stack_windows. unfold_monad.
  rewrite Hrm. simpl. unfold is_current.
  assert (forall l o1, other_outputs output (outputs c) = l -> In o1 l ->
                       output_is output o1 = false) as Hother.
  { intros l o1 <-. apply other_outputs_In. }
  assert (forall l, other_outputs output (outputs c) = l ->
                    out_present output l = false) as Habs.
  { intros l <-. apply other_outputs_absent. }
  destruct (_current_output c) as [cur|] eqn:Hcur; simpl;
    [destruct (output_is output cur) eqn:Hoc; simpl;
     [destruct (other_outputs output (outputs c)) as [|o1 rest] eqn:Hrest;
      simpl|]|];
    (eexists; split; [reflexivity|]); simpl; unfold composited; simpl;
    repeat split; intros;
    try reflexivity; try discriminate; try apply Hlay;
    try exact (Habs _ eq_refl);
    try match goal with
        | H : Some _ = Some _ |- _ => injection H as <-
        end;
    try assumption; try congruence.
  apply (Hother _ _ eq_refl). left. reflexivity.
Qed.

(** ** Window identifiers *)

Lemma fold_left_max_ge (ks : list Z) (k : Z) :
  k <= fold_left Z.max ks k
  /\ forall x, In x ks -> x <= fold_left Z.max ks k.
Proof.
  revert k. induction ks as [|a ks IH]; intros k; simpl.
  - split; [lia | intros x []].
  - destruct (IH (Z.max k a)) as [H1 H2]. split; [lia|].
    intros x [<-|Hx]; [lia | apply H2, Hx].
Qed.

Lemma fold_left_max_in (ks : list Z) (k : Z) :
  In (fold_left Z.max ks k) (k :: ks).
Proof.
  revert k. induction ks as [|a ks IH]; intros k; simpl; [left; reflexivity|].
  destruct (IH (Z.max k a)) as [H|H].
  - rewrite <- H.
    destruct (Z.max_spec k a) as [[_ E]|[_ E]]; rewrite E; tauto.
  - right. right. exact H.
Qed.

Lemma py_max_spec (keys : list Z) (d : Z) :
  (keys = [] -> py_max keys d = d)
  /\ (keys <> [] -> In (py_max keys d) keys)
  /\ (forall x, In x keys -> x <= py_max keys d).
Proof.
  destruct keys as [|k ks]; simpl.
  - split; [reflexivity|]. split; [congruence | intros x []].
  - split; [discriminate|]. split; [intros _; apply fold_left_max_in|].
    intros x [<-|Hx].
    + apply (proj1 (fold_left_max_ge ks k)).
    + apply (proj2 (fold_left_max_ge ks k)), Hx.
Qed.

Lemma windows_map_keys (m : gmap Z Win) (k : Z) :
  In k (map_to_list m).*1 <-> is_Some (m !! k).
Proof.
  rewrite <- list_elem_of_In, list_elem_of_fmap. split.
  - intros [[k' w] [-> H]]. apply elem_of_map_to_list in H. simpl. eauto.
  - intros [w H]. exists (k, w). split; [reflexivity|].
    apply elem_of_map_to_list. exact H.
Qed.

(** C10.  With the manager attached, [new_wid] returns an identifier that
    is greater than every key of the manager's window map, hence not a key
    of it: 1 for the empty map, the greatest key plus one otherwise. *)
Theorem new_wid_fresh (c : Core) (q : Qtile) :
  qtile c = Some q ->
  exists w,
    new_wid c = Ok w c
    /\ (forall k, is_Some (windows_map q !! k) -> k < w)
    /\ windows_map q !! w = None
    /\ (windows_map q = ∅ -> w = 1)
    /\ (windows_map q <> ∅ ->
        exists k, is_Some (windows_map q !! k) /\ w = k + 1
                  /\ forall k', is_Some (windows_map q !! k') -> k' <= k).
Proof.
  intros Hq. unfold new_wid. unfold_monad. rewrite Hq.
  eexists. split; [reflexivity|].
  destruct (py_max_spec (map_to_list (windows_map q)).*1 0) as (He & Hin & Hge).
  assert (forall k, is_Some (windows_map q !! k) ->
                    k < py_max (map_to_list (windows_map q)).*1 0 + 1) as Hlt.
  { intros k Hk. apply windows_map_keys, Hge in Hk. lia. }
  split; [exact Hlt|]. split; [|split].
  - destruct (windows_map q !! _) eqn:E; [|reflexivity].
    assert (is_Some (windows_map q !!
              (py_max (map_to_list (windows_map q)).*1 0 + 1))) as Hs
      by (rewrite E; eauto).
    apply Hlt in Hs. lia.
  - intros ->. rewrite map_to_list_empty. reflexivity.
  - intros Hne. exists (py_max (map_to_list (windows_map q)).*1 0).
    assert ((map_to_list (windows_map q)).*1 <> []) as Hk.
    { intros E. apply fmap_nil_inv in E.
      apply map_to_list_empty_iff in E. contradiction. }
    split; [apply windows_map_keys, Hin, Hk|]. split; [reflexivity|].
    intros k' Hk'. apply Hge, windows_map_keys, Hk'.
Qed.

(** ** Pointer motion under a constraint *)

(** C7.  While a pointer constraint is active, a relative motion whose
    delta would take the cursor outside the constraint's rectangle leaves
    the cursor where it is (it is not moved to the edge either), the hovered
    window and the seat's focus as they are, and nothing is called but the
    idle and relative-motion notifications that precede the test: with the
    manager attached the handler returns after these two calls.  The place
    that the delta would take the cursor to is the one that the handler
    computes, the float sums of the cursor's coordinates and the delta. *)
Theorem constrained_motion_dropped
  (c : Core) (event : PointerEventMotion) (pc : PointerConstraint) :
  active_pointer_constraint c = Some pc ->
  contains_float_point (rect pc)
    (float_add (cursor c).1 (delta_x event))
    (float_add (cursor c).2 (delta_y event)) = false ->
  (forall q, qtile c = Some q ->
     _on_cursor_motion event c
     = Ok tt (set_trace (trace c ++ motion_preamble event) c))
  /\ cursor (state_of (_on_cursor_motion event c)) = cursor c
  /\ _hovered_window (state_of (_on_cursor_motion event c)) = _hovered_window c
  /\ seat (state_of (_on_cursor_motion event c)) = seat c
  /\ stacked_windows (state_of (_on_cursor_motion event c)) = stacked_windows c
  /\ exists evs,
       trace (state_of (_on_cursor_motion event c)) = trace c ++ evs
       /\ Forall is_preamble evs.
Proof.
  intros Ha Hc.
  assert (forall q, qtile c = Some q ->
            _on_cursor_motion event c
            = Ok tt (set_trace (trace c ++ motion_preamble event) c)) as Hrun.
  { intros q Hq. unfold _on_cursor_motion. unfold_monad. rewrite Hq. simpl.
    rewrite Ha. rewrite Hc. simpl. f_equal.
    unfold set_trace, motion_preamble. simpl. rewrite <- app_assoc.
    reflexivity. }
  split; [exact Hrun|].
  destruct (qtile c) as [q|] eqn:Hq.
  - rewrite (Hrun q eq_refl). simpl. repeat split.
    exists (motion_preamble event). split; [reflexivity|].
    repeat constructor.
  - unfold _on_cursor_motion. unfold_monad. rewrite Hq. simpl. repeat split.
    exists []. split; [rewrite app_nil_r; reflexivity | constructor].
Qed.

(** [float_add] is the addition of the machine on the samples. *)
Example float_add_is_binary64 :
  forallb (fun p => float_add_agrees (fst p) (snd p)) float_samples = true.
Proof. vm_compute. reflexivity. Qed.

(** The sum of the rationals 10.5 and -(0.5 + 2^-53) is left of the edge
    10 of the rectangle, the float sum is 10 and inside: the handler goes
    on and moves the cursor. *)
Example rounded_sum_inside :
  contains_point (rect edge_constraint)
    ((cursor edge_session).1 + delta_x past_the_edge)%Q
    ((cursor edge_session).2 + delta_y past_the_edge)%Q = false
  /\ contains_float_point (rect edge_constraint)
       (float_add (cursor edge_session).1 (delta_x past_the_edge))
       (float_add (cursor edge_session).2 (delta_y past_the_edge)) = true
  /\ nth_error (trace (state_of (_on_cursor_motion past_the_edge edge_session)))
       2
     = Some (CursorMove (delta_x past_the_edge) (delta_y past_the_edge) 0).
Proof.
  split; [vm_compute; reflexivity|].
  split; vm_compute; reflexivity.
Qed.

(** The sum of the rationals 100 - 2^-46 and 5 * 2^-49 is left of the edge
    100 of the rectangle, the float sum is 100 and outside: the handler
    drops the motion. *)
Example rounded_sum_outside :
  contains_point (rect game_constraint)
    ((cursor near_edge_session).1 + delta_x short_step)%Q
    ((cursor near_edge_session).2 + delta_y short_step)%Q = true
  /\ contains_float_point (rect game_constraint)
       (float_add (cursor near_edge_session).1 (delta_x short_step))
       (float_add (cursor near_edge_session).2 (delta_y short_step)) = false
  /\ cursor (state_of (_on_cursor_motion short_step near_edge_session))
     = cursor near_edge_session
  /\ trace (state_of (_on_cursor_motion short_step near_edge_session))
     = motion_preamble short_step.
Proof.
  split; [vm_compute; reflexivity|].
  split; [vm_compute; reflexivity|].
  split; vm_compute; reflexivity.
Qed.

(** ** Scroll events *)




Example session_under_pointer :
  _under_pointer session = Ok (Some (panel, Some panel_surface, 10%Q, 10%Q)) session.
Proof. reflexivity. Qed.

Example session_new_wid : new_wid session = Ok 4 session.
Proof. vm_compute. reflexivity. Qed.

(** ** Exclusive-client mode: keyboard focus *)

Example shutdown_focus_none :
  focus_window None None true shutdown_session = Ok tt shutdown_session.
Proof. reflexivity. Qed.

(** C3, as stated, fails: once the seat is destroyed [focus_window] returns
    at its first test, and a call without a target clears nothing. *)
Lemma focus_window_exclusive_counterexample :
  ~ focus_window_exclusive_claim shutdown_session.
Proof.
  intros H. destruct (H lock_client eq_refl) as [_ H2].
  destruct (H2 None true) as (c' & evs & Hrun & Htr & Hin).
  rewrite shutdown_focus_none in Hrun. injection Hrun as <-.
  simpl in Htr. destruct evs; [destruct Hin | discriminate].
Qed.

(** C3, amended.  Under an exclusive client, [focus_window] with a target
    that is internal or not the client's returns and changes nothing;
    without a target, on a seat that has not been destroyed, it clears the
    seat's keyboard focus and does nothing else; on a destroyed seat it
    does nothing whatever the target. *)
Theorem focus_window_exclusive (c : Core) (client : Client) :
  exclusive_client c = Some client ->
  (forall w surface enter,
     withheld w client = true ->
     focus_window (Some w) surface enter c = Ok tt c)
  /\ (forall surface enter,
        destroyed (seat c) = false ->
        focus_window None surface enter c
        = Ok tt (set_trace (trace c ++ [KeyboardClearFocus])
                   (set_seat (set_keyboard_focused_surface None (seat c)) c)))
  /\ (forall win surface enter,
        destroyed (seat c) = true ->
        focus_window win surface enter c = Ok tt c).
Proof.
  intros He. split; [|split].
  - intros w surface enter Hw. unfold focus_window. unfold_monad.
    destruct (destroyed (seat c)); [reflexivity|].
    rewrite He, Hw. reflexivity.
  - intros surface enter Hd. unfold focus_window, keyboard_clear_focus.
    unfold_monad. rewrite Hd, He. reflexivity.
  - intros win surface enter Hd. unfold focus_window. unfold_monad.
    rewrite Hd. reflexivity.
Qed.

(** ** Exclusive-client mode: pointer focus *)

Example locked_focus_pointer :
  _focus_pointer 10 10 (Some 7) locked_session = Ok tt locked_session.
Proof. reflexivity. Qed.

(** C4, as stated, fails: when the withheld window is already the hovered
    one, [_focus_pointer] returns at once; the pointer focus is not cleared
    and the cursor image is not touched. *)
Lemma focus_pointer_exclusive_counterexample :
  ~ focus_pointer_exclusive_claim locked_session 10 10 (Some 7).
Proof.
  intros H.
  destruct (H lock_client term (Some term_surface) 8%Q 8%Q
              eq_refl eq_refl eq_refl)
    as (c' & evs & Hrun & Htr & _ & Hin & _).
  rewrite locked_focus_pointer in Hrun. injection Hrun as <-.
  simpl in Htr. destruct evs; [destruct Hin | discriminate].
Qed.

(** C4, amended.  Under an exclusive client, with a window under the
    pointer that is internal or not the client's, [_focus_pointer] returns
    without any pointer enter or motion notification; if that window is not
    already the hovered one, it restores the default cursor image, clears
    the seat's pointer focus and records the window as hovered, and nothing
    else; if it is already the hovered one, nothing is done. *)
Theorem focus_pointer_exclusive
  (c : Core) (client : Client) (win : Win)
  (surface : option Surface) (sx sy : Q) (cx cy : Z) (motion : option Z) :
  exclusive_client c = Some client ->
  _under_pointer c = Ok (Some (win, surface, sx, sy)) c ->
  withheld win client = true ->
  (opt_win_is (_hovered_window c) win = false ->
     _focus_pointer cx cy motion c
     = Ok tt
         (set_hovered_window (Some win)
            (set_trace
               (trace c ++ [SetCursorImage "left_ptr"; PointerNotifyClearFocus])
               (set_seat (set_pointer_focused_surface None (seat c)) c))))
  /\ (opt_win_is (_hovered_window c) win = true ->
      _focus_pointer cx cy motion c = Ok tt c)
  /\ exists evs,
       trace (state_of (_focus_pointer cx cy motion c)) = trace c ++ evs
       /\ Forall (fun e => ~ is_pointer_enter_or_motion e) evs.
Proof.
  intros He Hu Hw.
  assert (exists q, qtile c = Some q) as [q Hq].
  { destruct (qtile c) as [q|] eqn:Hq; [eauto|].
    unfold _under_pointer in Hu. unfold_monad. rewrite Hq in Hu.
    discriminate. }
  assert (opt_win_is (_hovered_window c) win = false ->
     _focus_pointer cx cy motion c
     = Ok tt
         (set_hovered_window (Some win)
            (set_trace
               (trace c ++ [SetCursorImage "left_ptr"; PointerNotifyClearFocus])
               (set_seat (set_pointer_focused_surface None (seat c)) c))))
    as H1.
  { intros Hh. unfold _focus_pointer, bind at 1 2. unfold assert_qtile.
    rewrite Hq, Hu. unfold set_cursor_image_left_ptr, pointer_notify_clear_focus.
    unfold_monad. rewrite He, Hw, Hh. simpl. f_equal.
    unfold set_hovered_window, set_trace, set_seat. simpl.
    rewrite <- app_assoc. reflexivity. }
  assert (opt_win_is (_hovered_window c) win = true ->
          _focus_pointer cx cy motion c = Ok tt c) as H2.
  { intros Hh. unfold _focus_pointer, bind at 1 2. unfold assert_qtile.
    rewrite Hq, Hu. unfold_monad. rewrite He, Hw, Hh. reflexivity. }
  split; [exact H1|]. split; [exact H2|].
  destruct (opt_win_is (_hovered_window c) win) eqn:Hh.
  - rewrite (H2 eq_refl). exists []. split; [|constructor].
    simpl. rewrite app_nil_r. reflexivity.
  - rewrite (H1 eq_refl). eexists. split; [reflexivity|].
    repeat constructor; simpl; tauto.
Qed.

(** ** Pointer constraints *)

Lemma prefix_of_two {A} (a b : A) (pre : list A) :
  pre `prefix_of` [a; b] -> pre = [] \/ pre = [a] \/ pre = [a; b].
Proof.
  intros [k Hk]. destruct pre as [|x [|y [|z pre]]]; simpl in Hk.
  - left. reflexivity.
  - right. left. congruence.
  - right. right. congruence.
  - discriminate.
Qed.

Lemma prefix_of_one {A} (a : A) (pre : list A) :
  pre `prefix_of` [a] -> pre = [] \/ pre = [a].
Proof.
  intros [k Hk]. destruct pre as [|x [|y pre]]; simpl in Hk.
  - left. reflexivity.
  - right. congruence.
  - discriminate.
Qed.

(** C5.  [_on_new_pointer_constraint] returns, and at every point of the
    call at most one constraint is active: starting from the constraint the
    core holds as active, after each prefix of the calls it makes at most
    one client has been told its constraint is active.  When the surface of
    the new constraint has the pointer focus, the constraint that was active
    is deactivated first and the new one is activated next, and is then the
    active one; otherwise nothing is activated or deactivated. *)
Theorem new_constraint_exclusive
  (c : Core) (wlr_constraint : PointerConstraintV1) :
  exists c' evs,
    _on_new_pointer_constraint wlr_constraint c = Ok tt c'
    /\ trace c' = trace c ++ evs
    /\ (forall pre, pre `prefix_of` evs ->
          (length (activated pre (active_ids c)) <= 1)%nat)
    /\ activated evs (active_ids c) = active_ids c'
    /\ (constraint_has_focus c wlr_constraint = true ->
        active_pointer_constraint c'
        = Some (PointerConstraint_new wlr_constraint)
        /\ evs = match active_pointer_constraint c with
                 | Some old => [ConstraintSendDeactivated (pc_id old)]
                 | None => []
                 end ++ [ConstraintSendActivated (wc_id wlr_constraint)])
    /\ (constraint_has_focus c wlr_constraint = false ->
        active_pointer_constraint c' = active_pointer_constraint c
        /\ evs = []).
Proof.
  unfold _on_new_pointer_constraint, PointerConstraint_enable,
    PointerConstraint_disable, constraint_has_focus, active_ids.
  unfold_monad. simpl.
  destruct (surface_eq _ _); simpl.
  - destruct (active_pointer_constraint c) as [old|]; simpl.
    + eexists.
      exists [ConstraintSendDeactivated (pc_id old);
              ConstraintSendActivated (wc_id wlr_constraint)].
      split; [reflexivity|]. simpl.
      split; [rewrite <- app_assoc; reflexivity|].
      rewrite Nat.eqb_refl. simpl.
      split; [|repeat split; congruence].
      intros pre Hpre.
      destruct (prefix_of_two _ _ _ Hpre) as [->|[->| ->]]; simpl;
        rewrite ?Nat.eqb_refl; simpl; lia.
    + eexists. exists [ConstraintSendActivated (wc_id wlr_constraint)].
      split; [reflexivity|]. simpl.
      split; [reflexivity|].
      split; [|repeat split; congruence].
      intros pre Hpre.
      destruct (prefix_of_one _ _ Hpre) as [->| ->]; simpl; lia.
  - eexists. exists []. split; [reflexivity|]. simpl.
    split; [rewrite app_nil_r; reflexivity|].
    split; [|repeat split; congruence].
    intros pre [k Hk]. destruct pre; [|discriminate]. simpl.
    destruct (active_pointer_constraint c); simpl; lia.
Qed.

(** ** Output configuration *)

Lemma keeps_ret {A} (a : A) : keeps_current (ret a).
Proof. intros c. exists a, c. split; [reflexivity | intros i; reflexivity]. Qed.

Lemma keeps_bind {A B} (m : M A) (k : A -> M B) :
  keeps_current m -> (forall a, keeps_current (k a)) -> keeps_current (bind m k).
Proof.
  intros Hm Hk c. destruct (Hm c) as (a & c1 & E1 & S1).
  destruct (Hk a c1) as (b & c2 & E2 & S2).
  exists b, c2. unfold bind. rewrite E1. split; [exact E2|].
  intros i. rewrite S2. apply S1.
Qed.

Lemma keeps_get : keeps_current get.
Proof. intros c. exists c, c. split; [reflexivity | intros i; reflexivity]. Qed.

Lemma keeps_emit (e : Event) : keeps_current (emit e).
Proof.
  intros c. eexists. eexists. split; [reflexivity | intros i; reflexivity].
Qed.

Lemma keeps_upd_wlr_output (o : nat) (f : WlrOutput -> WlrOutput) :
  (forall w, current (f w) = current w) -> keeps_current (upd_wlr_output o f).
Proof.
  intros Hf c. eexists. eexists. split; [reflexivity|].
  intros i. simpl. destruct (i =? o)%nat; [apply Hf | reflexivity].
Qed.

Lemma keeps_layout_add (o : nat) (x y : Z) : keeps_current (layout_add o x y).
Proof.
  intros c. eexists. eexists. split; [reflexivity | intros i; reflexivity].
Qed.

Lemma keeps_layout_remove (o : nat) : keeps_current (layout_remove o).
Proof.
  intros c. eexists. eexists. split; [reflexivity | intros i; reflexivity].
Qed.

Create HintDb keeps.
#[local] Hint Resolve keeps_ret keeps_get keeps_emit keeps_layout_add
  keeps_layout_remove : keeps.

Ltac keeps :=
  repeat first
    [ assumption
    | solve [auto with keeps]
    | apply keeps_upd_wlr_output; intros ?; reflexivity
    | apply keeps_bind; [|intros ?]
    | match goal with
      | |- keeps_current (if ?b then _ else _) => destruct b
      | |- keeps_current (match ?o with Some _ => _ | None => _ end) =>
          destruct o
      end ].

Lemma keeps_reconfigure_heads (heads : list HeadState) :
  keeps_current (reconfigure_heads heads).
Proof.
  induction heads as [|state rest IH]; simpl; [apply keeps_ret|].
  unfold wlr_enabled, wlr_enable, wlr_set_mode, wlr_set_custom_mode,
    wlr_set_pending_mode, wlr_set_transform, wlr_set_scale, wlr_test.
  keeps.
Qed.

Lemma keeps_rollback (apply : bool) (heads : list HeadState) :
  keeps_current (commit_or_rollback false apply heads).
Proof.
  induction heads as [|head rest IH]; simpl; [apply keeps_ret|].
  unfold wlr_rollback. keeps; exact IH.
Qed.

Lemma keeps_test_only (ok : bool) (heads : list HeadState) :
  keeps_current (commit_or_rollback ok false heads).
Proof.
  induction heads as [|head rest IH]; simpl; [apply keeps_ret|].
  rewrite andb_false_r. unfold wlr_rollback. keeps; exact IH.
Qed.

(** What the rollback does achieve: when a head is rejected, or when the
    configuration is only tested, the call returns and the committed state
    (enabled, mode, transform, scale) of every [wlr_output] is as before. *)
Lemma reconfigure_keeps_committed_state
  (config : list HeadState) (apply : bool) (c : Core) :
  exists ok c1 c',
    reconfigure_heads config c = Ok ok c1
    /\ _output_manager_reconfigure config apply c = Ok tt c'
    /\ (ok && apply = false -> same_current c c').
Proof.
  destruct (keeps_reconfigure_heads config c) as (ok & c1 & E1 & S1).
  unfold _output_manager_reconfigure, bind at 1. rewrite E1.
  assert (ok && apply = false ->
          keeps_current (commit_or_rollback ok apply config)) as Hk.
  { destruct ok; simpl; intros H; [subst apply; apply keeps_test_only|].
    apply keeps_rollback. }
  destruct (ok && apply) eqn:Hoa.
  - destruct ok; [|discriminate]. destruct apply; [|discriminate].
    assert (exists c2, commit_or_rollback true true config c1 = Ok tt c2)
      as [c2 E2].
    { clear. revert c1. induction config as [|h rest IH]; intros c1; simpl.
      - eexists. reflexivity.
      - unfold bind at 1. unfold wlr_commit, upd_wlr_output. unfold_monad.
        apply IH. }
    exists true, c1. eexists. split; [reflexivity|].
    unfold bind at 1. rewrite E2. split; [reflexivity | discriminate].
  - destruct (Hk eq_refl c1) as ([] & c2 & E2 & S2).
    destruct ok; (eexists; exists c1; eexists; split; [reflexivity|]);
      unfold bind at 1; rewrite E2; (split; [reflexivity|]);
      intros _ i; simpl; rewrite S2; apply S1.
Qed.

(** C2, at a failing input.  The configuration is applied, its only head
    fails the test: the head is rolled back, nothing is committed, the
    client is told of the failure, the committed state of the output is as
    before; but [output_layout.add] has already moved the output, and it
    stays at x = 100. *)
Theorem reconfigure_rejected_layout_changed :
  exists c',
    _output_manager_reconfigure [rejected_head] true session = Ok tt c'
    /\ trace c'
       = [OutputSetCustomMode 0 1280 720 60000; LayoutAdd 0 100 0;
          OutputSetTransform 0 0; OutputSetScale 0 1%Q; OutputTest 0;
          OutputRollback 0; ConfigSendFailed; ConfigDestroy;
          HookFire "screen_change" None]
    /\ current (wlr_outputs c' 0%nat) = current (wlr_outputs session 0%nat)
    /\ output_layout session = [(0%nat, (0, 0)); (1%nat, (1920, 0))]
    /\ output_layout c' = [(0%nat, (100, 0)); (1%nat, (1920, 0))].
Proof.
  exists (state_of (_output_manager_reconfigure [rejected_head] true session)).
  split; [vm_compute; reflexivity|].
  split; [vm_compute; reflexivity|].
  split; [vm_compute; reflexivity|].
  split; vm_compute; reflexivity.
Qed.

(** The same head with a mode the backend accepts, in a test-only call:
    the client is told of success, nothing is committed, and the output has
    moved all the same. *)
Example reconfigure_test_only_layout_changed :
  let head :=
    {| hs_output := 0; hs_enabled := true;
       hs_mode := Some {| mode_width := 1280; mode_height := 720;
                          mode_refresh := 60000 |};
       hs_custom_mode :=
         {| mode_width := 1280; mode_height := 720; mode_refresh := 60000 |};
       hs_x := 100; hs_y := 0; hs_transform := 0; hs_scale := 1%Q |} in
  exists c',
    _output_manager_reconfigure [head] false session = Ok tt c'
    /\ In ConfigSendSucceeded (trace c')
    /\ In (OutputRollback 0) (trace c')
    /\ output_layout c' = [(0%nat, (100, 0)); (1%nat, (1920, 0))].
Proof.
  intros head.
  exists (state_of (_output_manager_reconfigure [head] false session)).
  split; [vm_compute; reflexivity|].
  split; [vm_compute; tauto|].
  split; [vm_compute; tauto|].
  vm_compute; reflexivity.
Qed.

(** ** The theorems at work on the small session *)

Lemma under_pointer_topmost_witness :
  qtile session = Some manager
  /\ exists found, _under_pointer session = Ok found session /\ found <> None.
Proof.
  split; [reflexivity|].
  destruct (under_pointer_topmost session manager eq_refl)
    as (found & Hrun & _ & _ & Hov).
  exists found. split; [exact Hrun|].
  assert (window_contains panel (cursor session).1 (cursor session).2) as Hc.
  { left. vm_compute. discriminate. }
  destruct (Hov left_output panel eq_refl eq_refl (or_introl eq_refl) Hc)
    as (win & surface & sx & sy & below & above & -> & _).
  discriminate.
Defined.

Lemma stack_windows_composited_witness :
  present term (mapped_windows session) = true
  /\ exists c' rest,
       stack_windows (Some term) session = Ok tt c'
       /\ mapped_windows c' = rest ++ [term].
Proof.
  split; [reflexivity|].
  destruct (stack_windows_composited session (Some term)) as (_ & _ & H & _).
  destruct (H term eq_refl eq_refl) as (c' & rest & Hrun & Hm & _).
  exists c', rest. split; assumption.
Defined.

Lemma remove_output_reassigns_witness :
  NoDup (map out_id (outputs session))
  /\ out_present left_output (outputs session) = true
  /\ exists c',
       remove_output left_output session = Ok tt c'
       /\ _current_output c' = head (outputs c')
       /\ output_layout c' = [(1%nat, (1920, 0))].
Proof.
  assert (NoDup (map out_id (outputs session))) as Hnd.
  { apply (bool_decide_unpack _). vm_compute. exact I. }
  split; [exact Hnd|]. split; [reflexivity|].
  destruct (remove_output_reassigns session left_output Hnd eq_refl)
    as (c' & Hrun & _ & _ & _ & Hlay & Hcur & _).
  exists c'. split; [exact Hrun|].
  split; [apply Hcur; reflexivity | exact Hlay].
Defined.

Lemma new_wid_fresh_witness :
  qtile session = Some manager
  /\ exists w, new_wid session = Ok w session
               /\ windows_map manager !! w = None.
Proof.
  split; [reflexivity|].
  destruct (new_wid_fresh session manager eq_refl) as (w & Hrun & _ & Hn & _).
  exists w. split; assumption.
Defined.

Lemma constrained_motion_dropped_witness :
  active_pointer_constraint confined_session = Some game_constraint
  /\ contains_float_point (rect game_constraint)
       (float_add (cursor confined_session).1 (delta_x far_right))
       (float_add (cursor confined_session).2 (delta_y far_right)) = false
  /\ cursor (state_of (_on_cursor_motion far_right confined_session))
     = cursor confined_session.
Proof.
  assert (contains_float_point (rect game_constraint)
            (float_add (cursor confined_session).1 (delta_x far_right))
            (float_add (cursor confined_session).2 (delta_y far_right))
          = false) as Hout by (vm_compute; reflexivity).
  split; [reflexivity|]. split; [exact Hout|].
  destruct (constrained_motion_dropped confined_session far_right
              game_constraint eq_refl Hout) as (_ & H & _).
  exact H.
Defined.


Lemma focus_window_exclusive_witness :
  exclusive_client locker_session = Some lock_client
  /\ withheld term lock_client = true
  /\ destroyed (seat locker_session) = false
  /\ focus_window (Some term) None true locker_session = Ok tt locker_session
  /\ exists c',
       focus_window None None true locker_session = Ok tt c'
       /\ trace c' = [KeyboardClearFocus].
Proof.
  split; [reflexivity|]. split; [reflexivity|]. split; [reflexivity|].
  destruct (focus_window_exclusive locker_session lock_client eq_refl)
    as (H1 & H2 & _).
  split; [apply H1; reflexivity|].
  eexists. split; [apply H2; reflexivity | reflexivity].
Defined.

Lemma focus_pointer_exclusive_witness :
  exclusive_client locker_session = Some lock_client
  /\ _under_pointer locker_session
     = Ok (Some (term, Some term_surface, 8%Q, 8%Q)) locker_session
  /\ withheld term lock_client = true
  /\ opt_win_is (_hovered_window locker_session) term = false
  /\ exists c',
       _focus_pointer 10 10 (Some 7) locker_session = Ok tt c'
       /\ trace c' = [SetCursorImage "left_ptr"; PointerNotifyClearFocus].
Proof.
  split; [reflexivity|]. split; [reflexivity|]. split; [reflexivity|].
  split; [reflexivity|].
  destruct (focus_pointer_exclusive locker_session lock_client term
              (Some term_surface) 8%Q 8%Q 10 10 (Some 7)
              eq_refl eq_refl eq_refl) as (H1 & _).
  eexists. split; [apply H1; reflexivity | reflexivity].
Defined.

Lemma new_constraint_exclusive_witness :
  constraint_has_focus confined_session second_constraint = true
  /\ exists c',
       _on_new_pointer_constraint second_constraint confined_session = Ok tt c'
       /\ trace c' = [ConstraintSendDeactivated 7; ConstraintSendActivated 8]
       /\ active_ids c' = [8%nat].
Proof.
  split; [reflexivity|].
  destruct (new_constraint_exclusive confined_session second_constraint)
    as (c' & evs & Hrun & Htr & _ & Hact & Hfocus & _).
  destruct (Hfocus eq_refl) as [Ha He].
  exists c'. split; [exact Hrun|]. split.
  - rewrite Htr, He. reflexivity.
  - unfold active_ids. rewrite Ha. reflexivity.
Defined.

(** * Further properties *)

(** ** The pointer router *)

Ltac case_conditions :=
  repeat match goal with
         | |- context [if negb ?b then _ else _] => destruct b eqn:?; simpl
         | |- context [if ?b then _ else _] => destruct b eqn:?; simpl
         | |- context [match ?o with Some _ => _ | None => _ end] =>
             destruct o eqn:?; simpl
         end.

Ltac trace_grows :=
  simpl; rewrite <- ?app_assoc; simpl;
  first [reflexivity | symmetry; apply app_nil_r].

Lemma motion_decide_Some (t : Z) : bool_decide (Some t <> None) = true.
Proof. apply bool_decide_eq_true_2. discriminate. Qed.

Lemma motion_decide_None : bool_decide (@None Z <> None) = false.
Proof. apply bool_decide_eq_false_2. intros H. apply H. reflexivity. Qed.

Lemma focus_pointer_run (c : Core) (q : Qtile) (cx cy : Z) (motion : option Z) :
  qtile c = Some q ->
  exists c' evs,
    _focus_pointer cx cy motion c = Ok tt c'
    /\ trace c' = trace c ++ evs
    /\ same_but_pointer c c'
    /\ match hit_test c with
       | Some f => opt_win_is (_hovered_window c') f.1.1.1 = true
       | None => _hovered_window c' = None
       end
    /\ (motion = None -> Forall (fun e => ~ is_motion_effect e) evs)
    /\ (Forall (fun e => ~ is_focus_request e) evs -> same_keyboard c c').
Proof.
  intros Hq. unfold _focus_pointer, bind at 1 2. unfold assert_qtile.
  rewrite Hq, (under_pointer_run c q Hq). fold (hit_test c).
  unfold focus_pointer_internal, hover_enter, leave_client_surface,
    set_cursor_image_left_ptr, pointer_notify_clear_focus,
    pointer_notify_enter, pointer_notify_motion, same_but_pointer.
  unfold_monad.
  destruct motion as [t|];
    rewrite ?motion_decide_Some, ?motion_decide_None;
    (destruct (hit_test c) as [[[[win surface] sx] sy]|]; simpl);
    case_conditions;
    (eexists; eexists; split; [reflexivity|]);
    (split; [trace_grows|]);
    (split; [simpl; repeat (split; [reflexivity|]); reflexivity|]);
    (split; [simpl; rewrite ?win_is_refl;
            solve [reflexivity | assumption | congruence]|]);
    (split; [solve [discriminate
                   | intros _; repeat constructor; simpl; tauto]|]);
    intros _; split; reflexivity.
Qed.

(** X1.  With the manager attached, [_focus_pointer] returns, and
    afterwards the hovered window is the window that the hit test finds
    under the cursor, or none when it finds none.  Of the core's state the
    call itself writes the hovered window and the pointer focus of the
    seat only; the keyboard focus of the seat and the focused internal
    window are as before when the call has sent no focus request to the
    window manager, and nothing is said of them when it has. *)
Theorem focus_pointer_tracks_hit
  (c : Core) (q : Qtile) (cx cy : Z) (motion : option Z) :
  qtile c = Some q ->
  exists c' evs,
    _focus_pointer cx cy motion c = Ok tt c'
    /\ match hit_test c with
       | Some (win, _, _, _) => opt_win_is (_hovered_window c') win = true
       | None => _hovered_window c' = None
       end
    /\ same_but_pointer c c'
    /\ trace c' = trace c ++ evs
    /\ (Forall (fun e => ~ is_focus_request e) evs -> same_keyboard c c').
Proof.
  intros Hq.
  destruct (focus_pointer_run c q cx cy motion Hq)
    as (c' & evs & Hrun & Htr & Hsame & Hhit & _ & Hkey).
  exists c', evs. split; [exact Hrun|]. split.
  { destruct (hit_test c) as [[[[win surface] sx] sy]|]; exact Hhit. }
  split; [exact Hsame|]. split; [exact Htr | exact Hkey].
Qed.

(** X2.  A call of [_focus_pointer] without a motion time (a recomputation
    of the pointer focus, not a motion of the pointer) never sends a motion
    notification to a client or to an internal window, and never asks the
    window manager to focus a screen or a window. *)
Theorem focus_pointer_synthetic_quiet (c : Core) (cx cy : Z) :
  exists evs,
    trace (state_of (_focus_pointer cx cy None c)) = trace c ++ evs
    /\ Forall (fun e => ~ is_motion_effect e) evs.
Proof.
  destruct (qtile c) as [q|] eqn:Hq.
  - destruct (focus_pointer_run c q cx cy None Hq)
      as (c' & evs & Hrun & Htr & _ & _ & Hquiet & _).
    exists evs. rewrite Hrun. split; [exact Htr | apply Hquiet; reflexivity].
  - exists []. unfold _focus_pointer, bind at 1. unfold assert_qtile.
    rewrite Hq. simpl. split; [symmetry; apply app_nil_r | constructor].
Qed.

(** X3.  When the body of a [masked] block returns, with the manager
    attached, the block returns too, and on leaving it the hovered window
    is the window under the cursor in the stacking order that the body has
    left (none if there is none there); what the block adds to the body's
    calls contains no motion notification and no focus request to the
    window manager. *)
Theorem masked_resynchronises
  (body : M unit) (c c1 : Core) (q : Qtile) :
  body c = Ok tt c1 ->
  qtile c1 = Some q ->
  exists c' evs,
    masked body c = Ok tt c'
    /\ hit_test c' = hit_test c1
    /\ match hit_test c' with
       | Some (win, _, _, _) => opt_win_is (_hovered_window c') win = true
       | None => _hovered_window c' = None
       end
    /\ trace c' = trace c1 ++ evs
    /\ Forall (fun e => ~ is_motion_effect e) evs.
Proof.
  intros Hbody Hq.
  destruct (focus_pointer_run c1 q (int (fst (cursor c1)))
              (int (snd (cursor c1))) None Hq)
    as (c' & evs & Hrun & Htr & Hsame & Hhit & Hquiet & _).
  exists c', evs.
  assert (hit_test c' = hit_test c1) as Heq.
  { unfold hit_test. unfold same_but_pointer in Hsame.
    destruct Hsame as (_ & _ & -> & _ & _ & _ & _ & -> & _).
    reflexivity. }
  split.
  { unfold masked, bind at 1. rewrite Hbody. unfold bind, get. exact Hrun. }
  split; [exact Heq|]. rewrite Heq.
  split; [|split; [exact Htr | apply Hquiet; reflexivity]].
  destruct (hit_test c1) as [[[[win surface] sx] sy]|]; exact Hhit.
Qed.

(** X4.  With the manager attached, [_process_cursor_motion] returns.  With
    at most one output it never changes the current output or the stacking
    order.  With several outputs, the current output afterwards is the
    output that the layout finds at the given position, when it finds one;
    if that is another output than before, [stacked_windows] has been
    rebuilt for it; if the layout finds none, nothing of this changes.  The
    regular windows and the cursor are as before in every case. *)
Theorem process_cursor_motion_tracks_output
  (c : Core) (q : Qtile) (time_msec : Z) (cx cy : Q) :
  qtile c = Some q ->
  exists c',
    _process_cursor_motion time_msec cx cy c = Ok tt c'
    /\ mapped_windows c' = mapped_windows c
    /\ cursor c' = cursor c
    /\ ((length (outputs c) <= 1)%nat ->
        _current_output c' = _current_output c
        /\ stacked_windows c' = stacked_windows c)
    /\ ((1 < length (outputs c))%nat ->
        match output_at (wlroots c) (output_layout c) cx cy with
        | Some o =>
            if match _current_output c with
               | Some cur => output_is cur o
               | None => false
               end
            then _current_output c' = _current_output c
                 /\ stacked_windows c' = stacked_windows c
            else _current_output c' = Some o
                 /\ stacked_windows c' = composited c'
        | None =>
            _current_output c' = _current_output c
            /\ stacked_windows c' = stacked_windows c
        end).
Proof.
  intros Hq. unfold _process_cursor_motion, bind at 1. unfold assert_qtile.
  rewrite Hq. unfold bind at 1. unfold get.
  assert (forall c1 : Core,
            qtile c1 = Some q ->
            exists c',
              _focus_pointer (int cx) (int cy) (Some time_msec) c1 = Ok tt c'
              /\ mapped_windows c' = mapped_windows c1
              /\ cursor c' = cursor c1
              /\ _current_output c' = _current_output c1
              /\ stacked_windows c' = stacked_windows c1) as Hfp.
  { intros c1 Hq1.
    destruct (focus_pointer_run c1 q (int cx) (int cy) (Some time_msec) Hq1)
      as (c' & evs & Hrun & _ & Hsame & _).
    destruct Hsame as (_ & Hm & Hs & Ho & _ & _ & _ & Hc & _).
    exists c'. repeat (split; [assumption|]). assumption. }
  unfold composited.
  destruct (1 <? length (outputs c))%nat eqn:Hn;
    [apply Nat.ltb_lt in Hn | apply Nat.ltb_ge in Hn];
    [destruct (output_at (wlroots c) (output_layout c) cx cy) as [o|];
     [destruct (_current_output c) as [cur|] eqn:Hcur;
      [destruct (output_is cur o) eqn:Hco|]|]|];
    unfold stack_windows; unfold_monad; simpl; rewrite ?Hcur; simpl;
    rewrite ?Hco; simpl;
    destruct (exclusive_client c); simpl;
    destruct (live_dnd c); simpl;
    match goal with
    | |- context [_focus_pointer ?a ?b ?m ?c1] =>
        destruct (Hfp c1 Hq) as (c' & Hrun & Hm & Hc & Ho & Hs)
    end;
    exists c'; (split; [exact Hrun|]);
    rewrite Hm, Hc, Ho, Hs; simpl;
    (split; [reflexivity|]); (split; [reflexivity|]);
    (split; intros Hlen; try lia;
     try (split; solve [reflexivity | assumption])).
Qed.

(** ** Stacking and hit testing together *)

Lemma list_remove_gone (w : Win) (l r : list Win) :
  NoDup (map wid l) -> list_remove w l = Some r -> present w r = false.
Proof.
  unfold present. revert r. induction l as [|v l IH]; simpl; intros r Hnd;
    [discriminate|].
  apply NoDup_cons in Hnd. destruct Hnd as [Hv Hnd].
  destruct (win_is v w) eqn:E.
  - intros [= <-]. apply Nat.eqb_eq in E.
    destruct (existsb (fun v0 => win_is v0 w) l) eqn:Hex; [|reflexivity].
    exfalso. apply Hv. apply existsb_exists in Hex.
    destruct Hex as (u & Hu & Huw). apply Nat.eqb_eq in Huw.
    rewrite E, <- Huw. apply list_elem_of_In, in_map, Hu.
  - destruct (list_remove w l) as [r'|]; [|discriminate].
    intros [= <-]. simpl. rewrite E. simpl. apply IH; [exact Hnd|reflexivity].
Qed.

Lemma list_remove_last (w : Win) (l : list Win) :
  present w l = false -> list_remove w (l ++ [w]) = Some l.
Proof.
  unfold present. induction l as [|v l IH]; simpl.
  - rewrite win_is_refl. reflexivity.
  - destruct (win_is v w); simpl; [discriminate|].
    intros H. rewrite (IH H). reflexivity.
Qed.

(** X5.  Bringing a window to the front twice is the same as doing it
    once: on regular windows that are distinct objects, a second
    [stack_windows] with the same restack target returns the state that the
    first one has left. *)
Theorem restack_idempotent (c : Core) (w : Win) :
  NoDup (map wid (mapped_windows c)) ->
  present w (mapped_windows c) = true ->
  exists c1,
    stack_windows (Some w) c = Ok tt c1
    /\ stack_windows (Some w) c1 = Ok tt c1.
Proof.
  intros Hnd Hp. destruct (list_remove_present w _ Hp) as [r Hr].
  pose proof (list_remove_gone w _ r Hnd Hr) as Hgone.
  eexists. split; [apply (stack_windows_Some c w r Hr)|].
  erewrite stack_windows_Some; [|simpl; apply list_remove_last, Hgone].
  unfold composited. simpl. destruct (_current_output c); reflexivity.
Qed.

Lemma under_pointer_loop_none (l : list Win) (cx cy : Q) :
  Forall (fun v => ~ window_contains v cx cy) l ->
  under_pointer_loop l cx cy = None.
Proof.
  induction 1 as [|v l Hv _ IH]; simpl; [reflexivity|].
  destruct (under_pointer_body v cx cy) eqn:E; [|exact IH].
  exfalso. apply Hv, under_pointer_body_contains. congruence.
Qed.

(** X6.  A window that has just been brought to the front is the one the
    hit test finds: if it contains the cursor position and no window of the
    top or overlay layer of the current output does, [_under_pointer]
    after [stack_windows] with that restack target returns that window. *)
Theorem raised_window_is_hit (c : Core) (q : Qtile) (w : Win) :
  qtile c = Some q ->
  present w (mapped_windows c) = true ->
  window_contains w (cursor c).1 (cursor c).2 ->
  (forall o, _current_output c = Some o ->
     Forall (fun v => ~ window_contains v (cursor c).1 (cursor c).2)
       (layer_TOP o ++ layer_OVERLAY o)) ->
  exists c' surface sx sy,
    stack_windows (Some w) c = Ok tt c'
    /\ _under_pointer c' = Ok (Some (w, surface, sx, sy)) c'.
Proof.
  intros Hq Hp Hc Habove. destruct (list_remove_present w _ Hp) as [r Hr].
  rewrite (stack_windows_Some c w r Hr).
  apply under_pointer_body_contains in Hc.
  destruct (under_pointer_body w (cursor c).1 (cursor c).2)
    as [[[[w' surface] sx] sy]|] eqn:Hbody; [|congruence].
  pose proof (under_pointer_body_win _ _ _ _ Hbody) as Hw. simpl in Hw.
  subst w'.
  eexists. exists surface, sx, sy. split; [reflexivity|].
  erewrite under_pointer_run; [|simpl; exact Hq].
  simpl. f_equal. f_equal. unfold composited. simpl.
  destruct (_current_output c) as [o|] eqn:Ho.
  - specialize (Habove o eq_refl).
    replace (layer_BACKGROUND o ++ layer_BOTTOM o ++ (r ++ [w])
             ++ layer_TOP o ++ layer_OVERLAY o)
      with ((layer_BACKGROUND o ++ layer_BOTTOM o ++ r)
            ++ [w] ++ (layer_TOP o ++ layer_OVERLAY o))
      by (rewrite <- !app_assoc; reflexivity).
    rewrite !rev_app_distr, <- app_assoc, under_pointer_loop_app.
    rewrite under_pointer_loop_none.
    + simpl. rewrite Hbody. reflexivity.
    + apply Forall_forall. intros v Hv. rewrite Forall_forall in Habove.
      apply Habove. apply list_elem_of_In. apply list_elem_of_In in Hv.
      rewrite <- rev_app_distr in Hv. apply in_rev in Hv. exact Hv.
  - rewrite rev_app_distr. simpl. rewrite Hbody. reflexivity.
Qed.

(** ** Window identifiers, one after the other *)

(** X7.  Once the identifier that [new_wid] has returned is a key of the
    window map, the next call returns its successor. *)
Theorem new_wid_successor
  (c c2 : Core) (q q2 : Qtile) (w : Z) (win : Win) :
  qtile c = Some q ->
  qtile c2 = Some q2 ->
  new_wid c = Ok w c ->
  windows_map q2 = <[w := win]> (windows_map q) ->
  new_wid c2 = Ok (w + 1) c2.
Proof.
  intros Hq Hq2 Hw Hm. unfold new_wid in *. unfold_monad.
  rewrite Hq in Hw. rewrite Hq2. injection Hw as Hw. f_equal. f_equal.
  destruct (py_max_spec (map_to_list (windows_map q)).*1 0) as (_ & _ & Hge).
  destruct (py_max_spec (map_to_list (windows_map q2)).*1 0)
    as (_ & Hin2 & Hge2).
  assert (In w (map_to_list (windows_map q2)).*1) as Hwin.
  { apply windows_map_keys. rewrite Hm, lookup_insert_eq. eauto. }
  assert ((map_to_list (windows_map q2)).*1 <> []) as Hne.
  { intros E. rewrite E in Hwin. destruct Hwin. }
  specialize (Hin2 Hne). apply windows_map_keys in Hin2.
  apply Hge2 in Hwin.
  remember (py_max (map_to_list (windows_map q2)).*1 0) as k2 eqn:Hk2.
  clear Hk2 Hge2 Hne.
  rewrite Hm in Hin2. destruct Hin2 as [x Hx].
  destruct (decide (w = k2)) as [E|E]; [exact (eq_sym E)|].
  rewrite lookup_insert_ne in Hx by exact E.
  assert (In k2 (map_to_list (windows_map q)).*1) as Hold.
  { apply windows_map_keys. eauto. }
  apply Hge in Hold. lia.
Qed.

(** ** Keyboard focus *)

Ltac case_all :=
  repeat match goal with
         | |- context [match ?x with _ => _ end] =>
             lazymatch type of x with
             | Result _ => fail
             | _ => destruct x eqn:?; simpl
             end
         end.

Ltac unfold_focus_window :=
  unfold focus_window, focus_window_allowed, activate_new,
    deactivate_previous, flag_and_surface_is, ftm_set_activated,
    get_surface, keyboard_clear_focus, keyboard_notify_enter;
  unfold_monad.

(** X8.  Keyboard input keeps one destination through [focus_window]: if,
    before the call, no client surface has the seat's keyboard focus while
    an internal window is the focused one, the same holds in the state the
    call leaves, however it ends. *)
Theorem focus_window_one_keyboard_target
  (c : Core) (win : option Win) (surface : option Surface) (enter : bool) :
  one_keyboard_target c ->
  one_keyboard_target (state_of (focus_window win surface enter c)).
Proof.
  intros Hinv. unfold_focus_window. unfold one_keyboard_target in *.
  destruct win as [w|]; destruct surface as [s|]; simpl; case_all;
    intros Hf;
    first [ reflexivity | congruence | exfalso; apply Hf; reflexivity
          | apply Hinv; congruence ].
Qed.

(** X9.  Focus passes from one xdg surface to another in this order: the
    surface that had the keyboard is deactivated (and the window behind it
    told so), then the new window's surface is activated (and its foreign
    toplevel handle, if it has one), then the seat is told to enter the new
    surface.  Afterwards that surface has the seat's keyboard focus and no
    internal window is the focused one. *)
Theorem focus_window_handover (c : Core) (win : Win) (s p : Surface) :
  destroyed (seat c) = false ->
  match exclusive_client c with
  | Some client => belongs_to_client win client = true
  | None => True
  end ->
  win_class win = CXdgWindow ->
  win_surface win = Some (XdgSurface s) ->
  is_xdg_surface s = true ->
  keyboard_focused_surface (seat c) = Some p ->
  is_xdg_surface p = true ->
  surf_id p <> surf_id s ->
  keyboard_ptr_null (seat c) = false ->
  exists c',
    focus_window (Some win) None true c = Ok tt c'
    /\ trace c'
       = trace c
         ++ [XdgSetActivated (surf_id p) false]
         ++ match surf_data p with
            | Some d => [WindowSetActivated d false]
            | None => []
            end
         ++ [XdgSetActivated (surf_id s) true]
         ++ (if ftm_handle win then [FtmSetActivated (wid win) true] else [])
         ++ [KeyboardNotifyEnter s]
    /\ keyboard_focused_surface (seat c') = Some s
    /\ focused_internal c' = None.
Proof.
  intros Hd He Hk Hs Hxs Hp Hxp Hne Hkb.
  assert (Nat.eqb (surf_id p) (surf_id s) = false) as Hne1
    by (apply Nat.eqb_neq; exact Hne).
  assert (Nat.eqb (surf_id s) (surf_id p) = false) as Hne2
    by (apply Nat.eqb_neq; congruence).
  unfold_focus_window. unfold withheld. rewrite Hd, Hk.
  destruct (exclusive_client c) as [client|]; rewrite ?He; simpl;
    rewrite Hs; simpl;
    destruct (focused_internal c) eqn:Hfi; simpl;
    rewrite Hp; simpl; rewrite Hne1, Hxp; simpl; rewrite Hne2; simpl;
    destruct (surf_data p); simpl; rewrite Hxs; simpl;
    destruct (ftm_handle win); simpl; rewrite Hkb; simpl;
    (eexists; split; [reflexivity|]); simpl;
    rewrite <- ?app_assoc; simpl;
    (split; [reflexivity|]); (split; [reflexivity|]);
    solve [reflexivity | assumption].
Qed.


(** ** Output configuration, from request to verdict *)

Lemma grows_by_refl (P : Event -> Prop) (c : Core) : grows_by P c c.
Proof. exists []. split; [symmetry; apply app_nil_r | constructor]. Qed.

Lemma grows_by_trans (P : Event -> Prop) (c1 c2 c3 : Core) :
  grows_by P c1 c2 -> grows_by P c2 c3 -> grows_by P c1 c3.
Proof.
  intros (e1 & H1 & F1) (e2 & H2 & F2). exists (e1 ++ e2).
  split; [rewrite H2, H1, app_assoc; reflexivity|].
  apply Forall_app. split; assumption.
Qed.

Section Steps.
Variable R : Core -> Core -> Prop.
Hypothesis R_refl : forall c, R c c.
Hypothesis R_trans : forall c1 c2 c3, R c1 c2 -> R c2 c3 -> R c1 c3.

Lemma steps_ret {A} (a : A) : steps R (ret a).
Proof. intros c. exists a, c. split; [reflexivity | apply R_refl]. Qed.

Lemma steps_get : steps R get.
Proof. intros c. exists c, c. split; [reflexivity | apply R_refl]. Qed.

Lemma steps_bind {A B} (m : M A) (k : A -> M B) :
  steps R m -> (forall a, steps R (k a)) -> steps R (bind m k).
Proof.
  intros Hm Hk c. destruct (Hm c) as (a & c1 & E1 & S1).
  destruct (Hk a c1) as (b & c2 & E2 & S2).
  exists b, c2. unfold bind. rewrite E1.
  split; [exact E2 | exact (R_trans _ _ _ S1 S2)].
Qed.

Lemma steps_modify (f : Core -> Core) :
  (forall c, R c (f c)) -> steps R (modify f).
Proof. intros Hf c. exists tt, (f c). split; [reflexivity | apply Hf]. Qed.
End Steps.

Lemma configures_emit (e : Event) :
  is_configure e -> steps (grows_by is_configure) (emit e).
Proof.
  intros He. apply steps_modify. intros c. exists [e].
  split; [reflexivity | repeat constructor; exact He].
Qed.

Lemma configures_silent (f : Core -> Core) :
  (forall c, trace (f c) = trace c) ->
  steps (grows_by is_configure) (modify f).
Proof.
  intros Hf. apply steps_modify. intros c. exists [].
  split; [rewrite Hf; symmetry; apply app_nil_r | constructor].
Qed.

Ltac configures :=
  repeat first
    [ assumption
    | apply steps_ret; apply grows_by_refl
    | apply steps_get; apply grows_by_refl
    | apply configures_emit; exact I
    | apply configures_silent; intros ?; reflexivity
    | apply steps_bind; [apply grows_by_trans | | intros ?]
    | match goal with
      | |- steps _ (if ?b then _ else _) => destruct b
      | |- steps _ (match ?o with Some _ => _ | None => _ end) => destruct o
      end ].

Lemma configures_reconfigure_heads (heads : list HeadState) :
  steps (grows_by is_configure) (reconfigure_heads heads).
Proof.
  induction heads as [|state rest IH]; simpl;
    [apply steps_ret; apply grows_by_refl|].
  unfold wlr_enabled, wlr_enable, wlr_set_mode, wlr_set_custom_mode,
    wlr_set_pending_mode, wlr_set_transform, wlr_set_scale, wlr_test,
    layout_add, layout_remove, upd_wlr_output.
  configures.
Qed.

Lemma commit_or_rollback_trace (b : bool) (heads : list HeadState) (c : Core) :
  exists c',
    commit_or_rollback b b heads c = Ok tt c'
    /\ trace c'
       = trace c
         ++ map (fun h => if b then OutputCommit (hs_output h)
                          else OutputRollback (hs_output h)) heads.
Proof.
  revert c. induction heads as [|h rest IH]; intros c; simpl.
  - exists c. split; [reflexivity | symmetry; apply app_nil_r].
  - unfold bind at 1.
    destruct b; simpl; unfold wlr_commit, wlr_rollback, upd_wlr_output;
      unfold_monad; simpl;
      match goal with
      | |- context [commit_or_rollback _ _ rest ?c1] =>
          destruct (IH c1) as (c' & E & T)
      end;
      exists c'; (split; [exact E|]); rewrite T; simpl;
      rewrite <- app_assoc; reflexivity.
Qed.

(** X11.  Every call of [_output_manager_reconfigure] returns and goes
    through the same phases.  The first loop only configures and tests
    outputs.  Then each head gets one call, in the order of the heads: a
    commit for every head when all tests have passed and the configuration
    is to be applied, a rollback for every head otherwise.  Then the client
    gets one verdict, success exactly when all tests have passed; the
    configuration is destroyed; and the [screen_change] hook is fired, also
    after a failure or a mere test. *)
Theorem reconfigure_phases (config : list HeadState) (apply : bool) (c : Core) :
  exists ok c1 c' evs,
    reconfigure_heads config c = Ok ok c1
    /\ trace c1 = trace c ++ evs
    /\ Forall is_configure evs
    /\ _output_manager_reconfigure config apply c = Ok tt c'
    /\ trace c'
       = trace c1
         ++ map (fun h => if ok && apply then OutputCommit (hs_output h)
                          else OutputRollback (hs_output h)) config
         ++ [if ok then ConfigSendSucceeded else ConfigSendFailed;
             ConfigDestroy; HookFire "screen_change" None].
Proof.
  destruct (configures_reconfigure_heads config c)
    as (ok & c1 & E1 & evs & T1 & F1).
  exists ok, c1.
  assert (exists c2,
            commit_or_rollback ok apply config c1 = Ok tt c2
            /\ trace c2
               = trace c1
                 ++ map (fun h => if ok && apply
                                  then OutputCommit (hs_output h)
                                  else OutputRollback (hs_output h)) config)
    as (c2 & E2 & T2).
  { destruct ok, apply; simpl.
    - apply (commit_or_rollback_trace true).
    - destruct (commit_or_rollback_trace false config c1) as (c2 & E & T).
      exists c2. split; [|exact T].
      rewrite <- E. clear. revert c1.
      induction config as [|h rest IH]; intros c1; simpl; [reflexivity|].
      unfold bind. destruct (wlr_rollback (hs_output h) c1); [apply IH|].
      reflexivity.
    - destruct (commit_or_rollback_trace false config c1) as (c2 & E & T).
      exists c2. split; [|exact T].
      rewrite <- E. clear. revert c1.
      induction config as [|h rest IH]; intros c1; simpl; [reflexivity|].
      unfold bind. destruct (wlr_rollback (hs_output h) c1); [apply IH|].
      reflexivity.
    - apply (commit_or_rollback_trace false). }
  unfold _output_manager_reconfigure, bind at 1. rewrite E1.
  unfold bind at 1. rewrite E2.
  destruct ok; unfold_monad; simpl;
    (eexists; exists evs; split; [reflexivity|]);
    (split; [exact T1|]); (split; [exact F1|]);
    (split; [reflexivity|]); simpl;
    rewrite T2, <- !app_assoc; reflexivity.
Qed.

(** ** Output configuration, applied *)

Lemma layout_position_add_eq (l : list (nat * (Z * Z))) (o : nat) (x y : Z) :
  layout_position
    (if existsb (fun e => Nat.eqb (fst e) o) l
     then map (fun e => if Nat.eqb (fst e) o then (o, (x, y)) else e) l
     else l ++ [(o, (x, y))]) o
  = Some (x, y).
Proof.
  unfold layout_position.
  destruct (existsb (fun e => Nat.eqb (fst e) o) l) eqn:Hex.
  - induction l as [|e l IH]; simpl in *; [discriminate|].
    destruct (Nat.eqb (fst e) o) eqn:E; simpl.
    + rewrite Nat.eqb_refl. reflexivity.
    + rewrite E. apply IH. exact Hex.
  - induction l as [|e l IH]; simpl in *.
    + rewrite Nat.eqb_refl. reflexivity.
    + destruct (Nat.eqb (fst e) o); simpl in *; [discriminate|].
      apply IH. exact Hex.
Qed.

Lemma layout_position_add_ne
  (l : list (nat * (Z * Z))) (o i : nat) (x y : Z) :
  i <> o ->
  layout_position
    (if existsb (fun e => Nat.eqb (fst e) o) l
     then map (fun e => if Nat.eqb (fst e) o then (o, (x, y)) else e) l
     else l ++ [(o, (x, y))]) i
  = layout_position l i.
Proof.
  intros Hne. unfold layout_position.
  assert (Nat.eqb o i = false) as Hoi by (apply Nat.eqb_neq; congruence).
  destruct (existsb (fun e => Nat.eqb (fst e) o) l).
  - induction l as [|e l IH]; simpl; [reflexivity|].
    destruct (Nat.eqb (fst e) o) eqn:E; simpl.
    + apply Nat.eqb_eq in E. rewrite E, Hoi. exact IH.
    + destruct (Nat.eqb (fst e) i); [reflexivity | exact IH].
  - induction l as [|e l IH]; simpl.
    + rewrite Hoi. reflexivity.
    + destruct (Nat.eqb (fst e) i); [reflexivity | exact IH].
Qed.

Lemma layout_position_remove_eq (l : list (nat * (Z * Z))) (o : nat) :
  layout_position (List.filter (fun e => negb (Nat.eqb (fst e) o)) l) o = None.
Proof.
  unfold layout_position. induction l as [|e l IH]; simpl; [reflexivity|].
  destruct (Nat.eqb (fst e) o) eqn:E; simpl; [exact IH|].
  rewrite E. exact IH.
Qed.

Lemma layout_position_remove_ne (l : list (nat * (Z * Z))) (o i : nat) :
  i <> o ->
  layout_position (List.filter (fun e => negb (Nat.eqb (fst e) o)) l) i
  = layout_position l i.
Proof.
  intros Hne. unfold layout_position.
  induction l as [|e l IH]; simpl; [reflexivity|].
  destruct (Nat.eqb (fst e) o) eqn:E; simpl.
  - apply Nat.eqb_eq in E.
    assert (Nat.eqb (fst e) i = false) as ->
      by (apply Nat.eqb_neq; congruence).
    exact IH.
  - destruct (Nat.eqb (fst e) i); [reflexivity | exact IH].
Qed.

(** One turn of the first loop of [_output_manager_reconfigure]. *)
Lemma reconfigure_head_step (h : HeadState) (c : Core) :
  exists c_mid,
    (forall rest,
       reconfigure_heads (h :: rest) c
       = if output_test (wlroots c) (hs_output h)
              (pending (wlr_outputs c_mid (hs_output h)))
         then reconfigure_heads rest c_mid
         else Ok false c_mid)
    /\ wlroots c_mid = wlroots c
    /\ same_current c c_mid
    /\ (pending (wlr_outputs c (hs_output h))
        = current (wlr_outputs c (hs_output h)) ->
        pending (wlr_outputs c_mid (hs_output h))
        = requested h (current (wlr_outputs c (hs_output h))))
    /\ layout_position (output_layout c_mid) (hs_output h)
       = requested_position h
    /\ (forall i, i <> hs_output h ->
          wlr_outputs c_mid i = wlr_outputs c i
          /\ layout_position (output_layout c_mid) i
             = layout_position (output_layout c) i).
Proof.
  exists (state_of (reconfigure_heads [h] c)).
  unfold requested, requested_position, same_current.
  simpl.
  unfold wlr_enabled, wlr_enable, wlr_set_mode, wlr_set_custom_mode,
    wlr_set_pending_mode, wlr_set_transform, wlr_set_scale, wlr_test,
    layout_add, layout_remove, upd_wlr_output.
  unfold_monad. simpl.
  destruct (hs_enabled h);
    destruct (os_enabled (current (wlr_outputs c (hs_output h)))) eqn:Hcur;
    destruct (hs_mode h); simpl; rewrite ?Nat.eqb_refl; simpl;
    match goal with
    | |- context [if negb ?b then _ else _] => destruct b eqn:Ht
    end; simpl; rewrite ?Nat.eqb_refl; simpl; rewrite ?Ht;
    (split; [intros rest; reflexivity|]);
    (split; [reflexivity|]);
    (split; [intros i; destruct (Nat.eqb i (hs_output h)); reflexivity|]);
    (split; [intros Hclean; rewrite ?Hclean; simpl;
             try rewrite <- Hcur; try reflexivity;
             destruct (current (wlr_outputs c (hs_output h)));
             simpl in *; congruence|]);
    (split; [first [apply layout_position_add_eq
                   | apply layout_position_remove_eq]|]);
    intros i Hi;
    (assert (Nat.eqb i (hs_output h) = false) as Hie
       by (apply Nat.eqb_neq; exact Hi));
    rewrite ?Hie;
    (split; [reflexivity|]);
    first [apply layout_position_add_ne | apply layout_position_remove_ne];
    exact Hi.
Qed.

Lemma reconfigure_heads_accepted (heads : list HeadState) (c : Core) :
  NoDup (map hs_output heads) ->
  (forall h, In h heads ->
     pending (wlr_outputs c (hs_output h))
     = current (wlr_outputs c (hs_output h))) ->
  (forall h, In h heads ->
     output_test (wlroots c) (hs_output h)
       (requested h (current (wlr_outputs c (hs_output h)))) = true) ->
  exists c1,
    reconfigure_heads heads c = Ok true c1
    /\ wlroots c1 = wlroots c
    /\ same_current c c1
    /\ (forall h, In h heads ->
          pending (wlr_outputs c1 (hs_output h))
          = requested h (current (wlr_outputs c (hs_output h)))
          /\ layout_position (output_layout c1) (hs_output h)
             = requested_position h)
    /\ (forall i, ~ In i (map hs_output heads) ->
          wlr_outputs c1 i = wlr_outputs c i
          /\ layout_position (output_layout c1) i
             = layout_position (output_layout c) i).
Proof.
  revert c. induction heads as [|h rest IH]; intros c Hnd Hclean Htest.
  - exists c. split; [reflexivity|]. split; [reflexivity|].
    split; [intros i; reflexivity|].
    split; [intros h []|]. intros i _. split; reflexivity.
  - apply NoDup_cons in Hnd. destruct Hnd as [Hh Hnd].
    rewrite list_elem_of_In in Hh.
    destruct (reconfigure_head_step h c)
      as (c_mid & Hstep & Hw & Hsame & Hpend & Hpos & Hother).
    rewrite Hstep.
    rewrite (Hpend (Hclean h (or_introl eq_refl))).
    rewrite (Htest h (or_introl eq_refl)).
    assert (forall h', In h' rest -> hs_output h' <> hs_output h) as Hne.
    { intros h' Hin E. apply Hh. rewrite <- E. apply in_map. exact Hin. }
    destruct (IH c_mid Hnd) as (c1 & Hrun & Hw1 & Hsame1 & Hreq & Hframe).
    { intros h' Hin. destruct (Hother _ (Hne h' Hin)) as [-> _].
      apply Hclean. right. exact Hin. }
    { intros h' Hin. rewrite Hw. destruct (Hother _ (Hne h' Hin)) as [-> _].
      apply Htest. right. exact Hin. }
    exists c1. split; [exact Hrun|]. split; [congruence|].
    split; [intros i; rewrite Hsame1; apply Hsame|].
    split.
    + intros h' [<-|Hin].
      * destruct (Hframe _ Hh) as [-> ->].
        split; [apply Hpend, Hclean; left; reflexivity | exact Hpos].
      * destruct (Hreq h' Hin) as [-> ->]. rewrite Hsame.
        split; reflexivity.
    + intros i Hi. simpl in Hi.
      assert (i <> hs_output h) as Hih by (intros E; apply Hi; left; congruence).
      assert (~ In i (map hs_output rest)) as Hir
        by (intros E; apply Hi; right; exact E).
      destruct (Hframe i Hir) as [-> ->]. apply Hother, Hih.
Qed.

Lemma commit_all (heads : list HeadState) (c : Core) :
  exists c',
    commit_or_rollback true true heads c = Ok tt c'
    /\ output_layout c' = output_layout c
    /\ (forall i, pending (wlr_outputs c' i) = pending (wlr_outputs c i))
    /\ (forall i, In i (map hs_output heads) ->
          current (wlr_outputs c' i) = pending (wlr_outputs c i))
    /\ (forall i, ~ In i (map hs_output heads) ->
          current (wlr_outputs c' i) = current (wlr_outputs c i)).
Proof.
  revert c. induction heads as [|h rest IH]; intros c; simpl.
  - exists c. split; [reflexivity|]. split; [reflexivity|].
    split; [reflexivity|]. split; [intros i []|reflexivity].
  - unfold bind at 1. unfold wlr_commit, upd_wlr_output. unfold_monad. simpl.
    match goal with
    | |- context [commit_or_rollback _ _ rest ?c1] =>
        destruct (IH c1) as (c' & E & Hl & Hp & Hin & Hout)
    end.
    exists c'. split; [exact E|]. split; [rewrite Hl; reflexivity|].
    simpl in *.
    assert (forall i, pending (wlr_outputs c' i) = pending (wlr_outputs c i))
      as Hp'.
    { intros i. rewrite Hp. destruct (Nat.eqb i (hs_output h)); reflexivity. }
    split; [exact Hp'|]. split.
    + intros i [Hi|Hi].
      * subst i.
        destruct (in_dec Nat.eq_dec (hs_output h) (map hs_output rest))
          as [Hr|Hr].
        -- rewrite (Hin _ Hr). rewrite Nat.eqb_refl. reflexivity.
        -- rewrite (Hout _ Hr). rewrite Nat.eqb_refl. reflexivity.
      * rewrite (Hin _ Hi). destruct (Nat.eqb i (hs_output h)); reflexivity.
    + intros i Hi.
      assert (Nat.eqb i (hs_output h) = false) as Hie.
      { apply Nat.eqb_neq. intros Hih. apply Hi. left. congruence. }
      rewrite Hout by (intros Hr; apply Hi; right; exact Hr).
      rewrite Hie. reflexivity.
Qed.

(** X12.  A configuration that names each output once, on outputs without
    uncommitted changes, whose requested states the backend accepts, is
    applied as asked: afterwards every named output has the state of its
    head as its committed state, no uncommitted change, and the position of
    its head in the layout (none for a head that disables it); every other
    output is as it was, in state and position. *)
Theorem reconfigure_applies_request (config : list HeadState) (c : Core) :
  NoDup (map hs_output config) ->
  (forall h, In h config ->
     pending (wlr_outputs c (hs_output h))
     = current (wlr_outputs c (hs_output h))) ->
  (forall h, In h config ->
     output_test (wlroots c) (hs_output h)
       (requested h (current (wlr_outputs c (hs_output h)))) = true) ->
  exists c',
    _output_manager_reconfigure config true c = Ok tt c'
    /\ (forall h, In h config ->
          current (wlr_outputs c' (hs_output h))
          = requested h (current (wlr_outputs c (hs_output h)))
          /\ pending (wlr_outputs c' (hs_output h))
             = current (wlr_outputs c' (hs_output h))
          /\ layout_position (output_layout c') (hs_output h)
             = requested_position h)
    /\ (forall i, ~ In i (map hs_output config) ->
          wlr_outputs c' i = wlr_outputs c i
          /\ layout_position (output_layout c') i
             = layout_position (output_layout c) i).
Proof.
  intros Hnd Hclean Htest.
  destruct (reconfigure_heads_accepted config c Hnd Hclean Htest)
    as (c1 & Hrun & _ & _ & Hreq & Hframe).
  destruct (commit_all config c1) as (c2 & E2 & Hl & Hp & Hin & Hout).
  unfold _output_manager_reconfigure, bind at 1. rewrite Hrun.
  unfold bind at 1. simpl. rewrite E2. unfold_monad. simpl.
  eexists. split; [reflexivity|]. simpl. split.
  - intros h Hh. destruct (Hreq h Hh) as [Hpend Hpos].
    assert (In (hs_output h) (map hs_output config)) as Ho
      by (apply in_map; exact Hh).
    rewrite (Hin _ Ho), Hp, Hl, Hpend. repeat split. exact Hpos.
  - intros i Hi. destruct (Hframe i Hi) as [Hw Hpos].
    rewrite Hl, Hpos. split; [|reflexivity].
    pose proof (Hp i) as Hpi. pose proof (Hout i Hi) as Hci.
    rewrite Hw in Hpi, Hci.
    destruct (wlr_outputs c2 i), (wlr_outputs c i). simpl in *. congruence.
Qed.

(** ** Input inhibitor *)

Lemma inhibitor_activate_run (c : Core) (q : Qtile) (client : Client) :
  qtile c = Some q ->
  exists c1 evs,
    _on_input_inhibitor_activate client c = Ok tt c1
    /\ qtile c1 = Some q
    /\ exclusive_client c1 = Some client
    /\ stacked_windows c1 = stacked_windows c
    /\ mapped_windows c1 = mapped_windows c
    /\ cursor c1 = cursor c
    /\ _hovered_window c1 = _hovered_window c
    /\ focused_internal c1 = focused_internal c
    /\ keyboard_focused_surface (seat c1)
       = match current_window q with
         | Some w =>
             if belongs_to_client w client || destroyed (seat c)
             then keyboard_focused_surface (seat c)
             else None
         | None => keyboard_focused_surface (seat c)
         end
    /\ pointer_focused_surface (seat c1)
       = match hit_test c with
         | Some f =>
             if withheld f.1.1.1 client then None
             else pointer_focused_surface (seat c)
         | None => pointer_focused_surface (seat c)
         end
    /\ trace c1 = trace c ++ evs
    /\ Forall (fun e => ~ is_pointer_enter_or_motion e) evs.
Proof.
  intros Hq.
  unfold _on_input_inhibitor_activate, _under_pointer, focus_window,
    keyboard_clear_focus, set_cursor_image_left_ptr,
    pointer_notify_clear_focus, hit_test.
  unfold_monad. rewrite Hq. simpl.
  destruct (cursor c) as [x y] eqn:Hcur. simpl.
  destruct (current_window q) as [w|]; simpl;
    [destruct (belongs_to_client w client); simpl;
     [|destruct (destroyed (seat c)) eqn:Hd; simpl]|];
    rewrite ?Hq, ?Hcur; simpl; rewrite ?Hcur; simpl;
    (destruct (under_pointer_loop (rev (stacked_windows c)) x y)
       as [[[[win s] sx] sy]|]; simpl;
     [destruct (withheld win client); simpl|]);
    (eexists; eexists; split; [reflexivity|]); simpl;
    do 9 (split; [first [reflexivity | assumption]|]);
    (split; [trace_grows|]);
    repeat constructor; simpl; tauto.
Qed.

(** X13.  With the manager attached, activation of the input inhibitor
    returns and makes the client the exclusive one.  The seat's keyboard
    focus is cleared exactly when the manager's current window is not the
    client's (and the seat is alive); the seat's pointer focus is cleared
    exactly when the window under the cursor is internal or not the
    client's.  The stacking order, the cursor, the hovered window and the
    focused internal window are as before. *)
Theorem inhibitor_activation (c : Core) (q : Qtile) (client : Client) :
  qtile c = Some q ->
  exists c',
    _on_input_inhibitor_activate client c = Ok tt c'
    /\ exclusive_client c' = Some client
    /\ keyboard_focused_surface (seat c')
       = match current_window q with
         | Some w =>
             if belongs_to_client w client || destroyed (seat c)
             then keyboard_focused_surface (seat c)
             else None
         | None => keyboard_focused_surface (seat c)
         end
    /\ pointer_focused_surface (seat c')
       = match hit_test c with
         | Some (win, _, _, _) =>
             if withheld win client then None
             else pointer_focused_surface (seat c)
         | None => pointer_focused_surface (seat c)
         end
    /\ stacked_windows c' = stacked_windows c
    /\ cursor c' = cursor c
    /\ _hovered_window c' = _hovered_window c
    /\ focused_internal c' = focused_internal c.
Proof.
  intros Hq.
  destruct (inhibitor_activate_run c q client Hq)
    as (c1 & evs & Hrun & _ & He & Hs & _ & Hc & Hh & Hf & Hk & Hp & _).
  exists c1. repeat (split; [assumption|]).
  split; [|repeat (split; [assumption|]); assumption].
  rewrite Hp. destruct (hit_test c) as [[[[win s] sx] sy]|]; reflexivity.
Qed.

(** X14.  Activation of the input inhibitor followed by a recomputation of
    the pointer focus: if the window under the cursor is internal or not
    the exclusive client's, then after both calls the seat has no pointer
    focus, and neither call has sent a pointer enter or motion
    notification. *)
Theorem inhibitor_then_pointer
  (c : Core) (q : Qtile) (client : Client) (win : Win)
  (surface : option Surface) (sx sy : Q) (cx cy : Z) (motion : option Z) :
  qtile c = Some q ->
  hit_test c = Some (win, surface, sx, sy) ->
  withheld win client = true ->
  exists c1 c2 evs,
    _on_input_inhibitor_activate client c = Ok tt c1
    /\ _focus_pointer cx cy motion c1 = Ok tt c2
    /\ pointer_focused_surface (seat c2) = None
    /\ trace c2 = trace c ++ evs
    /\ Forall (fun e => ~ is_pointer_enter_or_motion e) evs.
Proof.
  intros Hq Hhit Hw.
  destruct (inhibitor_activate_run c q client Hq)
    as (c1 & evs & Hrun & Hq1 & He & Hs & _ & Hc & _ & _ & _ & Hp & Ht & Hf).
  rewrite Hhit in Hp. simpl in Hp. rewrite Hw in Hp.
  assert (hit_test c1 = Some (win, surface, sx, sy)) as Hhit1.
  { unfold hit_test in *. rewrite Hs, Hc. exact Hhit. }
  exists c1.
  unfold _focus_pointer, bind at 1 2. unfold assert_qtile.
  rewrite Hq1, (under_pointer_run c1 q Hq1). fold (hit_test c1).
  rewrite Hhit1. unfold bind at 1. unfold get. rewrite He, Hw.
  unfold set_cursor_image_left_ptr, pointer_notify_clear_focus.
  unfold_monad.
  destruct (opt_win_is (_hovered_window c1) win); simpl.
  - exists c1, evs. repeat (split; [first [reflexivity | assumption]|]).
    assumption.
  - eexists. exists (evs ++ [SetCursorImage "left_ptr"; PointerNotifyClearFocus]).
    split; [exact Hrun|]. split; [reflexivity|]. simpl.
    split; [reflexivity|]. split.
    + rewrite Ht, <- !app_assoc. reflexivity.
    + apply Forall_app. split; [exact Hf|]. repeat constructor; simpl; tauto.
Qed.

(** X30.  What the inhibitor takes, its release does not give back: after
    an activation and the deactivation that follows it there is no
    exclusive client, the deactivation makes no call and leaves the seat as
    the activation left it, so that a keyboard focus that the activation
    cleared stays cleared. *)
Theorem inhibitor_release_keeps_focus
  (c : Core) (q : Qtile) (client : Client) (w : Win) :
  qtile c = Some q ->
  current_window q = Some w ->
  belongs_to_client w client = false ->
  destroyed (seat c) = false ->
  exists c1 c2,
    _on_input_inhibitor_activate client c = Ok tt c1
    /\ _on_input_inhibitor_deactivate c1 = Ok tt c2
    /\ exclusive_client c2 = None
    /\ keyboard_focused_surface (seat c2) = None
    /\ seat c2 = seat c1
    /\ trace c2 = trace c1.
Proof.
  intros Hq Hw Hb Hd.
  destruct (inhibitor_activate_run c q client Hq)
    as (c1 & evs & Hrun & _ & _ & _ & _ & _ & _ & _ & Hk & _).
  rewrite Hw, Hb, Hd in Hk. simpl in Hk.
  exists c1, (set_exclusive_client None c1).
  split; [exact Hrun|]. split; [reflexivity|]. split; [reflexivity|].
  split; [exact Hk|]. split; reflexivity.
Qed.

(** ** Output power management *)

Lemma power_step
  (blanked : gset nat) (mode : OutputPowerV1SetModeEvent) (c : Core) :
  power_event_wf mode ->
  exists blanked' c',
    _on_output_power_manager_set_mode blanked mode c = Ok blanked' c'
    /\ (forall i, i <> pm_output mode ->
          wlr_outputs c' i = wlr_outputs c i
          /\ (i ∈ blanked' <-> i ∈ blanked))
    /\ match pm_mode mode with
       | POWER_ON =>
           if bool_decide (pm_output mode ∈ blanked)
           then os_enabled (current (wlr_outputs c' (pm_output mode))) = true
                /\ pm_output mode ∉ blanked'
           else wlr_outputs c' (pm_output mode) = wlr_outputs c (pm_output mode)
                /\ blanked' = blanked
       | POWER_OFF =>
           if os_enabled (current (wlr_outputs c (pm_output mode)))
           then os_enabled (current (wlr_outputs c' (pm_output mode))) = false
                /\ pm_output mode ∈ blanked'
           else wlr_outputs c' (pm_output mode) = wlr_outputs c (pm_output mode)
                /\ blanked' = blanked
       end.
Proof.
  intros (data & Hdata & Hid).
  unfold _on_output_power_manager_set_mode, wlr_enabled, wlr_enable,
    wlr_commit, upd_wlr_output.
  unfold_monad. rewrite Hdata, Hid.
  destruct (pm_mode mode); simpl.
  - destruct (os_enabled (current (wlr_outputs c (pm_output mode)))); simpl;
      (eexists; eexists; split; [reflexivity|]); simpl;
      rewrite ?Nat.eqb_refl; simpl.
    + split; [|split; [reflexivity | set_solver]].
      intros i Hi.
      assert (Nat.eqb i (pm_output mode) = false) as ->
        by (apply Nat.eqb_neq; exact Hi).
      split; [reflexivity | set_solver].
    + split; [|split; reflexivity]. intros i Hi. split; reflexivity.
  - destruct (bool_decide (pm_output mode ∈ blanked)); simpl;
      (eexists; eexists; split; [reflexivity|]); simpl;
      rewrite ?Nat.eqb_refl; simpl.
    + split; [|split; [reflexivity | set_solver]].
      intros i Hi.
      assert (Nat.eqb i (pm_output mode) = false) as ->
        by (apply Nat.eqb_neq; exact Hi).
      split; [reflexivity | set_solver].
    + split; [|split; reflexivity]. intros i Hi. split; reflexivity.
Qed.

(** X15.  Through any sequence of power events, the outputs that the
    handler remembers as blanked are disabled ones: if this holds before
    the events, the events are all handled and it holds after them. *)
Theorem power_events_blanked_disabled
  (events : list OutputPowerV1SetModeEvent) (blanked : gset nat) (c : Core) :
  Forall power_event_wf events ->
  blanked_are_disabled blanked c ->
  exists blanked' c',
    power_events blanked events c = Ok blanked' c'
    /\ blanked_are_disabled blanked' c'.
Proof.
  intros Hwf. revert blanked c.
  induction Hwf as [|mode rest Hm _ IH]; intros blanked c Hinv; simpl.
  - exists blanked, c. split; [reflexivity | exact Hinv].
  - destruct (power_step blanked mode c Hm) as (b1 & c1 & Hrun & Hother & Hthis).
    unfold bind. rewrite Hrun. apply IH.
    intros o Ho. destruct (decide (o = pm_output mode)) as [->|Hne].
    + destruct (pm_mode mode).
      * destruct (os_enabled (current (wlr_outputs c (pm_output mode))))
          eqn:Hen; destruct Hthis as [H1 H2]; [exact H1|].
        rewrite H1. exact Hen.
      * destruct (bool_decide (pm_output mode ∈ blanked)) eqn:Hin;
          destruct Hthis as [H1 H2]; [contradiction|].
        rewrite H1. apply Hinv. rewrite <- H2. exact Ho.
    + destruct (Hother o Hne) as [-> Hiff]. apply Hinv, Hiff, Ho.
Qed.

(** X16.  An output that is disabled without the power handler having
    blanked it stays disabled, and stays out of the blanked set, through
    any sequence of power events: the handler never switches on what it has
    not switched off itself. *)
Theorem power_events_keep_user_disabled
  (events : list OutputPowerV1SetModeEvent) (blanked : gset nat) (c : Core)
  (o : nat) :
  Forall power_event_wf events ->
  os_enabled (current (wlr_outputs c o)) = false ->
  o ∉ blanked ->
  exists blanked' c',
    power_events blanked events c = Ok blanked' c'
    /\ os_enabled (current (wlr_outputs c' o)) = false
    /\ o ∉ blanked'.
Proof.
  intros Hwf. revert blanked c.
  induction Hwf as [|mode rest Hm _ IH]; intros blanked c Hoff Hout; simpl.
  - exists blanked, c. repeat split; assumption.
  - destruct (power_step blanked mode c Hm) as (b1 & c1 & Hrun & Hother & Hthis).
    unfold bind. rewrite Hrun.
    destruct (decide (o = pm_output mode)) as [->|Hne].
    + destruct (pm_mode mode).
      * rewrite Hoff in Hthis. destruct Hthis as [H1 ->].
        apply IH; [rewrite H1; exact Hoff | exact Hout].
      * rewrite bool_decide_eq_false_2 in Hthis by exact Hout.
        destruct Hthis as [H1 ->].
        apply IH; [rewrite H1; exact Hoff | exact Hout].
    + destruct (Hother o Hne) as [Hw Hiff].
      apply IH; [rewrite Hw; exact Hoff | rewrite Hiff; exact Hout].
Qed.

(** X17.  Blanking and unblanking is a round trip: for an enabled output
    without uncommitted changes that is not in the blanked set, a power-off
    event followed by a power-on event disables and commits, then enables
    and commits, and leaves every output and the blanked set as they
    were. *)
Theorem power_off_on_round_trip
  (blanked : gset nat) (c : Core) (data : Output) :
  os_enabled (current (wlr_outputs c (out_id data))) = true ->
  pending (wlr_outputs c (out_id data))
  = current (wlr_outputs c (out_id data)) ->
  out_id data ∉ blanked ->
  exists c',
    power_events blanked
      [{| pm_output := out_id data; pm_data := Some data;
          pm_mode := POWER_OFF |};
       {| pm_output := out_id data; pm_data := Some data;
          pm_mode := POWER_ON |}] c
    = Ok blanked c'
    /\ (forall i, wlr_outputs c' i = wlr_outputs c i)
    /\ trace c'
       = trace c ++ [OutputEnable (out_id data) false;
                     OutputCommit (out_id data);
                     OutputEnable (out_id data) true;
                     OutputCommit (out_id data)].
Proof.
  intros Hen Hclean Hout.
  unfold power_events, _on_output_power_manager_set_mode, wlr_enabled,
    wlr_enable, wlr_commit, upd_wlr_output.
  unfold_monad. simpl. rewrite Hen. simpl.
  rewrite bool_decide_eq_true_2 by set_solver. simpl.
  eexists. split; [f_equal; set_solver|]. simpl. split.
  - intros i. destruct (Nat.eqb i (out_id data)) eqn:E; [|reflexivity].
    apply Nat.eqb_eq in E. subst i.
    destruct (wlr_outputs c (out_id data)) as [cur pen]. simpl in *.
    subst pen. destruct cur. simpl in *. subst. reflexivity.
  - rewrite <- !app_assoc. reflexivity.
Qed.

(** ** The cursor image *)

Lemma cursor_op_shows (op : CursorOp) (st : CursorState)
  (pre : list CursorCall) :
  (forall call, last pre = Some call -> shows st call) ->
  forall call,
    last (pre ++ snd (cursor_op op st)) = Some call ->
    shows (fst (cursor_op op st)) call.
Proof.
  intros Hinv call.
  destruct op as [focused_client event| |]; simpl;
    unfold _on_request_cursor, hide_cursor, unhide_cursor.
  - destruct (seat_client_ne (seat_client event) focused_client); simpl.
    + rewrite app_nil_r. apply Hinv.
    + destruct (hidden st) eqn:Hh; simpl.
      * rewrite app_nil_r. intros Hl. specialize (Hinv call Hl).
        destruct call. simpl in *. rewrite ?Hh in *. exact Hinv.
      * rewrite last_snoc. intros [= <-]. simpl. rewrite ?Hh. split; reflexivity.
  - destruct (hidden st) eqn:Hh; simpl.
    + rewrite app_nil_r. apply Hinv.
    + rewrite last_snoc. intros [= <-]. simpl. reflexivity.
  - destruct (hidden st) eqn:Hh; simpl.
    + rewrite last_snoc. intros [= <-]. simpl. split; reflexivity.
    + rewrite app_nil_r. apply Hinv.
Qed.

Lemma cursor_ops_shows (ops : list CursorOp) :
  forall (st : CursorState) (pre : list CursorCall),
    (forall call, last pre = Some call -> shows st call) ->
    forall call,
      last (pre ++ snd (cursor_ops ops st)) = Some call ->
      shows (fst (cursor_ops ops st)) call.
Proof.
  induction ops as [|op rest IH]; intros st pre Hinv call; simpl.
  - rewrite app_nil_r. apply Hinv.
  - pose proof (cursor_op_shows op st pre Hinv) as Hstep.
    destruct (cursor_op op st) as [st1 calls1]. simpl in Hstep.
    specialize (IH st1 (pre ++ calls1) Hstep call).
    destruct (cursor_ops rest st1) as [st2 calls2]. simpl in *.
    rewrite app_assoc. exact IH.
Qed.

(** X18.  While the cursor is hidden, nothing reaches it: a sequence of
    client requests and hide commands without an [unhide_cursor], run on a
    hidden cursor, makes no call of [set_surface] and leaves the cursor
    hidden. *)
Theorem hidden_cursor_quiet (ops : list CursorOp) (st : CursorState) :
  hidden st = true ->
  UnhideCursor ∉ ops ->
  snd (cursor_ops ops st) = [] /\ hidden (fst (cursor_ops ops st)) = true.
Proof.
  revert st. induction ops as [|op rest IH]; intros st Hh Hno; simpl.
  - split; [reflexivity | exact Hh].
  - assert (snd (cursor_op op st) = []
            /\ hidden (fst (cursor_op op st)) = true) as [Hc Hh1].
    { destruct op as [focused_client event| |]; simpl;
        unfold _on_request_cursor, hide_cursor.
      - destruct (seat_client_ne (seat_client event) focused_client); simpl;
          rewrite ?Hh; simpl; split; solve [reflexivity | assumption].
      - rewrite Hh. simpl. split; [reflexivity | exact Hh].
      - exfalso. apply Hno. left. }
    destruct (cursor_op op st) as [st1 calls1]. simpl in Hc, Hh1. subst calls1.
    assert (UnhideCursor ∉ rest) as Hno' by (intros Hin; apply Hno; right; exact Hin).
    destruct (IH st1 Hh1 Hno') as [Hc2 Hh2].
    destruct (cursor_ops rest st1) as [st2 calls2]. simpl in *.
    split; assumption.
Qed.

(** X19.  Hiding and unhiding is a round trip: on a cursor that is not
    hidden, [hide_cursor] followed by [unhide_cursor] clears the cursor's
    surface, sets the remembered surface and hotspot again, and leaves the
    cursor state as it was. *)
Theorem hide_unhide_round_trip (st : CursorState) :
  hidden st = false ->
  cursor_ops [HideCursor; UnhideCursor] st
  = (st, [SetSurface None (cursor_hotspot st);
          SetSurface (cursor_surface st) (cursor_hotspot st)]).
Proof.
  intros Hh. destruct st as [surface hotspot h]. simpl in Hh. subst h.
  reflexivity.
Qed.

(** X20.  The cursor shows what the cursor state says: after any sequence
    of client requests, hide and unhide commands, the last call of
    [set_surface] that the sequence made, if it made one, set no surface if
    the cursor is now hidden, and the surface and hotspot now in the cursor
    state otherwise. *)
Theorem cursor_shows_state
  (ops : list CursorOp) (st : CursorState) (call : CursorCall) :
  last (snd (cursor_ops ops st)) = Some call ->
  shows (fst (cursor_ops ops st)) call.
Proof.
  apply (cursor_ops_shows ops st []). intros c Hc. discriminate Hc.
Qed.

(** ** Key grabs *)

Lemma keys_remove_absent (p : Z * Z) (l : list (Z * Z)) :
  p ∉ l -> keys_remove p l = None.
Proof.
  induction l as [|q rest IH]; intros Hno; simpl; [reflexivity|].
  rewrite bool_decide_eq_false_2
    by (intros ->; apply Hno; left).
  rewrite IH; [reflexivity|]. intros Hin. apply Hno. right. exact Hin.
Qed.

Lemma keys_remove_present (p : Z * Z) (l : list (Z * Z)) :
  p ∈ l -> exists rest, keys_remove p l = Some rest /\ l ≡ₚ p :: rest.
Proof.
  induction l as [|q rest IH]; intros Hin; [inversion Hin|]. simpl.
  destruct (bool_decide (q = p)) eqn:E.
  - apply bool_decide_eq_true in E. subst q. exists rest. split; reflexivity.
  - apply bool_decide_eq_false in E.
    apply elem_of_cons in Hin as [->|Hin]; [contradiction|].
    destruct (IH Hin) as (rest' & -> & Hp). exists (q :: rest').
    split; [reflexivity|]. rewrite Hp. apply Permutation_swap.
Qed.

Lemma keys_remove_snoc (p : Z * Z) (l : list (Z * Z)) :
  exists rest,
    keys_remove p (l ++ [p]) = Some rest
    /\ rest ≡ₚ l
    /\ (p ∉ l -> rest = l)
    /\ (p ∈ l -> p ∈ rest).
Proof.
  induction l as [|q rest IH]; simpl.
  - rewrite bool_decide_eq_true_2 by reflexivity. exists [].
    repeat split; try reflexivity. intros Hin. inversion Hin.
  - destruct (bool_decide (q = p)) eqn:E.
    + apply bool_decide_eq_true in E. subst q. exists (rest ++ [p]).
      split; [reflexivity|]. split; [|split].
      * rewrite Permutation_app_comm. reflexivity.
      * intros Hno. exfalso. apply Hno. left.
      * intros _. apply elem_of_app. right. left.
    + apply bool_decide_eq_false in E.
      destruct IH as (rest' & -> & Hp & Heq & Hin). exists (q :: rest').
      split; [reflexivity|]. split; [|split].
      * rewrite Hp. reflexivity.
      * intros Hno. f_equal. apply Heq. intros H. apply Hno. right. exact H.
      * intros H. apply elem_of_cons in H as [->|H]; [contradiction|].
        right. apply Hin, H.
Qed.

(** X21.  Grabbing a key and releasing it again is a round trip:
    [ungrab_key] after a [grab_key] of the same key never raises, returns
    the same pair, and leaves the same grabs as before, in the same order
    if the key was not grabbed before. *)
Theorem grab_ungrab_round_trip
  (keysym_from_name : string -> option Z)
  (translate_masks : list string -> option Z)
  (k : Key) (grabbed_keys grabbed : list (Z * Z)) (p : Z * Z) :
  grab_key keysym_from_name translate_masks k grabbed_keys
  = Returned p grabbed ->
  exists rest,
    ungrab_key keysym_from_name translate_masks k grabbed = Returned p rest
    /\ rest ≡ₚ grabbed_keys
    /\ (p ∉ grabbed_keys -> rest = grabbed_keys).
Proof.
  unfold grab_key, ungrab_key.
  destruct (keysym_from_name (key k)) as [keysym|]; [|discriminate].
  destruct (translate_masks (modifiers k)) as [mask_key|]; [|discriminate].
  intros [= <- <-].
  destruct (keys_remove_snoc (keysym, mask_key) grabbed_keys)
    as (rest & -> & Hp & Heq & _).
  exists rest. split; [reflexivity|]. split; assumption.
Qed.

(** X22.  [ungrab_key] releases one grab or none: for a key whose names
    are known, it raises [ValueError] and leaves the grabs as they are if
    the key is not grabbed, and takes exactly one grab of the key away, and
    nothing else, if it is. *)
Theorem ungrab_key_releases_one
  (keysym_from_name : string -> option Z)
  (translate_masks : list string -> option Z)
  (k : Key) (grabbed_keys : list (Z * Z)) (keysym mask_key : Z) :
  keysym_from_name (key k) = Some keysym ->
  translate_masks (modifiers k) = Some mask_key ->
  ((keysym, mask_key) ∉ grabbed_keys ->
   ungrab_key keysym_from_name translate_masks k grabbed_keys
   = Failed (Builtin ValueError) grabbed_keys)
  /\ ((keysym, mask_key) ∈ grabbed_keys ->
      exists rest,
        ungrab_key keysym_from_name translate_masks k grabbed_keys
        = Returned (keysym, mask_key) rest
        /\ grabbed_keys ≡ₚ (keysym, mask_key) :: rest).
Proof.
  intros Hk Hm. unfold ungrab_key. rewrite Hk, Hm. split.
  - intros Hno. rewrite keys_remove_absent by exact Hno. reflexivity.
  - intros Hin.
    destruct (keys_remove_present _ _ Hin) as (rest & -> & Hp).
    exists rest. split; [reflexivity | exact Hp].
Qed.

(** X23.  Grabs are counted: a key that is grabbed twice is still grabbed
    after one [ungrab_key], which takes the older of the two grabs away. *)
Theorem grab_twice_ungrab_once
  (keysym_from_name : string -> option Z)
  (translate_masks : list string -> option Z)
  (k : Key) (g0 g1 g2 : list (Z * Z)) (p : Z * Z) :
  grab_key keysym_from_name translate_masks k g0 = Returned p g1 ->
  grab_key keysym_from_name translate_masks k g1 = Returned p g2 ->
  exists g3,
    ungrab_key keysym_from_name translate_masks k g2 = Returned p g3
    /\ p ∈ g3
    /\ g3 ≡ₚ g1.
Proof.
  unfold grab_key, ungrab_key.
  destruct (keysym_from_name (key k)) as [keysym|]; [|discriminate].
  destruct (translate_masks (modifiers k)) as [mask_key|]; [|discriminate].
  intros [= <- <-] [= <-].
  destruct (keys_remove_snoc (keysym, mask_key)
              (g0 ++ [(keysym, mask_key)])) as (rest & -> & Hp & _ & Hin).
  exists rest. split; [reflexivity|]. split; [|exact Hp].
  apply Hin, elem_of_app. right. left.
Qed.

(** X24.  A simulated press of a grabbed key goes to qtile and to nobody
    else: after [grab_key], [simulate_keypress] with the key's modifiers
    and name calls [process_key_event] of qtile with the pair that
    [grab_key] returned, and not the focused internal window, whether there
    is one or not. *)
Theorem simulate_grabbed_key
  (keysym_from_name : string -> option Z)
  (translate_masks : list string -> option Z)
  (k : Key) (grabbed_keys grabbed : list (Z * Z)) (p : Z * Z) (c : Core) :
  grab_key keysym_from_name translate_masks k grabbed_keys
  = Returned p grabbed ->
  qtile c <> None ->
  simulate_keypress keysym_from_name translate_masks
    (modifiers k) (key k) grabbed c
  = Returned [ProcessKeyEvent (fst p) (snd p)] grabbed.
Proof.
  unfold grab_key, simulate_keypress.
  destruct (keysym_from_name (key k)) as [keysym|]; [|discriminate].
  destruct (translate_masks (modifiers k)) as [mask_key|]; [|discriminate].
  intros [= <- <-] Hq.
  rewrite bool_decide_eq_true_2 by (apply elem_of_app; right; left).
  destruct (qtile c); [reflexivity | contradiction].
Qed.

(** ** Input devices *)

Lemma on_new_input_fields {InputConfig : Type}
  (d : InputDevice) (s : Inputs InputConfig) :
  inputs_qtile (_on_new_input d s) = inputs_qtile s
  /\ keyboards (_on_new_input d s)
     = keyboards s ++ (if is_keyboard d then [Keyboard d] else [])
  /\ _pointers (_on_new_input d s)
     = _pointers s ++ (if is_pointer d then [Pointer d] else [])
  /\ _pending_input_devices (_on_new_input d s)
     = _pending_input_devices s
       ++ match inputs_qtile s with
          | None => option_list (made_for d)
          | Some _ => []
          end.
Proof.
  unfold _on_new_input, made_for, is_keyboard, is_pointer,
    announce_and_configure, _add_new_pointer, _add_new_keyboard, input_call.
  destruct (device_type d); simpl;
    destruct (inputs_qtile s) as [cfg|] eqn:Hq; simpl;
    try destruct (rules_set cfg); simpl;
    rewrite ?app_nil_r, ?Hq; repeat split; reflexivity.
Qed.

Lemma new_inputs_snoc {InputConfig : Type}
  (devices : list InputDevice) (d : InputDevice) (s : Inputs InputConfig) :
  new_inputs (devices ++ [d]) s = _on_new_input d (new_inputs devices s).
Proof. unfold new_inputs. rewrite fold_left_app. reflexivity. Qed.

Lemma new_inputs_fields {InputConfig : Type}
  (devices : list InputDevice) (s : Inputs InputConfig) :
  inputs_qtile (new_inputs devices s) = inputs_qtile s
  /\ keyboards (new_inputs devices s)
     = keyboards s ++ map Keyboard (List.filter is_keyboard devices)
  /\ _pointers (new_inputs devices s)
     = _pointers s ++ map Pointer (List.filter is_pointer devices)
  /\ _pending_input_devices (new_inputs devices s)
     = _pending_input_devices s
       ++ match inputs_qtile s with
          | None => omap made_for devices
          | Some _ => []
          end.
Proof.
  induction devices as [|d rest IH] using rev_ind.
  - simpl. rewrite !app_nil_r. destruct (inputs_qtile s); simpl;
      rewrite ?app_nil_r; repeat split; reflexivity.
  - rewrite new_inputs_snoc.
    destruct (on_new_input_fields d (new_inputs rest s))
      as (Hq & Hk & Hp & Hpe).
    destruct IH as (IHq & IHk & IHp & IHpe).
    rewrite Hq, Hk, Hp, Hpe, IHq, IHk, IHp, IHpe.
    rewrite !List.filter_app, !map_app, omap_app. simpl.
    split; [reflexivity|]. split; [|split].
    + destruct (is_keyboard d); simpl; rewrite <- ?app_assoc; reflexivity.
    + destruct (is_pointer d); simpl; rewrite <- ?app_assoc; reflexivity.
    + destruct (inputs_qtile s); simpl; rewrite <- ?app_assoc;
        [rewrite ?app_nil_r; reflexivity|].
      destruct (made_for d); reflexivity.
Qed.

Lemma last_capabilities_app {InputConfig : Type}
  (a b : list (InputCall InputConfig)) :
  last_capabilities (a ++ b)
  = match last_capabilities b with
    | Some capabilities => Some capabilities
    | None => last_capabilities a
    end.
Proof.
  induction a as [|call rest IH]; simpl.
  - destruct (last_capabilities b); reflexivity.
  - rewrite IH. destruct (last_capabilities b); reflexivity.
Qed.

Lemma on_new_input_capabilities {InputConfig : Type}
  (d : InputDevice) (s : Inputs InputConfig) :
  match made_for d with
  | Some _ =>
      last_capabilities (input_calls (_on_new_input d s))
      = Some match keyboards (_on_new_input d s) with
             | [] => capability_pointer
             | _ :: _ => Z.lor capability_pointer capability_keyboard
             end
  | None => _on_new_input d s = s
  end.
Proof.
  unfold _on_new_input, made_for, announce_and_configure, _add_new_pointer,
    _add_new_keyboard, input_call.
  destruct (device_type d); simpl; try reflexivity;
    destruct (inputs_qtile s) as [cfg|]; simpl;
    try destruct (rules_set cfg); simpl;
    rewrite !last_capabilities_app; simpl;
    try (destruct (keyboards s); reflexivity).
Qed.

(** X25.  What a sequence of new input devices leaves in the core: the
    keyboards and the pointers among them are appended, in the order of
    their arrival, to [keyboards] and [_pointers], devices of other kinds
    are left out, and the keyboards and pointers are queued, in that order,
    in [_pending_input_devices] exactly when qtile is not there yet. *)
Theorem new_inputs_registered {InputConfig : Type}
  (devices : list InputDevice) (s : Inputs InputConfig) :
  keyboards (new_inputs devices s)
  = keyboards s ++ map Keyboard (List.filter is_keyboard devices)
  /\ _pointers (new_inputs devices s)
     = _pointers s ++ map Pointer (List.filter is_pointer devices)
  /\ _pending_input_devices (new_inputs devices s)
     = _pending_input_devices s
       ++ match inputs_qtile s with
          | None => omap made_for devices
          | Some _ => []
          end.
Proof. apply new_inputs_fields. Qed.

(** X26.  The capabilities that the seat is told after a sequence of new
    input devices with a keyboard or a pointer among them: always the
    pointer, also when all the devices are keyboards, and the keyboard
    exactly when the core has a keyboard by then. *)
Theorem capabilities_follow_keyboards {InputConfig : Type}
  (devices : list InputDevice) (s : Inputs InputConfig) :
  omap made_for devices <> [] ->
  last_capabilities (input_calls (new_inputs devices s))
  = Some (if bool_decide (keyboards s = []
                          /\ List.filter is_keyboard devices = [])
          then 1 else 3).
Proof.
  induction devices as [|d rest IH] using rev_ind; [intros H; contradiction|].
  intros Hsome. rewrite new_inputs_snoc.
  pose proof (on_new_input_capabilities d (new_inputs rest s)) as Hstep.
  rewrite omap_app in Hsome. simpl in Hsome.
  destruct (on_new_input_fields d (new_inputs rest s)) as (_ & Hk & _).
  destruct (new_inputs_fields rest s) as (_ & Hk0 & _).
  rewrite List.filter_app. cbn [List.filter].
  destruct (made_for d) as [dev|] eqn:Hm.
  - rewrite Hstep, Hk, Hk0. f_equal. clear IH.
    case_bool_decide as Hbd.
    + destruct Hbd as [-> Hf]. apply app_eq_nil in Hf as [-> Hd].
      destruct (is_keyboard d); [discriminate Hd | reflexivity].
    + destruct (keyboards s) as [|k ks]; [|reflexivity].
      destruct (List.filter is_keyboard rest) as [|k ks]; [|reflexivity].
      destruct (is_keyboard d); [reflexivity|].
      exfalso. apply Hbd. split; reflexivity.
  - rewrite Hstep. rewrite app_nil_r in Hsome. rewrite (IH Hsome).
    assert (is_keyboard d = false) as ->.
    { unfold made_for in Hm. unfold is_keyboard.
      destruct (device_type d); try reflexivity; discriminate Hm. }
    rewrite app_nil_r. reflexivity.
Qed.

Lemma configure_all_calls {InputConfig : Type}
  (rules : list (string * InputConfig)) (pending : list Device)
  (s : Inputs InputConfig) :
  let s' := fold_left (fun s device => input_call (Configure device rules) s)
              pending s in
  inputs_qtile s' = inputs_qtile s
  /\ keyboards s' = keyboards s
  /\ _pointers s' = _pointers s
  /\ _pending_input_devices s' = _pending_input_devices s
  /\ input_calls s'
     = input_calls s ++ map (fun device => Configure device rules) pending.
Proof.
  revert s. induction pending as [|d rest IH]; intros s; simpl.
  - rewrite app_nil_r. repeat split; reflexivity.
  - destruct (IH (input_call (Configure d rules) s)) as (H1 & H2 & H3 & H4 & H5).
    simpl in *. rewrite H1, H2, H3, H4, H5, <- app_assoc.
    repeat split; reflexivity.
Qed.

(** X27.  Devices that arrive before qtile is there are configured once:
    when keyboards and pointers have arrived without qtile and qtile then
    comes with input rules, [_configure_pending_inputs] configures each of
    them with the rules, in the order of arrival, and empties the queue, so
    that a second call configures nothing. *)
Theorem pending_inputs_configured_once {InputConfig : Type}
  (devices : list InputDevice) (cfg : Config InputConfig)
  (rules : list (string * InputConfig)) (s : Inputs InputConfig) :
  inputs_qtile s = None ->
  _pending_input_devices s = [] ->
  rules_set cfg = Some rules ->
  exists s1,
    _configure_pending_inputs (set_inputs_qtile cfg (new_inputs devices s))
    = Some s1
    /\ input_calls s1
       = input_calls (new_inputs devices s)
         ++ map (fun device => Configure device rules)
              (omap made_for devices)
    /\ _pending_input_devices s1 = []
    /\ _configure_pending_inputs s1 = Some s1.
Proof.
  intros Hq Hp Hr.
  destruct (new_inputs_fields devices s) as (_ & _ & _ & Hpe).
  rewrite Hq, Hp in Hpe. simpl in Hpe.
  unfold _configure_pending_inputs at 1. simpl. rewrite Hr, Hpe.
  destruct (configure_all_calls rules (omap made_for devices)
              (set_inputs_qtile cfg (new_inputs devices s)))
    as (H1 & H2 & H3 & H4 & H5).
  simpl in *. eexists. split; [reflexivity|]. simpl.
  split; [exact H5|]. split; [reflexivity|].
  unfold _configure_pending_inputs. simpl. rewrite H1, Hr. simpl.
  reflexivity.
Qed.

(** ** Idle inhibitors *)

(** X28.  [check_idle_inhibitor] switches idle off exactly when a mapped
    window that is not an internal one is idle inhibited; an idle inhibited
    internal window does not count. *)
Theorem check_idle_inhibitor_spec
  (is_idle_inhibited : Win -> bool) (c : Core) :
  check_idle_inhibitor is_idle_inhibited c = false
  <-> exists win,
        win ∈ mapped_windows c
        /\ isinstance_Internal (win_class win) = false
        /\ is_idle_inhibited win = true.
Proof.
  unfold check_idle_inhibitor.
  induction (mapped_windows c) as [|w rest IH]; simpl.
  - split; [discriminate|]. intros (win & Hin & _). inversion Hin.
  - destruct (isinstance_Internal (win_class w)) eqn:Hi; simpl.
    + rewrite IH. split.
      * intros (win & Hin & H). exists win. split; [right; exact Hin | exact H].
      * intros (win & Hin & Hni & Hidle).
        apply elem_of_cons in Hin as [->|Hin]; [congruence|].
        exists win. repeat split; assumption.
    + destruct (is_idle_inhibited w) eqn:Hidle.
      * split; [|reflexivity]. intros _. exists w.
        split; [left|split; assumption].
      * rewrite IH. split.
        -- intros (win & Hin & H). exists win.
           split; [right; exact Hin | exact H].
        -- intros (win & Hin & Hni & Hid).
           apply elem_of_cons in Hin as [->|Hin]; [congruence|].
           exists win. repeat split; assumption.
Qed.

(** ** Layout changes *)

Lemma tuple_lt_false (a b : Z * Z) : tuple_lt a b = false <-> tuple_le b a.
Proof.
  unfold tuple_lt, tuple_le. destruct a as [ax ay], b as [bx by']. simpl.
  destruct (Z.ltb_spec ax bx), (Z.eqb_spec ax bx), (Z.ltb_spec ay by');
    simpl; split; intros; try discriminate; try reflexivity; lia.
Qed.

Lemma tuple_lt_true (a b : Z * Z) : tuple_lt a b = true -> tuple_le a b.
Proof.
  unfold tuple_lt, tuple_le. destruct a as [ax ay], b as [bx by']. simpl.
  destruct (Z.ltb_spec ax bx), (Z.eqb_spec ax bx), (Z.ltb_spec ay by');
    simpl; intros; try discriminate; lia.
Qed.

Lemma tuple_le_trans (a b c : Z * Z) :
  tuple_le a b -> tuple_le b c -> tuple_le a c.
Proof. unfold tuple_le. lia. Qed.

Lemma sort_insert_perm {A} (e : A * (Z * Z)) (l : list (A * (Z * Z))) :
  sort_insert e l ≡ₚ e :: l.
Proof.
  induction l as [|p rest IH]; simpl; [reflexivity|].
  destruct (tuple_lt (snd p) (snd e)); [|reflexivity].
  rewrite IH. apply Permutation_swap.
Qed.

Lemma list_sort_perm {A} (l : list (A * (Z * Z))) : list_sort l ≡ₚ l.
Proof.
  induction l as [|e rest IH]; simpl; [reflexivity|].
  rewrite sort_insert_perm, IH. reflexivity.
Qed.

Lemma sort_insert_sorted {A} (e : A * (Z * Z)) (l : list (A * (Z * Z))) :
  ordered (fun a b => tuple_le (snd a) (snd b)) l ->
  ordered (fun a b => tuple_le (snd a) (snd b)) (sort_insert e l).
Proof.
  induction l as [|p rest IH]; intros Hs; simpl.
  - split; [constructor | exact I].
  - destruct Hs as [Hall Hrest].
    destruct (tuple_lt (snd p) (snd e)) eqn:E.
    + split; [|apply IH, Hrest].
      rewrite sort_insert_perm. constructor; [|exact Hall].
      apply tuple_lt_true, E.
    + apply tuple_lt_false in E. split; [|split; assumption].
      constructor; [exact E|].
      eapply Forall_impl; [exact Hall|]. intros q Hq. simpl in Hq.
      eapply tuple_le_trans; eassumption.
Qed.

Lemma list_sort_sorted {A} (l : list (A * (Z * Z))) :
  ordered (fun a b => tuple_le (snd a) (snd b)) (list_sort l).
Proof.
  induction l as [|e rest IH]; simpl; [exact I|].
  apply sort_insert_sorted, IH.
Qed.

Lemma sort_insert_stable {A} (k : Z * Z) (e : A * (Z * Z))
  (l : list (A * (Z * Z))) :
  List.filter (fun p => bool_decide (snd p = k)) (sort_insert e l)
  = List.filter (fun p => bool_decide (snd p = k)) (e :: l).
Proof.
  induction l as [|p rest IH]; [reflexivity|]. simpl.
  destruct (tuple_lt (snd p) (snd e)) eqn:E; [|reflexivity].
  simpl. simpl in IH. rewrite IH.
  destruct (bool_decide (snd e = k)) eqn:Ee; [|reflexivity].
  destruct (bool_decide (snd p = k)) eqn:Ep; [|reflexivity].
  apply bool_decide_eq_true in Ee, Ep. rewrite Ee, Ep in E.
  unfold tuple_lt in E. destruct k as [kx ky]. simpl in E.
  destruct (Z.ltb_spec kx kx), (Z.eqb_spec kx kx), (Z.ltb_spec ky ky);
    simpl in E; try discriminate; lia.
Qed.

Lemma list_sort_stable {A} (k : Z * Z) (l : list (A * (Z * Z))) :
  List.filter (fun p => bool_decide (snd p = k)) (list_sort l)
  = List.filter (fun p => bool_decide (snd p = k)) l.
Proof.
  induction l as [|e rest IH]; [reflexivity|]. simpl list_sort.
  rewrite sort_insert_stable.
  simpl. rewrite IH. reflexivity.
Qed.

Lemma elem_of_map {A B} (f : A -> B) (l : list A) (y : B) :
  y ∈ map f l -> exists x, y = f x /\ x ∈ l.
Proof.
  rewrite list_elem_of_In, in_map_iff. intros (x & <- & Hx).
  exists x. split; [reflexivity|]. apply list_elem_of_In, Hx.
Qed.

Lemma layout_heads_run (outs : list Output) (c : Core) :
  layout_heads outs c
  = Ok (map (fun o =>
               {| lh_output := out_id o;
                  lh_mode :=
                    match os_mode (current (wlr_outputs c (out_id o))) with
                    | Some (FixedMode m) => Some m
                    | _ => None
                    end;
                  lh_enabled :=
                    match os_mode (current (wlr_outputs c (out_id o))) with
                    | Some (FixedMode m) =>
                        os_enabled (current (wlr_outputs c (out_id o)))
                    | _ => false
                    end;
                  lh_x := fst (position_of c o);
                  lh_y := snd (position_of c o) |}) outs,
        map (fun o => (o, position_of c o)) outs) c.
Proof.
  induction outs as [|o rest IH]; [reflexivity|].
  simpl. unfold wlr_current_mode, wlr_enabled, get_box.
  unfold_monad. rewrite IH. simpl.
  unfold position_of, layout_position.
  destruct (List.find _ (output_layout c)) as [[i [x y]]|];
    destruct (os_mode (current (wlr_outputs c (out_id o)))) as [[m|? ? ?]|];
    reflexivity.
Qed.

(** X29.  After a change of the layout, [self.outputs] is in the order of
    the layout: [_on_output_layout_change] leaves the same outputs, ordered
    from left to right and then from top to bottom by their positions in
    the layout, with outputs at the same position in their former order.
    The configuration that it reports has one head for each output, in the
    former order, with the output's position; nothing else in the core
    changes. *)
Theorem layout_change_orders_outputs (c : Core) :
  exists heads c',
    _on_output_layout_change c = Ok heads c'
    /\ outputs c' ≡ₚ outputs c
    /\ ordered (fun a b => tuple_le (position_of c a) (position_of c b))
         (outputs c')
    /\ (forall k,
          List.filter (fun o => bool_decide (position_of c o = k))
            (outputs c')
          = List.filter (fun o => bool_decide (position_of c o = k))
              (outputs c))
    /\ map (fun h => (lh_output h, (lh_x h, lh_y h))) heads
       = map (fun o => (out_id o, position_of c o)) (outputs c)
    /\ c' = set_outputs (outputs c') c.
Proof.
  unfold _on_output_layout_change. unfold_monad.
  rewrite layout_heads_run. simpl.
  set (keyed := map (fun o => (o, position_of c o)) (outputs c)).
  assert (forall p, p ∈ list_sort keyed -> snd p = position_of c (fst p))
    as Hkey.
  { intros p Hp. rewrite list_sort_perm in Hp. unfold keyed in Hp.
    apply elem_of_map in Hp as (o & -> & _). reflexivity. }
  eexists. eexists. split; [reflexivity|]. simpl.
  split; [|split; [|split; [|split]]].
  - rewrite list_sort_perm. unfold keyed. rewrite map_map. simpl.
    rewrite map_id. reflexivity.
  - pose proof (list_sort_sorted keyed) as Hs.
    induction (list_sort keyed) as [|p rest IH]; simpl; [exact I|].
    destruct Hs as [Hall Hrest]. split.
    + apply Forall_forall. intros o Ho.
      apply elem_of_map in Ho as (q & -> & Hq).
      rewrite Forall_forall in Hall. specialize (Hall q Hq).
      rewrite (Hkey p) in Hall by left.
      rewrite (Hkey q) in Hall by (right; exact Hq). exact Hall.
    + apply IH; [|exact Hrest]. intros q Hq. apply Hkey. right. exact Hq.
  - intros k.
    pose proof (list_sort_stable k keyed) as Hst.
    apply (f_equal (map fst)) in Hst.
    assert (forall l : list (Output * (Z * Z)),
              (forall p, p ∈ l -> snd p = position_of c (fst p)) ->
              map fst (List.filter (fun p => bool_decide (snd p = k)) l)
              = List.filter (fun o => bool_decide (position_of c o = k))
                  (map fst l)) as Hcomm.
    { induction l as [|p l IHl]; intros Hl; [reflexivity|]. simpl.
      rewrite (Hl p) by left.
      destruct (bool_decide (position_of c (fst p) = k)); simpl;
        rewrite IHl by (intros q Hq; apply Hl; right; exact Hq);
        reflexivity. }
    rewrite !Hcomm in Hst.
    + rewrite Hst. unfold keyed. rewrite map_map. simpl. rewrite map_id.
      reflexivity.
    + unfold keyed. intros p Hp.
      apply elem_of_map in Hp as (o & -> & _). reflexivity.
    + exact Hkey.
  - rewrite map_map. simpl. apply map_ext. intros o.
    destruct (position_of c o); reflexivity.
  - reflexivity.
Qed.

(** ** The further properties at work on the small session *)

Lemma focus_pointer_tracks_hit_witness :
  qtile session = Some manager
  /\ exists c',
       _focus_pointer 10 10 (Some 7) session = Ok tt c'
       /\ match hit_test session with
          | Some (win, _, _, _) => opt_win_is (_hovered_window c') win = true
          | None => _hovered_window c' = None
          end
       /\ same_but_pointer session c'.
Proof.
  split; [reflexivity|].
  destruct (focus_pointer_tracks_hit session manager 10 10 (Some 7) eq_refl)
    as (c' & evs & Hrun & Hhit & Hsame & _).
  exists c'. split; [exact Hrun|]. split; [exact Hhit | exact Hsame].
Defined.

Lemma masked_resynchronises_witness :
  modify (set_stacked_windows [term; bar]) session
  = Ok tt (set_stacked_windows [term; bar] session)
  /\ exists c',
       masked (modify (set_stacked_windows [term; bar])) session = Ok tt c'
       /\ hit_test c' = hit_test (set_stacked_windows [term; bar] session).
Proof.
  split; [reflexivity|].
  destruct (masked_resynchronises (modify (set_stacked_windows [term; bar]))
              session (set_stacked_windows [term; bar] session) manager
              eq_refl eq_refl) as (c' & evs & Hrun & Hhit & _).
  exists c'. split; assumption.
Defined.

Lemma process_cursor_motion_tracks_output_witness :
  qtile session = Some manager
  /\ exists c',
       _process_cursor_motion 5 10%Q 10%Q session = Ok tt c'
       /\ mapped_windows c' = mapped_windows session
       /\ cursor c' = cursor session.
Proof.
  split; [reflexivity|].
  destruct (process_cursor_motion_tracks_output session manager 5 10%Q 10%Q
              eq_refl) as (c' & Hrun & Hm & Hc & _).
  exists c'. split; [exact Hrun|]. split; assumption.
Defined.

Lemma restack_idempotent_witness :
  NoDup (map wid (mapped_windows session))
  /\ present term (mapped_windows session) = true
  /\ exists c1,
       stack_windows (Some term) session = Ok tt c1
       /\ stack_windows (Some term) c1 = Ok tt c1.
Proof.
  assert (NoDup (map wid (mapped_windows session))) as Hnd.
  { apply (bool_decide_unpack _). vm_compute. exact I. }
  split; [exact Hnd|]. split; [reflexivity|].
  exact (restack_idempotent session term Hnd eq_refl).
Defined.

Lemma raised_window_is_hit_witness :
  qtile centred_session = Some manager
  /\ present term (mapped_windows centred_session) = true
  /\ window_contains term (cursor centred_session).1 (cursor centred_session).2
  /\ exists c' surface sx sy,
       stack_windows (Some term) centred_session = Ok tt c'
       /\ _under_pointer c' = Ok (Some (term, surface, sx, sy)) c'.
Proof.
  assert (window_contains term (cursor centred_session).1
            (cursor centred_session).2) as Hin.
  { left. vm_compute. discriminate. }
  split; [reflexivity|]. split; [reflexivity|]. split; [exact Hin|].
  apply (raised_window_is_hit centred_session manager term eq_refl eq_refl Hin).
  intros o [= <-]. constructor; [|constructor].
  intros [H|H].
  - vm_compute in H. apply H. reflexivity.
  - destruct H as [H _]. apply H. reflexivity.
Defined.

Lemma new_wid_successor_witness :
  new_wid session = Ok 4 session
  /\ new_wid grown_session = Ok 5 grown_session.
Proof.
  assert (new_wid session = Ok 4 session) as H4
    by (vm_compute; reflexivity).
  split; [exact H4|].
  exact (new_wid_successor session grown_session manager _ 4 bar
           eq_refl eq_refl H4 eq_refl).
Defined.

Lemma focus_window_one_keyboard_target_witness :
  one_keyboard_target session
  /\ one_keyboard_target
       (state_of (focus_window (Some bar) None true session)).
Proof.
  assert (one_keyboard_target session) as H.
  { intros Hf. exfalso. apply Hf. reflexivity. }
  split; [exact H|].
  exact (focus_window_one_keyboard_target session (Some bar) None true H).
Defined.

Lemma focus_window_handover_witness :
  keyboard_focused_surface (seat editor_focused) = Some editor_surface
  /\ exists c',
       focus_window (Some term) None true editor_focused = Ok tt c'
       /\ trace c'
          = [XdgSetActivated 20 false; WindowSetActivated 4 false;
             XdgSetActivated 10 true; FtmSetActivated 1 true;
             KeyboardNotifyEnter term_surface]
       /\ keyboard_focused_surface (seat c') = Some term_surface.
Proof.
  split; [reflexivity|].
  assert (surf_id editor_surface <> surf_id term_surface) as Hne
    by (simpl; lia).
  destruct (focus_window_handover editor_focused term term_surface
              editor_surface eq_refl I eq_refl eq_refl eq_refl eq_refl
              eq_refl Hne eq_refl) as (c' & Hrun & Htr & Hk & _).
  exists c'. split; [exact Hrun|]. split; [exact Htr | exact Hk].
Defined.


Lemma reconfigure_applies_request_witness :
  output_test (wlroots session) 1
    (requested moved_head (current (wlr_outputs session 1))) = true
  /\ exists c',
       _output_manager_reconfigure [moved_head] true session = Ok tt c'
       /\ layout_position (output_layout c') 1 = Some (2000, 0)
       /\ layout_position (output_layout c') 0 = Some (0, 0).
Proof.
  split; [reflexivity|].
  assert (NoDup (map hs_output [moved_head])) as Hnd.
  { apply (bool_decide_unpack _). vm_compute. exact I. }
  destruct (reconfigure_applies_request [moved_head] session Hnd)
    as (c' & Hrun & Hin & Hout).
  - intros h [<-|[]]. reflexivity.
  - intros h [<-|[]]. reflexivity.
  - exists c'. split; [exact Hrun|]. split.
    + destruct (Hin moved_head (or_introl eq_refl)) as (_ & _ & Hp).
      exact Hp.
    + destruct (Hout 0%nat) as (_ & Hp); [|exact Hp].
      intros [H|[]]. discriminate H.
Defined.

Lemma inhibitor_activation_witness :
  qtile session = Some manager
  /\ exists c',
       _on_input_inhibitor_activate lock_client session = Ok tt c'
       /\ exclusive_client c' = Some lock_client
       /\ keyboard_focused_surface (seat c') = None.
Proof.
  split; [reflexivity|].
  destruct (inhibitor_activation session manager lock_client eq_refl)
    as (c' & Hrun & Hex & Hk & _).
  exists c'. split; [exact Hrun|]. split; [exact Hex | exact Hk].
Defined.

Lemma inhibitor_then_pointer_witness :
  hit_test locker_session = Some (term, Some term_surface, 8%Q, 8%Q)
  /\ withheld term lock_client = true
  /\ exists c1 c2,
       _on_input_inhibitor_activate lock_client locker_session = Ok tt c1
       /\ _focus_pointer 10 10 (Some 7) c1 = Ok tt c2
       /\ pointer_focused_surface (seat c2) = None.
Proof.
  split; [reflexivity|]. split; [reflexivity|].
  destruct (inhibitor_then_pointer locker_session manager lock_client term
              (Some term_surface) 8%Q 8%Q 10 10 (Some 7)
              eq_refl eq_refl eq_refl)
    as (c1 & c2 & evs & H1 & H2 & Hp & _).
  exists c1, c2. split; [exact H1|]. split; [exact H2 | exact Hp].
Defined.

Lemma power_events_blanked_disabled_witness :
  Forall power_event_wf [power left_output POWER_OFF;
                         power right_output POWER_OFF;
                         power left_output POWER_ON]
  /\ blanked_are_disabled ∅ session
  /\ exists blanked' c',
       power_events ∅ [power left_output POWER_OFF;
                       power right_output POWER_OFF;
                       power left_output POWER_ON] session
       = Ok blanked' c'
       /\ blanked_are_disabled blanked' c'.
Proof.
  assert (Forall power_event_wf [power left_output POWER_OFF;
                                 power right_output POWER_OFF;
                                 power left_output POWER_ON]) as Hwf.
  { repeat constructor; eexists; split; reflexivity. }
  assert (blanked_are_disabled ∅ session) as Hinv.
  { intros o Ho. apply elem_of_empty in Ho. destruct Ho. }
  split; [exact Hwf|]. split; [exact Hinv|].
  exact (power_events_blanked_disabled _ ∅ session Hwf Hinv).
Defined.

Lemma power_events_keep_user_disabled_witness :
  os_enabled (current (wlr_outputs dark_session 1)) = false
  /\ exists blanked' c',
       power_events ∅ [power right_output POWER_ON;
                       power left_output POWER_OFF;
                       power right_output POWER_ON] dark_session
       = Ok blanked' c'
       /\ os_enabled (current (wlr_outputs c' 1)) = false
       /\ 1%nat ∉ blanked'.
Proof.
  split; [reflexivity|].
  apply power_events_keep_user_disabled.
  - repeat constructor; eexists; split; reflexivity.
  - reflexivity.
  - apply not_elem_of_empty.
Defined.

Lemma power_off_on_round_trip_witness :
  os_enabled (current (wlr_outputs session (out_id left_output))) = true
  /\ exists c',
       power_events ∅ [power left_output POWER_OFF;
                       power left_output POWER_ON] session
       = Ok ∅ c'
       /\ (forall i, wlr_outputs c' i = wlr_outputs session i).
Proof.
  split; [reflexivity|].
  destruct (power_off_on_round_trip ∅ session left_output eq_refl eq_refl)
    as (c' & Hrun & Hw & _); [apply not_elem_of_empty|].
  exists c'. split; [exact Hrun | exact Hw].
Defined.

Lemma hidden_cursor_quiet_witness :
  hidden hidden_cursor = true
  /\ snd (cursor_ops [RequestCursor (Some term_client) term_cursor_request;
                      HideCursor] hidden_cursor) = [].
Proof.
  split; [reflexivity|].
  apply (hidden_cursor_quiet
           [RequestCursor (Some term_client) term_cursor_request; HideCursor]
           hidden_cursor eq_refl).
  intros H. apply list_elem_of_In in H.
  destruct H as [H|[H|[]]]; discriminate H.
Defined.

Lemma hide_unhide_round_trip_witness :
  hidden shown_cursor = false
  /\ cursor_ops [HideCursor; UnhideCursor] shown_cursor
     = (shown_cursor, [SetSurface None (0, 0); SetSurface None (0, 0)]).
Proof.
  split; [reflexivity|].
  exact (hide_unhide_round_trip shown_cursor eq_refl).
Defined.

Lemma cursor_shows_state_witness :
  last (snd (cursor_ops [HideCursor;
                         RequestCursor (Some term_client) term_cursor_request;
                         UnhideCursor] shown_cursor))
  = Some (SetSurface (Some term_surface) (1, 1))
  /\ shows (fst (cursor_ops
                   [HideCursor;
                    RequestCursor (Some term_client) term_cursor_request;
                    UnhideCursor] shown_cursor))
       (SetSurface (Some term_surface) (1, 1)).
Proof.
  split; [reflexivity|].
  exact (cursor_shows_state
           [HideCursor; RequestCursor (Some term_client) term_cursor_request;
            UnhideCursor] shown_cursor _ eq_refl).
Defined.

Lemma grab_ungrab_round_trip_witness :
  grab_key keysyms masks mod4_a [(65293, 0)]
  = Returned (97, 64) [(65293, 0); (97, 64)]
  /\ ungrab_key keysyms masks mod4_a [(65293, 0); (97, 64)]
     = Returned (97, 64) [(65293, 0)].
Proof.
  split; [reflexivity|].
  destruct (grab_ungrab_round_trip keysyms masks mod4_a [(65293, 0)]
              [(65293, 0); (97, 64)] (97, 64) eq_refl)
    as (rest & Hrun & _ & Heq).
  rewrite Hrun. f_equal. apply Heq.
  intros H. apply list_elem_of_In in H. destruct H as [H|[]]. discriminate H.
Defined.

Lemma ungrab_key_releases_one_witness :
  keysyms (key mod4_a) = Some 97
  /\ masks (modifiers mod4_a) = Some 64
  /\ ungrab_key keysyms masks mod4_a [(65293, 0)]
     = Failed (Builtin ValueError) [(65293, 0)].
Proof.
  split; [reflexivity|]. split; [reflexivity|].
  destruct (ungrab_key_releases_one keysyms masks mod4_a [(65293, 0)] 97 64
              eq_refl eq_refl) as [H _].
  apply H. intros Hin. apply list_elem_of_In in Hin.
  destruct Hin as [Hin|[]]. discriminate Hin.
Defined.

Lemma grab_twice_ungrab_once_witness :
  grab_key keysyms masks mod4_a [] = Returned (97, 64) [(97, 64)]
  /\ grab_key keysyms masks mod4_a [(97, 64)]
     = Returned (97, 64) [(97, 64); (97, 64)]
  /\ exists g3,
       ungrab_key keysyms masks mod4_a [(97, 64); (97, 64)]
       = Returned (97, 64) g3
       /\ (97, 64) ∈ g3.
Proof.
  split; [reflexivity|]. split; [reflexivity|].
  destruct (grab_twice_ungrab_once keysyms masks mod4_a [] [(97, 64)]
              [(97, 64); (97, 64)] (97, 64) eq_refl eq_refl)
    as (g3 & Hrun & Hin & _).
  exists g3. split; assumption.
Defined.

Lemma simulate_grabbed_key_witness :
  grab_key keysyms masks mod4_a [] = Returned (97, 64) [(97, 64)]
  /\ qtile session <> None
  /\ simulate_keypress keysyms masks ["mod4"] "a" [(97, 64)] session
     = Returned [ProcessKeyEvent 97 64] [(97, 64)].
Proof.
  assert (qtile session <> None) as Hq by discriminate.
  split; [reflexivity|]. split; [exact Hq|].
  exact (simulate_grabbed_key keysyms masks mod4_a [] [(97, 64)] (97, 64)
           session eq_refl Hq).
Defined.

Lemma capabilities_follow_keyboards_witness :
  omap made_for [a_touchscreen; a_keyboard] <> []
  /\ last_capabilities
       (input_calls (new_inputs [a_touchscreen; a_keyboard] no_inputs))
     = Some 3.
Proof.
  assert (omap made_for [a_touchscreen; a_keyboard] <> []) as H
    by discriminate.
  split; [exact H|].
  exact (capabilities_follow_keyboards [a_touchscreen; a_keyboard]
           no_inputs H).
Defined.

Lemma pending_inputs_configured_once_witness :
  inputs_qtile no_inputs = None
  /\ rules_set some_rules = Some [("type:keyboard", 1)]
  /\ exists s1,
       _configure_pending_inputs
         (set_inputs_qtile some_rules
            (new_inputs [a_keyboard; a_touchscreen; a_mouse] no_inputs))
       = Some s1
       /\ _pending_input_devices s1 = []
       /\ _configure_pending_inputs s1 = Some s1.
Proof.
  split; [reflexivity|]. split; [reflexivity|].
  destruct (pending_inputs_configured_once
              [a_keyboard; a_touchscreen; a_mouse] some_rules
              [("type:keyboard", 1)] no_inputs eq_refl eq_refl eq_refl)
    as (s1 & Hrun & _ & Hp & Hagain).
  exists s1. split; [exact Hrun|]. split; assumption.
Defined.

Lemma inhibitor_release_keeps_focus_witness :
  current_window manager = Some term
  /\ belongs_to_client term lock_client = false
  /\ exists c1 c2,
       _on_input_inhibitor_activate lock_client term_focused = Ok tt c1
       /\ _on_input_inhibitor_deactivate c1 = Ok tt c2
       /\ exclusive_client c2 = None
       /\ keyboard_focused_surface (seat term_focused) = Some term_surface
       /\ keyboard_focused_surface (seat c2) = None.
Proof.
  split; [reflexivity|]. split; [reflexivity|].
  destruct (inhibitor_release_keeps_focus term_focused manager lock_client
              term eq_refl eq_refl eq_refl eq_refl)
    as (c1 & c2 & H1 & H2 & Hex & Hk & _).
  exists c1, c2. split; [exact H1|]. split; [exact H2|].
  split; [exact Hex|]. split; [reflexivity | exact Hk].
Defined.
